(** * quasar-config-file: a shallow embedding of app-vite/lib/quasar-config-file.js

    The development follows the source file top to bottom:
    - JavaScript values and the string primitives the file relies on;
    - the pure helpers ([formatPublicPath], [parseAssetProperty],
      [getUniqueArray], [uniquePathFilter]);
    - the module-level address negotiator [onAddress];
    - the class [QuasarConfigFile]: [computeConfig], the [onEnd] handler of
      the esbuild watcher plugin and the one-shot [build].

    Effects (log lines, the transient compiled file, process exit, the
    private fields of the class and the module-level variables) are threaded
    through an explicit state; everything the file imports from elsewhere
    (esbuild, webpack-merge of the user's object, the app-extension runner,
    the port prober, files validation) is an oracle of the build cycle. *)

From Stdlib Require Import ZArith List String Ascii Bool Lia DecimalString.
Import ListNotations.
Open Scope string_scope.
Open Scope Z_scope.

Set Implicit Arguments.

(* ===================================================================== *)
(** ** JavaScript values *)
(* ===================================================================== *)

(** Primitive values. Numbers are restricted to integers (no NaN, no
    fractions): ports and list entries of the configuration. *)
Inductive prim : Type :=
| PUndefined
| PNull
| PBool (b : bool)
| PNum (n : Z)
| PStr (s : string).

(** Values a user factory can resolve to. A value that is not primitive
    is a reference: [ref] is the identity of the object it points to.
    Objects keep their own enumerable properties in insertion order;
    [JBoxed] is the wrapper object of a primitive ([new String('a')]). *)
#[local] Unset Elimination Schemes.
Inductive jsval : Type :=
| JPrim (p : prim)
| JArray (ref : nat) (elems : list jsval)
| JObject (ref : nat) (props : list (string * jsval))
| JFunction (ref : nat)
| JBoxed (ref : nat) (p : prim).
#[local] Set Elimination Schemes.

(** An object all of whose properties hold primitives (asset declarations:
    [{ path, server, client }]). *)
Definition object := list (string * prim).

(** [v === w] on primitives. *)
Definition strict_eq (v w : prim) : bool :=
  match v, w with
  | PUndefined, PUndefined => true
  | PNull, PNull => true
  | PBool a, PBool b => Bool.eqb a b
  | PNum a, PNum b => Z.eqb a b
  | PStr a, PStr b => String.eqb a b
  | _, _ => false
  end.

(** ToBoolean. *)
Definition truthy (v : prim) : bool :=
  match v with
  | PUndefined | PNull => false
  | PBool b => b
  | PNum n => negb (n =? 0)
  | PStr s => negb (s =? "")%string
  end.

(** ToString. *)
Definition toString (v : prim) : string :=
  match v with
  | PUndefined => "undefined"
  | PNull => "null"
  | PBool true => "true"
  | PBool false => "false"
  | PNum n => NilZero.string_of_int (Z.to_int n)
  | PStr s => s
  end.

(** [a === b]: primitives by value, references by identity. *)
Definition strict_equal (a b : jsval) : bool :=
  match a, b with
  | JPrim x, JPrim y => strict_eq x y
  | JArray r _, JArray r' _ => Nat.eqb r r'
  | JObject r _, JObject r' _ => Nat.eqb r r'
  | JFunction r, JFunction r' => Nat.eqb r r'
  | JBoxed r _, JBoxed r' _ => Nat.eqb r r'
  | _, _ => false
  end.

(** [Object(v)]: an object is handed back as it is; null and undefined
    give a new empty object, any other primitive a new wrapper around it.
    The identity of the new object is written 0: it is only ever compared
    with the primitive it was made from. *)
Definition Object_call (v : jsval) : jsval :=
  match v with
  | JPrim PUndefined | JPrim PNull => JObject 0 []
  | JPrim p => JBoxed 0 p
  | _ => v
  end.

(** [Object(v) === v] *)
Definition Object_is_self (v : jsval) : bool := strict_equal (Object_call v) v.

(** Property read [o.k] and write [{ ...o, k: v }] on a flat object. *)
Fixpoint getProp (o : object) (k : string) : prim :=
  match o with
  | [] => PUndefined
  | (k', v) :: r => if (k' =? k)%string then v else getProp r k
  end.

Fixpoint setProp (o : object) (k : string) (v : prim) : object :=
  match o with
  | [] => [(k, v)]
  | (k', v') :: r =>
      if (k' =? k)%string then (k', v) :: r else (k', v') :: setProp r k v
  end.

(* ===================================================================== *)
(** ** String primitives *)
(* ===================================================================== *)

Definition toLowerAscii (c : ascii) : ascii :=
  let n := nat_of_ascii c in
  if ((65 <=? n) && (n <=? 90))%nat then ascii_of_nat (n + 32) else c.

Fixpoint toLowerCase (s : string) : string :=
  match s with
  | EmptyString => EmptyString
  | String c r => String (toLowerAscii c) (toLowerCase r)
  end.

(** [s.startsWith(p)] *)
Definition startsWith (s p : string) : bool := String.prefix p s.

(** [s.endsWith(p)]: some suffix of [s] is [p]. *)
Fixpoint endsWith (s p : string) : bool :=
  if (s =? p)%string then true
  else match s with
       | EmptyString => false
       | String _ r => endsWith r p
       end.

(** [s.substring(1)] *)
Definition substring1 (s : string) : string :=
  match s with
  | EmptyString => EmptyString
  | String _ r => r
  end.

(** [s[0] === c] *)
Definition firstCharIs (s : string) (c : ascii) : bool :=
  match s with
  | EmptyString => false
  | String d _ => Ascii.eqb d c
  end.

Definition isUpperAZ (c : ascii) : bool :=
  let n := nat_of_ascii c in ((65 <=? n) && (n <=? 90))%nat.

(** [const urlRegex = /^http(s)?:\/\//i] *)
Definition urlRegex_test (s : string) : bool :=
  let l := toLowerCase s in
  startsWith l "http://" || startsWith l "https://".

(** [const quasarComponentRE = /^(Q[A-Z]|q-)/] on a string. *)
Definition quasarComponentRE_match (s : string) : bool :=
  match s with
  | String "Q" (String c _) => isUpperAZ c
  | String "q" (String "-" _) => true
  | _ => false
  end.

(** [quasarComponentRE.test(v)]: [test] converts its argument to a string. *)
Definition quasarComponentRE_test (v : prim) : bool :=
  quasarComponentRE_match (toString v).

(* ===================================================================== *)
(** ** Build targets *)
(* ===================================================================== *)

(** [ctx.modeName] *)
Inductive modeName : Type := Spa | Ssr | Pwa | Electron | Cordova | Capacitor | Bex.

Definition modeName_eqb (a b : modeName) : bool :=
  match a, b with
  | Spa, Spa | Ssr, Ssr | Pwa, Pwa | Electron, Electron
  | Cordova, Cordova | Capacitor, Capacitor | Bex, Bex => true
  | _, _ => false
  end.

(** [[ ... ].includes(ctx.modeName)] *)
Definition includes_mode (l : list modeName) (m : modeName) : bool :=
  existsb (modeName_eqb m) l.

(** [const defaultPortMapping = { spa: 9000, ... }]; there is no entry for
    bex, so the lookup is undefined there. *)
Definition defaultPortMapping (m : modeName) : option Z :=
  match m with
  | Spa => Some 9000
  | Ssr => Some 9100
  | Pwa => Some 9200
  | Electron => Some 9300
  | Cordova => Some 9400
  | Capacitor => Some 9500
  | Bex => None
  end.

(* ===================================================================== *)
(** ** Pure helpers *)
(* ===================================================================== *)

(** [function formatPublicPath (publicPath)]; [None] is undefined. *)
Definition formatPublicPath (publicPath : option string) : string :=
  match publicPath with
  | None => "/"
  | Some p =>
      if (p =? "")%string then "/"
      else
        let p1 := if negb (endsWith p "/") then p ++ "/" else p in
        if urlRegex_test p1 then p1
        else if negb (startsWith p1 "/") then "/" ++ p1 else p1
  end.

(** The expression assigned to [cfg.build.publicPath] in [#computeConfig]. *)
Definition build_publicPath_of (m : modeName) (publicPath : option string) : string :=
  let set := match publicPath with
             | Some p => negb (p =? "")%string
             | None => false
             end in
  if set && includes_mode [Spa; Pwa; Ssr] m
  then formatPublicPath publicPath
  else if includes_mode [Capacitor; Cordova; Electron; Bex] m then "" else "/".

(** An entry of [css], [boot] or [ssr.middlewares] as the user writes it. *)
Inductive asset : Type :=
| AssetPrim (p : prim)
| AssetObj (o : object).

(** [filter(_ => _)] *)
Definition asset_truthy (a : asset) : bool :=
  match a with
  | AssetPrim p => truthy p
  | AssetObj _ => true
  end.

(** The path rule shared by both branches of [parseAssetProperty]. *)
Definition prefixed (prefix s : string) : string :=
  if firstCharIs s "~" then substring1 s else prefix ++ "/" ++ s.

(** [function parseAssetProperty (prefix)], applied to one asset. Reading
    [.path] of null or undefined throws a TypeError: [None]. *)
Definition parseAssetProperty (prefix : string) (a : asset) : option object :=
  match a with
  | AssetPrim (PStr s) => Some [("path", PStr (prefixed prefix s))]
  | AssetPrim PUndefined | AssetPrim PNull => None
  | AssetPrim _ => Some [("path", PUndefined)]
  | AssetObj o =>
      Some (setProp o "path"
              (match getProp o "path" with
               | PStr s => PStr (prefixed prefix s)
               | v => v
               end))
  end.

(** [Array.prototype.indexOf] (strict equality, -1 when absent). *)
Fixpoint indexOf_from (i : Z) (l : list prim) (v : prim) : Z :=
  match l with
  | [] => -1
  | x :: r => if strict_eq x v then i else indexOf_from (i + 1) r v
  end.

Definition indexOf (l : list prim) (v : prim) : Z := indexOf_from 0 l v.

(** [function uniquePathFilter (value, index, self)] *)
Definition uniquePathFilter (value : object) (index : Z) (self : list object) : bool :=
  indexOf (map (fun obj => getProp obj "path") self) (getProp value "path") =? index.

(** [Array.prototype.filter] with the three-argument callback. *)
Fixpoint filter_from {A} (f : A -> Z -> bool) (i : Z) (l : list A) : list A :=
  match l with
  | [] => []
  | x :: r => if f x i then x :: filter_from f (i + 1) r else filter_from f (i + 1) r
  end.

Definition Array_filter {A} (f : A -> Z -> list A -> bool) (self : list A) : list A :=
  filter_from (fun v i => f v i self) 0 self.

(** [Array.prototype.map] with a callback that may throw. *)
Fixpoint Array_map {A B} (f : A -> option B) (l : list A) : option (list B) :=
  match l with
  | [] => Some []
  | x :: r =>
      match f x with
      | None => None
      | Some y => match Array_map f r with
                  | None => None
                  | Some ys => Some (y :: ys)
                  end
      end
  end.

(** The chain
    [list.filter(_ => _).map(parseAssetProperty(prefix)).filter(asset => asset.path).filter(uniquePathFilter)]. *)
Definition parseAssets (prefix : string) (l : list asset) : option (list object) :=
  match Array_map (parseAssetProperty prefix) (filter asset_truthy l) with
  | None => None
  | Some parsed =>
      Some (Array_filter uniquePathFilter
              (filter (fun a => truthy (getProp a "path")) parsed))
  end.

(** A JavaScript [Set] of primitives: insertion-ordered, no duplicates. *)
Definition Set_has (s : list prim) (v : prim) : bool := existsb (strict_eq v) s.

Definition Set_add (s : list prim) (v : prim) : list prim :=
  if Set_has s v then s else s ++ [v].

(** [new Set(iterable)] *)
Definition Set_new (l : list prim) : list prim := fold_left Set_add l [].

(** [function getUniqueArray (original)]: [Array.from(new Set(original))]. *)
Definition getUniqueArray (original : list prim) : list prim := Set_new original.

(* ===================================================================== *)
(** ** The configuration tree *)
(* ===================================================================== *)

(** The fields of the merged configuration that the modelled part of
    [#computeConfig] reads or writes, nested as in the source. *)
Record devServerConf : Type := {
  ds_host : option string;          (* undefined or a string *)
  ds_port : option Z;               (* undefined or a number *)
  ds_open : prim
}.

Record frameworkConf : Type := {
  fw_components : list prim;
  fw_directives : list prim;
  fw_plugins : list prim;
  fw_loading : option prim;         (* config.loading, when truthy: its spinner *)
  fw_notify : option prim           (* config.notify, when truthy: its spinner *)
}.

Record ssrConf : Type := {
  ssr_pwa : prim;
  ssr_middlewares : list asset
}.

Record conf : Type := {
  devServer : devServerConf;
  css : list asset;
  boot : list asset;
  extras : list prim;
  animations : list prim;
  framework : frameworkConf;
  build_publicPath : option string;
  ssr : ssrConf;
  pwa_workboxMode : option string
}.

Definition set_devServer (c : conf) (d : devServerConf) : conf :=
  {| devServer := d; css := css c; boot := boot c; extras := extras c;
     animations := animations c; framework := framework c;
     build_publicPath := build_publicPath c; ssr := ssr c;
     pwa_workboxMode := pwa_workboxMode c |}.

Definition set_css (c : conf) (l : list asset) : conf :=
  {| devServer := devServer c; css := l; boot := boot c; extras := extras c;
     animations := animations c; framework := framework c;
     build_publicPath := build_publicPath c; ssr := ssr c;
     pwa_workboxMode := pwa_workboxMode c |}.

Definition set_boot (c : conf) (l : list asset) : conf :=
  {| devServer := devServer c; css := css c; boot := l; extras := extras c;
     animations := animations c; framework := framework c;
     build_publicPath := build_publicPath c; ssr := ssr c;
     pwa_workboxMode := pwa_workboxMode c |}.

Definition set_extras (c : conf) (l : list prim) : conf :=
  {| devServer := devServer c; css := css c; boot := boot c; extras := l;
     animations := animations c; framework := framework c;
     build_publicPath := build_publicPath c; ssr := ssr c;
     pwa_workboxMode := pwa_workboxMode c |}.

Definition set_animations (c : conf) (l : list prim) : conf :=
  {| devServer := devServer c; css := css c; boot := boot c; extras := extras c;
     animations := l; framework := framework c;
     build_publicPath := build_publicPath c; ssr := ssr c;
     pwa_workboxMode := pwa_workboxMode c |}.

Definition set_framework (c : conf) (f : frameworkConf) : conf :=
  {| devServer := devServer c; css := css c; boot := boot c; extras := extras c;
     animations := animations c; framework := f;
     build_publicPath := build_publicPath c; ssr := ssr c;
     pwa_workboxMode := pwa_workboxMode c |}.

Definition set_build_publicPath (c : conf) (p : option string) : conf :=
  {| devServer := devServer c; css := css c; boot := boot c; extras := extras c;
     animations := animations c; framework := framework c;
     build_publicPath := p; ssr := ssr c;
     pwa_workboxMode := pwa_workboxMode c |}.

Definition set_ssr (c : conf) (s : ssrConf) : conf :=
  {| devServer := devServer c; css := css c; boot := boot c; extras := extras c;
     animations := animations c; framework := framework c;
     build_publicPath := build_publicPath c; ssr := s;
     pwa_workboxMode := pwa_workboxMode c |}.

Definition set_pwa_workboxMode (c : conf) (w : option string) : conf :=
  {| devServer := devServer c; css := css c; boot := boot c; extras := extras c;
     animations := animations c; framework := framework c;
     build_publicPath := build_publicPath c; ssr := ssr c;
     pwa_workboxMode := w |}.

Definition set_components (f : frameworkConf) (l : list prim) : frameworkConf :=
  {| fw_components := l; fw_directives := fw_directives f;
     fw_plugins := fw_plugins f; fw_loading := fw_loading f;
     fw_notify := fw_notify f |}.

(* ===================================================================== *)
(** ** Process state, effects and the build-cycle oracles *)
(* ===================================================================== *)

(** [{ host, port }] *)
Record addr : Type := { addr_host : string; addr_port : option Z }.

(** [this.#address = { from, to }] *)
Record negotiation : Type := { neg_from : addr; neg_to : addr }.

Inductive event : Type :=
| Log (msg : string)
| Warn (msg : string)
| Tip (msg : string)
| Fatal (msg kind : string)
| ConsoleLog
| ConsoleError
| RemoveTemp                              (* fse.removeSync(tempFile) *)
| UpdateAppPackageJson
| GetExternalIP
| Probe (port : option Z) (host : string) (* findClosestOpenPort(port, host) *)
| ProcessExit (code : Z)
| FirstBuildIsDone (c : conf)             (* firstBuildIsDone(quasarConf) *)
| ScheduleApply (c : conf).               (* this.#opts.watch(quasarConf), the
                                             debounced apply callback *)

Record state : Type := {
  (* module level: let cachedExternalHost, addressRunning = false *)
  cachedExternalHost : option string;
  addressRunning : bool;
  (* private fields of QuasarConfigFile *)
  address : option negotiation;
  isWatching : bool;
  (* closure of #buildAndWatch *)
  isFirst : bool;
  (* the transient compiled file *)
  tempFileOnDisk : bool;
  (* the configuration last handed to the caller *)
  inForce : option conf;
  (* what the process did, latest first *)
  trace : list event
}.

Definition set_cachedExternalHost (s : state) (h : option string) : state :=
  {| cachedExternalHost := h; addressRunning := addressRunning s;
     address := address s; isWatching := isWatching s; isFirst := isFirst s;
     tempFileOnDisk := tempFileOnDisk s; inForce := inForce s;
     trace := trace s |}.

Definition set_addressRunning (s : state) (b : bool) : state :=
  {| cachedExternalHost := cachedExternalHost s; addressRunning := b;
     address := address s; isWatching := isWatching s; isFirst := isFirst s;
     tempFileOnDisk := tempFileOnDisk s; inForce := inForce s;
     trace := trace s |}.

Definition set_address (s : state) (a : option negotiation) : state :=
  {| cachedExternalHost := cachedExternalHost s;
     addressRunning := addressRunning s;
     address := a; isWatching := isWatching s; isFirst := isFirst s;
     tempFileOnDisk := tempFileOnDisk s; inForce := inForce s;
     trace := trace s |}.

Definition set_isWatching (s : state) (b : bool) : state :=
  {| cachedExternalHost := cachedExternalHost s;
     addressRunning := addressRunning s;
     address := address s; isWatching := b; isFirst := isFirst s;
     tempFileOnDisk := tempFileOnDisk s; inForce := inForce s;
     trace := trace s |}.

Definition set_isFirst (s : state) (b : bool) : state :=
  {| cachedExternalHost := cachedExternalHost s;
     addressRunning := addressRunning s;
     address := address s; isWatching := isWatching s; isFirst := b;
     tempFileOnDisk := tempFileOnDisk s; inForce := inForce s;
     trace := trace s |}.

Definition set_tempFileOnDisk (s : state) (b : bool) : state :=
  {| cachedExternalHost := cachedExternalHost s;
     addressRunning := addressRunning s;
     address := address s; isWatching := isWatching s; isFirst := isFirst s;
     tempFileOnDisk := b; inForce := inForce s;
     trace := trace s |}.

Definition set_inForce (s : state) (c : option conf) : state :=
  {| cachedExternalHost := cachedExternalHost s;
     addressRunning := addressRunning s;
     address := address s; isWatching := isWatching s; isFirst := isFirst s;
     tempFileOnDisk := tempFileOnDisk s; inForce := c;
     trace := trace s |}.

Definition push_event (s : state) (e : event) : state :=
  {| cachedExternalHost := cachedExternalHost s;
     addressRunning := addressRunning s;
     address := address s; isWatching := isWatching s; isFirst := isFirst s;
     tempFileOnDisk := tempFileOnDisk s; inForce := inForce s;
     trace := e :: trace s |}.

(** A computation either returns, terminates the process, or lets an
    exception escape. *)
Inductive outcome (A : Type) : Type :=
| Ok (a : A) (s : state)
| Exited (s : state)
| Threw (s : state).

Arguments Exited {A} s.
Arguments Threw {A} s.

Definition M (A : Type) : Type := state -> outcome A.

Definition ret {A} (a : A) : M A := fun s => Ok a s.

Definition bind {A B} (m : M A) (k : A -> M B) : M B :=
  fun s => match m s with
           | Ok a s' => k a s'
           | Exited s' => Exited s'
           | Threw s' => Threw s'
           end.

Declare Scope proc_scope.
Delimit Scope proc_scope with proc.
Notation "x <- m ;; k" := (bind m (fun x => k))
  (at level 100, m at next level, right associativity) : proc_scope.
Notation "m ;; k" := (bind m (fun _ => k))
  (at level 100, right associativity) : proc_scope.
Open Scope proc_scope.

Definition get : M state := fun s => Ok s s.
Definition modify (f : state -> state) : M unit := fun s => Ok tt (f s).
Definition emit (e : event) : M unit := modify (fun s => push_event s e).
Definition throw {A} : M A := fun s => Threw s.
Definition when (b : bool) (m : M unit) : M unit := if b then m else ret tt.

(** [process.exit(code)] *)
Definition process_exit {A} (code : Z) : M A :=
  fun s => Exited (push_event s (ProcessExit code)).

(** Modelled from the spec: [fatal] of utils/logger.js, which is not part
    of the sources at hand. The spec has first-build failures propagate to
    process termination via the external fatal-reporting collaborator: it
    reports the message and the process ends, so nothing written after a
    call to it runs. *)
Definition fatal {A} (msg kind : string) : M A :=
  emit (Fatal msg kind) ;; process_exit 1.

Definition warn (msg : string) : M unit := emit (Warn msg).
Definition log (msg : string) : M unit := emit (Log msg).
Definition tip (msg : string) : M unit := emit (Tip msg).

(** [fse.removeSync(this.#tempFile)] *)
Definition removeSync : M unit :=
  modify (fun s => set_tempFileOnDisk s false) ;; emit RemoveTemp.

(** What the user's factory does when called with the context. *)
Inductive factory : Type :=
| Throws                     (* throws, or its promise rejects *)
| Returns (userCfg : jsval).

(** [result.default || result] of the compiled module. *)
Inductive exported : Type :=
| NotCallable (v : jsval)
| Callable (f : factory).

Inductive imported : Type :=
| ImportThrows
| Imported (fn : exported).

Inductive probe_result : Type :=
| OpenPort (p : Z)
| ERROR_NETWORK_PORT_NOT_AVAIL
| ERROR_NETWORK_ADDRESS_NOT_AVAIL
| ERROR_OTHER.

(** What the collaborators answer during one build cycle. *)
Record env : Type := {
  compileErrors : nat;                         (* result.errors.length *)
  importResult : imported;                     (* import()/require of the temp file *)
  merge_defaults : jsval -> conf;              (* merge({ ...defaults }, userCfg) *)
  extendQuasarConf : conf -> option conf;      (* the extension hooks; None: one threw *)
  findClosestOpenPort : option Z -> string -> probe_result;
  getExternalIP : string;
  localHostList : list string;
  appFilesValidations : bool
}.

(** [ctx] and the constructor's [{ host, port, verifyAddress }]. *)
Record context : Type := {
  dev : bool;
  ctx_modeName : modeName;
  tempFileBasename : string                    (* basename(this.#tempFile) *)
}.

Record options : Type := {
  opt_host : option string;
  opt_port : option Z;
  verifyAddress : bool
}.

(* ===================================================================== *)
(** ** The address negotiator *)
(* ===================================================================== *)

Definition nl : string := String (ascii_of_nat 10) EmptyString.

Definition optZ_eqb (a b : option Z) : bool :=
  match a, b with
  | Some x, Some y => x =? y
  | None, None => true
  | _, _ => false
  end.

Definition addr_eqb (a b : addr) : bool :=
  (addr_host a =? addr_host b)%string && optZ_eqb (addr_port a) (addr_port b).

(** [list.includes(s)] on strings. *)
Definition includes_str (l : list string) (s : string) : bool :=
  existsb (String.eqb s) l.

Definition str_truthy (s : string) : bool := negb (s =? "")%string.

(** The first block of [onAddress]: the host the probe runs on. *)
Definition externalHost (e : env) (host : string) (mode : modeName) : M string :=
  if includes_mode [Cordova; Capacitor] mode
     && (negb (str_truthy host) || includes_str (localHostList e) (toLowerCase host))
  then
    s <- get ;;
    match cachedExternalHost s with
    | Some h =>
        if str_truthy h then ret h
        else emit GetExternalIP ;;
             modify (fun s => set_cachedExternalHost s (Some (getExternalIP e))) ;;
             ret (getExternalIP e)
    | None =>
        emit GetExternalIP ;;
        modify (fun s => set_cachedExternalHost s (Some (getExternalIP e))) ;;
        ret (getExternalIP e)
    end
  else ret host.

Definition msgPortNotAvail : string :=
  "Could not find an open port. Please configure a lower one to start searching with.".
Definition msgAddressNotAvail : string :=
  "Invalid host specified. No network address matches. Please specify another one.".
Definition msgUnknownNetwork : string := "Unknown network error occurred".

(** [async function onAddress ({ host, port }, mode)]; [None] is null.
    (The text of the port warning starts, in the source, with two
    invisible variation selectors, left out here.) *)
Definition onAddress (e : env) (a : addr) (mode : modeName) : M (option addr) :=
  host <- externalHost e (addr_host a) mode ;;
  emit (Probe (addr_port a) host) ;;
  match findClosestOpenPort e (addr_port a) host with
  | OpenPort openPort =>
      port <- (if negb (optZ_eqb (addr_port a) (Some openPort))
               then warn "" ;;
                    warn ("Setting port to closest one available: "
                            ++ toString (PNum openPort)) ;;
                    warn "" ;;
                    ret (Some openPort)
               else ret (addr_port a)) ;;
      modify (fun s => set_addressRunning s true) ;;
      ret (Some {| addr_host := host; addr_port := port |})
  | err =>
      warn "" ;;
      match err with
      | ERROR_NETWORK_PORT_NOT_AVAIL => warn msgPortNotAvail
      | ERROR_NETWORK_ADDRESS_NOT_AVAIL => warn msgAddressNotAvail
      | _ => warn msgUnknownNetwork ;; emit ConsoleError
      end ;;
      warn "" ;;
      s <- get ;;
      if negb (addressRunning s) then process_exit 1 else ret None
  end.

(* ===================================================================== *)
(** ** QuasarConfigFile.#computeConfig *)
(* ===================================================================== *)

Definition opt_truthy_str (o : option string) : bool :=
  match o with Some s => str_truthy s | None => false end.

Definition opt_truthy_num (o : option Z) : bool :=
  match o with Some n => negb (n =? 0) | None => false end.

(** [ctx.mode.ssr], [ctx.mode.bex]: the flag of the active mode. *)
Definition mode_ssr (ctx : context) : bool := modeName_eqb (ctx_modeName ctx) Ssr.
Definition mode_bex (ctx : context) : bool := modeName_eqb (ctx_modeName ctx) Bex.

Definition ssr_pwa_true (cfg : conf) : bool := strict_eq (ssr_pwa (ssr cfg)) (PBool true).

(** [ctx.mode.pwa] once [#computeConfig] has assigned it in ssr mode
    ([this.#ctx.mode.pwa = cfg.ssr.pwa === true]). *)
Definition mode_pwa (ctx : context) (cfg : conf) : bool :=
  match ctx_modeName ctx with
  | Pwa => true
  | Ssr => ssr_pwa_true cfg
  | _ => false
  end.

Definition str_of (o : option string) : string :=
  match o with Some s => s | None => EmptyString end.

(** The host the dev server is asked to listen on: [this.#opts.host],
    else [cfg.devServer.host], else ['0.0.0.0']. *)
Definition requestedHost (opts : options) (cfg : conf) : string :=
  if opt_truthy_str (opt_host opts) then str_of (opt_host opts)
  else if negb (opt_truthy_str (ds_host (devServer cfg))) then "0.0.0.0"
  else str_of (ds_host (devServer cfg)).

(** The port the dev server is asked to listen on. *)
Definition requestedPort (ctx : context) (opts : options) (cfg : conf) : option Z :=
  if opt_truthy_num (opt_port opts) then opt_port opts
  else if negb (opt_truthy_num (ds_port (devServer cfg)))
  then match defaultPortMapping (ctx_modeName ctx) with
       | Some p => Some (p + (if mode_ssr ctx && ssr_pwa_true cfg then 50 else 0))
       | None => None
       end
  else ds_port (devServer cfg).

Definition tipCliPort : string :=
  "You are using the --port parameter. It is recommended to use a different devServer port for each Quasar mode to avoid browser cache issues".
Definition tipCfgPort : string :=
  "You specified an explicit quasar.config file > devServer > port. It is recommended to use a different devServer > port for each Quasar mode to avoid browser cache issues. Example: ctx.mode.ssr ? 9100 : ...".
Definition msgNetwork : string :=
  "Network error encountered while following the quasar.config file host/port config.".

(** [merge({ open: true }, cfg.devServer, to)] *)
Definition merge_devServer (d : devServerConf) (to : addr) : devServerConf :=
  {| ds_host := Some (addr_host to);
     ds_port := match addr_port to with
                | Some p => Some p
                | None => ds_port d
                end;
     ds_open := match ds_open d with
                | PUndefined => PBool true
                | v => v
                end |}.

(** [this.#address && this.#address.from.host === host && this.#address.from.port === port] *)
Definition cachedTo (s : state) (a : addr) : option addr :=
  match address s with
  | Some n => if addr_eqb (neg_from n) a then Some (neg_to n) else None
  | None => None
  end.

(** The [else] branch: negotiate [a] and remember the answer. *)
Definition negotiate (e : env) (ctx : context) (opts : options)
    (failOnError : bool) (cfg : conf) (a : addr) : M (option conf) :=
  to <- (if verifyAddress opts then onAddress e a (ctx_modeName ctx)
         else ret (Some a)) ;;
  match to with
  | None =>
      when failOnError (fatal msgNetwork "FAIL") ;;
      warn (msgNetwork ++ " Reconfigure and save the file again." ++ nl) ;;
      ret None
  | Some t =>
      let d := merge_devServer (devServer cfg) t in
      modify (fun s => set_address s
                (Some {| neg_from := a;
                         neg_to := {| addr_host := str_of (ds_host d);
                                      addr_port := ds_port d |} |})) ;;
      ret (Some (set_devServer cfg d))
  end.

(** The block [if (this.#ctx.dev && this.#ctx.mode.bex !== true) { ... }]. *)
Definition devServerStage (e : env) (ctx : context) (opts : options)
    (failOnError : bool) (cfg : conf) : M (option conf) :=
  if dev ctx && negb (mode_bex ctx) then
    let host := requestedHost opts cfg in
    let port := requestedPort ctx opts cfg in
    (if opt_truthy_num (opt_port opts) then tip tipCliPort
     else if negb (opt_truthy_num (ds_port (devServer cfg))) then ret tt
     else tip tipCfgPort) ;;
    let cfg1 := set_devServer cfg
                  {| ds_host := Some host; ds_port := port;
                     ds_open := ds_open (devServer cfg) |} in
    let a := {| addr_host := host; addr_port := port |} in
    s <- get ;;
    match cachedTo s a with
    | Some to =>
        ret (Some (set_devServer cfg1
                     {| ds_host := Some (addr_host to);
                        ds_port := addr_port to;
                        ds_open := ds_open (devServer cfg1) |}))
    | None => negotiate e ctx opts failOnError cfg1 a
    end
  else ret (Some cfg).

(** The list fields: [css], [boot], [extras], [animations] and the
    framework lists, with the spinner special case. *)
Definition parseAssetsField (prefix : string) (l : list asset) : M (list asset) :=
  if (0 <? List.length l)%nat
  then match parseAssets prefix l with
       | Some parsed => ret (map AssetObj parsed)
       | None => throw
       end
  else ret l.

Definition uniqueField (l : list prim) : list prim :=
  if (0 <? List.length l)%nat then getUniqueArray l else l.

(** [if (config.x) { const { spinner } = config.x; if (quasarComponentRE.test(spinner)) components.push(spinner) }] *)
Definition pushSpinner (section : option prim) (components : list prim) : list prim :=
  match section with
  | Some spinner =>
      if quasarComponentRE_test spinner then components ++ [spinner] else components
  | None => components
  end.

Definition frameworkLists (f : frameworkConf) : frameworkConf :=
  let components := pushSpinner (fw_notify f) (pushSpinner (fw_loading f) (fw_components f)) in
  {| fw_components := getUniqueArray components;
     fw_directives := getUniqueArray (fw_directives f);
     fw_plugins := getUniqueArray (fw_plugins f);
     fw_loading := fw_loading f;
     fw_notify := fw_notify f |}.

Definition listsStage (cfg : conf) : M conf :=
  css' <- parseAssetsField "src/css" (css cfg) ;;
  boot' <- parseAssetsField "boot" (boot cfg) ;;
  let cfg := set_boot (set_css cfg css') boot' in
  let cfg := set_extras cfg (uniqueField (extras cfg)) in
  let cfg := set_animations cfg (uniqueField (animations cfg)) in
  ret (set_framework cfg (frameworkLists (framework cfg))).

Definition msgNotFunction : string :=
  "The default export value of the quasar.config file is not a function.".
Definition msgRuntime (ctx : context) : string :=
  "The quasar.config file has runtime errors. Please check the Node.js stack above against the temporarily created "
    ++ tempFileBasename ctx ++ " file then DELETE it.".
Definition msgNotObject : string :=
  "The quasar.config file does not default exports an Object.".
Definition msgExtension : string := "One of your installed App Extensions failed to run".
Definition msgValidation : string := "Files validation not passed successfully".
Definition dquote : string := String (ascii_of_nat 34) EmptyString.
Definition msgWorkbox (mode : string) : string :=
  "Workbox strategy " ++ dquote ++ mode ++ dquote ++ " is invalid. Valid quasar.config file > pwa > workboxMode options are: GenerateSW or InjectManifest.".

(** [merge({ pwa: false, ... }, cfg.ssr)] *)
Definition merge_ssr (s : ssrConf) : ssrConf :=
  {| ssr_pwa := match ssr_pwa s with PUndefined => PBool false | v => v end;
     ssr_middlewares := ssr_middlewares s |}.

(** [merge({ workboxMode: 'GenerateSW', ... }, cfg.pwa)] *)
Definition merge_workboxMode (w : option string) : string :=
  match w with Some m => m | None => "GenerateSW" end.

(** The rest of [#computeConfig] once the dev-server address is settled:
    the list fields, the public path, files validation, the ssr
    middlewares and the workbox mode. The derived fields that neither fail
    nor touch the state kept here (eslint, vite build options, source file
    names, https certificates, electron packaging, the env bag) are left
    out. *)
Definition finishConfig (e : env) (ctx : context) (failOnError : bool)
    (cfg : conf) : M (option conf) :=
  cfg <- listsStage cfg ;;
  let cfg := set_build_publicPath cfg
               (Some (build_publicPath_of (ctx_modeName ctx) (build_publicPath cfg))) in
  if negb (appFilesValidations e) then
    when failOnError (fatal msgValidation "FAIL") ;;
    warn (msgValidation ++ ". Please fix the issues." ++ nl) ;;
    ret None
  else
    cfg <- (if mode_ssr ctx
            then m <- parseAssetsField "app/src-ssr/middlewares" (ssr_middlewares (ssr cfg)) ;;
                 ret (set_ssr cfg {| ssr_pwa := ssr_pwa (ssr cfg); ssr_middlewares := m |})
            else ret cfg) ;;
    if mode_pwa ctx cfg then
      let mode := merge_workboxMode (pwa_workboxMode cfg) in
      let cfg := set_pwa_workboxMode cfg (Some mode) in
      if negb (includes_str ["GenerateSW"; "InjectManifest"] mode) then
        when failOnError (fatal (msgWorkbox mode) "FAIL") ;;
        warn (msgWorkbox mode ++ " Please fix it." ++ nl) ;;
        ret None
      else ret (Some cfg)
    else ret (Some cfg).

(** The configuration the dev-server block starts from: in ssr mode
    [cfg.ssr] has its defaults merged in. *)
Definition withSsrDefaults (ctx : context) (raw : conf) : conf :=
  if mode_ssr ctx then set_ssr raw (merge_ssr (ssr raw)) else raw.

(** Everything after the app-extension hooks. *)
Definition deriveConfig (e : env) (ctx : context) (opts : options)
    (failOnError : bool) (rawQuasarConf : conf) : M (option conf) :=
  r <- devServerStage e ctx opts failOnError (withSsrDefaults ctx rawQuasarConf) ;;
  match r with
  | None => ret None
  | Some cfg => finishConfig e ctx failOnError cfg
  end.

(** [#computeConfig] from the point where the user's value has passed the
    shape checks: the temp file goes, the defaults are merged in, the
    extensions run, the fields are derived. *)
Definition normalize (e : env) (ctx : context) (opts : options)
    (failOnError : bool) (userCfg : jsval) : M (option conf) :=
  removeSync ;;
  let rawQuasarConf := merge_defaults e userCfg in
  match extendQuasarConf e rawQuasarConf with
  | None =>
      emit ConsoleLog ;;
      emit ConsoleError ;;
      when failOnError (fatal msgExtension "FAIL") ;;
      warn (msgExtension ++ "." ++ nl) ;;
      ret None
  | Some rawQuasarConf => deriveConfig e ctx opts failOnError rawQuasarConf
  end.

(** [async #computeConfig (quasarConfigFn, failOnError)]; [None] is the
    [void 0] it returns when it encounters errors. *)
Definition computeConfig (e : env) (ctx : context) (opts : options)
    (quasarConfigFn : exported) (failOnError : bool) : M (option conf) :=
  match quasarConfigFn with
  | NotCallable _ =>
      removeSync ;;
      when failOnError (fatal msgNotFunction "FAIL") ;;
      warn (msgNotFunction ++ " Please fix it." ++ nl) ;;
      ret None
  | Callable Throws =>
      emit ConsoleLog ;;
      emit ConsoleError ;;
      when failOnError (fatal (msgRuntime ctx) "FAIL") ;;
      warn (msgRuntime ctx ++ " Please fix the errors in the original file." ++ nl) ;;
      ret None
  | Callable (Returns userCfg) =>
      if negb (Object_is_self userCfg) then
        removeSync ;;
        when failOnError (fatal msgNotObject "FAIL") ;;
        warn (msgNotObject ++ " Please fix it." ++ nl) ;;
        ret None
      else normalize e ctx opts failOnError userCfg
  end.

(* ===================================================================== *)
(** ** QuasarConfigFile.#build and #buildAndWatch *)
(* ===================================================================== *)

Definition msgCompile : string :=
  "Could not compile the quasar.config file because it has errors.".
Definition msgImportWatch (ctx : context) : string :=
  "Importing quasar.config file results in error. Please check the Node.js stack above against the temporarily created "
    ++ tempFileBasename ctx ++ " file and fix the original file.".
Definition msgImportBuild (ctx : context) : string :=
  "The quasar.config file has runtime errors. Please check the Node.js stack above against the temporarily created "
    ++ tempFileBasename ctx ++ " file, fix the original file then DELETE the temporary one.".

(** esbuild itself, by the contract of the script compiler: it writes the
    bundle to the transient path when the compile is clean and writes
    nothing otherwise. *)
Definition esBuild (e : env) : M unit :=
  if (compileErrors e =? 0)%nat
  then modify (fun s => set_tempFileOnDisk s true)
  else ret tt.

(** [async #build (esbuildConfig)] *)
Definition build (e : env) (ctx : context) (opts : options) : M (option conf) :=
  esBuild e ;;
  (if negb (compileErrors e =? 0)%nat
   then removeSync ;;
        emit ConsoleLog ;;
        emit ConsoleError ;;
        fatal msgCompile "FAIL"
   else ret tt) ;;
  match importResult e with
  | ImportThrows =>
      emit ConsoleLog ;;
      emit ConsoleError ;;
      fatal (msgImportBuild ctx) "FAIL"
  | Imported quasarConfigFn => computeConfig e ctx opts quasarConfigFn true
  end.

(** [build.onStart(() => { ... })] *)
Definition onStart : M unit :=
  s <- get ;;
  if negb (isFirst s)
  then log "" ;;
       log "The quasar.config file (or its dependencies) changed. Reading it again..." ;;
       emit UpdateAppPackageJson
  else ret tt.

(** [build.onEnd(async result => { ... })] *)
Definition onEnd (e : env) (ctx : context) (opts : options) : M unit :=
  s <- get ;;
  if negb (isFirst s) && negb (isWatching s) then ret tt
  else if negb (compileErrors e =? 0)%nat then
    removeSync ;;
    when (isFirst s) (fatal msgCompile "FAIL") ;;
    warn (msgCompile ++ " Please fix them." ++ nl)
  else
    match importResult e with
    | ImportThrows =>
        emit ConsoleLog ;;
        emit ConsoleError ;;
        when (isFirst s) (fatal (msgImportWatch ctx) "FAIL") ;;
        warn (msgImportWatch ctx ++ nl)
    | Imported quasarConfigFn =>
        quasarConf <- computeConfig e ctx opts quasarConfigFn (isFirst s) ;;
        match quasarConf with
        | None => ret tt
        | Some c =>
            if isFirst s then
              modify (fun s => set_isFirst s false) ;;
              emit (FirstBuildIsDone c) ;;
              modify (fun s => set_inForce s (Some c))
            else
              log "Scheduled to apply quasar.config changes in 550ms" ;;
              emit (ScheduleApply c) ;;
              modify (fun s => set_inForce s (Some c))
        end
    end.

(** One rebuild of the esbuild watch context. *)
Definition cycle (e : env) (ctx : context) (opts : options) : M unit :=
  onStart ;; esBuild e ;; onEnd e ctx opts.

(** [watch ()] *)
Definition watch : M unit := modify (fun s => set_isWatching s true).

(** A fresh process. *)
Definition initial : state :=
  {| cachedExternalHost := None; addressRunning := false;
     address := None; isWatching := false; isFirst := true;
     tempFileOnDisk := false; inForce := None; trace := [] |}.

(* ===================================================================== *)
(** ** Sample collaborators *)
(* ===================================================================== *)

Definition emptyConf : conf :=
  {| devServer := {| ds_host := None; ds_port := None; ds_open := PUndefined |};
     css := []; boot := []; extras := []; animations := [];
     framework := {| fw_components := []; fw_directives := []; fw_plugins := [];
                     fw_loading := None; fw_notify := None |};
     build_publicPath := None;
     ssr := {| ssr_pwa := PUndefined; ssr_middlewares := [] |};
     pwa_workboxMode := None |}.

(** A cycle in which every collaborator answers as told. *)
Definition sampleEnv (errors : nat) (imp : imported) (extensionsRun : bool)
    (probe : probe_result) (filesOk : bool) : env :=
  {| compileErrors := errors;
     importResult := imp;
     merge_defaults := fun _ => emptyConf;
     extendQuasarConf := fun c => if extensionsRun then Some c else None;
     findClosestOpenPort := fun _ _ => probe;
     getExternalIP := "192.168.1.20";
     localHostList := ["0.0.0.0"; "localhost"; "127.0.0.1"; "::1"];
     appFilesValidations := filesOk |}.

Definition goodFactory : imported := Imported (Callable (Returns (JObject 1 []))).

Definition spaDev : context :=
  {| dev := true; ctx_modeName := Spa; tempFileBasename := "quasar.config.js.temporary.compiled.1.mjs" |}.

Definition spaProd : context :=
  {| dev := false; ctx_modeName := Spa; tempFileBasename := "quasar.config.js.temporary.compiled.1.mjs" |}.

Definition noCli (verify : bool) : options :=
  {| opt_host := None; opt_port := None; verifyAddress := verify |}.

(** A session whose first build went through and whose caller has issued
    [watch()]; the bundle of the current rebuild is on disk. *)
Definition watching : state :=
  {| cachedExternalHost := None; addressRunning := false;
     address := None; isWatching := true; isFirst := false;
     tempFileOnDisk := true; inForce := Some emptyConf; trace := [] |}.

(** The same session before [watch()] was issued. *)
Definition notYetWatching : state := set_isWatching watching false.

(** "Removing exact duplicates while preserving first-occurrence order":
    keep the head, drop its later copies, go on with the rest. *)
Fixpoint firstOccurrences (l : list prim) : list prim :=
  match l with
  | [] => []
  | x :: r => x :: filter (fun y => negb (strict_eq y x)) (firstOccurrences r)
  end.

(** The same on parsed assets, by their [path]. *)
Definition path_of (o : object) : prim := getProp o "path".

Fixpoint firstByPath (l : list object) : list object :=
  match l with
  | [] => []
  | x :: r =>
      x :: filter (fun y => negb (strict_eq (path_of y) (path_of x))) (firstByPath r)
  end.

(** The state a computation ends in, whatever its outcome. *)
Definition final {A} (o : outcome A) : state :=
  match o with
  | Ok _ s => s
  | Exited s => s
  | Threw s => s
  end.

(* ===================================================================== *)
(** ** Vocabulary of the statements *)
(* ===================================================================== *)

Unset Implicit Arguments.

(** [pushSpinner] seen from the set the components are put in. *)
Definition Set_add_spinner (section : option prim) (s : list prim) : list prim :=
  match section with
  | Some spinner => if quasarComponentRE_test spinner then Set_add s spinner else s
  | None => s
  end.

(** The path with its closing slash, the first thing [formatPublicPath]
    makes sure of. *)
Definition closed (p : string) : string := if endsWith p "/" then p else p ++ "/".

(** The events the part of [#computeConfig] after the shape checks can
    produce: tips, the negotiator's probes and reports, and warnings or
    fatal reports whose text does not start like the shape and runtime
    messages do. *)
Definition deriveEvent (ev : event) : bool :=
  match ev with
  | Tip _ | ConsoleLog | ConsoleError | GetExternalIP | Probe _ _ | ProcessExit _ => true
  | Warn m | Fatal m _ => negb (firstCharIs m "T")
  | _ => false
  end.

(** Everything but handing a configuration to the caller. *)
Definition notDelivery (ev : event) : bool :=
  match ev with
  | FirstBuildIsDone _ | ScheduleApply _ => false
  | _ => true
  end.

(** [s'] comes after [s]: the trace grew by events accepted by [ok], and
    the watcher's bookkeeping did not change. *)
Definition steady (ok : event -> bool) (s s' : state) : Prop :=
  (exists new, trace s' = (new ++ trace s)%list /\ forallb ok new = true)
  /\ inForce s' = inForce s
  /\ isFirst s' = isFirst s
  /\ isWatching s' = isWatching s.

(** The transient file is where it was. *)
Definition sameFile (s s' : state) : Prop := tempFileOnDisk s' = tempFileOnDisk s.

(** The negotiation cache and the negotiator's flag are where they were. *)
Definition sameAddress (s s' : state) : Prop := address s' = address s.
Definition sameRunning (s s' : state) : Prop := addressRunning s' = addressRunning s.

(** What [onAddress] reports when the probe fails with [err], latest first. *)
Definition networkReport (err : probe_result) : list event :=
  match err with
  | ERROR_NETWORK_PORT_NOT_AVAIL => [Warn ""; Warn msgPortNotAvail; Warn ""]
  | ERROR_NETWORK_ADDRESS_NOT_AVAIL => [Warn ""; Warn msgAddressNotAvail; Warn ""]
  | _ => [Warn ""; ConsoleError; Warn msgUnknownNetwork; Warn ""]
  end.

(** The state right after [fse.removeSync(this.#tempFile)]. *)
Definition afterRemove (s : state) : state :=
  push_event (set_tempFileOnDisk s false) RemoveTemp.

(** The pair the dev-server block asks for. *)
Definition requested (ctx : context) (opts : options) (cfg : conf) : addr :=
  {| addr_host := requestedHost opts cfg; addr_port := requestedPort ctx opts cfg |}.

(** The tip the dev-server block prints about the port, if any. *)
Definition portTip (opts : options) (cfg : conf) : list event :=
  if opt_truthy_num (opt_port opts) then [Tip tipCliPort]
  else if negb (opt_truthy_num (ds_port (devServer cfg))) then []
  else [Tip tipCfgPort].

(** The state with the events of [l] (latest first) added to its trace. *)
Definition pushAll (l : list event) (s : state) : state :=
  fold_right (fun ev st => push_event st ev) s l.

(** The configuration with the requested pair written into it. *)
Definition withRequested (ctx : context) (opts : options) (cfg : conf) : conf :=
  set_devServer cfg
    {| ds_host := Some (requestedHost opts cfg);
       ds_port := requestedPort ctx opts cfg;
       ds_open := ds_open (devServer cfg) |}.

(** The event is a call of [findClosestOpenPort]. *)
Definition isProbe (ev : event) : bool :=
  match ev with Probe _ _ => true | _ => false end.

(** [m] relates every start state to the state it ends in. *)
Definition holds {A} (R : state -> state -> Prop) (m : M A) : Prop :=
  forall s, R s (final (m s)).

(** The ways a cycle can fail that the watch loop tells apart. *)
Inductive failure : Type :=
| CompileError | NotAFunction | FactoryThrows | NotAnObject
| ExtensionError | ValidationError.

(** The text handed to [fatal] on the first build. *)
Definition fatalMsg (ctx : context) (f : failure) : string :=
  match f with
  | CompileError => msgCompile
  | NotAFunction => msgNotFunction
  | FactoryThrows => msgRuntime ctx
  | NotAnObject => msgNotObject
  | ExtensionError => msgExtension
  | ValidationError => msgValidation
  end.

(** The text handed to [warn] on a later build. *)
Definition warnMsg (ctx : context) (f : failure) : string :=
  match f with
  | CompileError => msgCompile ++ " Please fix them." ++ nl
  | NotAFunction => msgNotFunction ++ " Please fix it." ++ nl
  | FactoryThrows => msgRuntime ctx ++ " Please fix the errors in the original file." ++ nl
  | NotAnObject => msgNotObject ++ " Please fix it." ++ nl
  | ExtensionError => msgExtension ++ "." ++ nl
  | ValidationError => msgValidation ++ ". Please fix the issues." ++ nl
  end.

(** The cycle run by [e] from [s] fails with [f]: what the collaborators
    answer, stage by stage, up to the one that fails. *)
Definition cycleFailure (e : env) (ctx : context) (opts : options) (s : state)
    (f : failure) : Prop :=
  match f with
  | CompileError => compileErrors e <> 0%nat
  | NotAFunction =>
      compileErrors e = 0%nat /\ exists v, importResult e = Imported (NotCallable v)
  | FactoryThrows =>
      compileErrors e = 0%nat /\ importResult e = Imported (Callable Throws)
  | NotAnObject =>
      compileErrors e = 0%nat
      /\ exists v, importResult e = Imported (Callable (Returns v))
                   /\ Object_is_self v = false
  | ExtensionError =>
      compileErrors e = 0%nat
      /\ exists v, importResult e = Imported (Callable (Returns v))
                   /\ Object_is_self v = true
                   /\ extendQuasarConf e (merge_defaults e v) = None
  | ValidationError =>
      compileErrors e = 0%nat
      /\ exists v raw cfg s2,
           importResult e = Imported (Callable (Returns v))
           /\ Object_is_self v = true
           /\ extendQuasarConf e (merge_defaults e v) = Some raw
           /\ devServerStage e ctx opts (isFirst s) (withSsrDefaults ctx raw) (afterRemove s)
              = Ok (Some cfg) s2
           /\ appFilesValidations e = false
  end.

(** The compiled module throws when it is imported, or the factory throws
    when it is called. *)
Definition runtimeError (e : env) : bool :=
  (compileErrors e =? 0)%nat
  && match importResult e with
     | ImportThrows => true
     | Imported (Callable Throws) => true
     | _ => false
     end.

(** The state [onEnd] finds: [onStart] has logged, esbuild has written the
    bundle if the compile was clean. *)
Definition built (e : env) (s : state) : state :=
  let s1 := if negb (isFirst s)
            then push_event
                   (push_event
                      (push_event s (Log ""))
                      (Log "The quasar.config file (or its dependencies) changed. Reading it again..."))
                   UpdateAppPackageJson
            else s in
  if (compileErrors e =? 0)%nat then set_tempFileOnDisk s1 true else s1.

(** What [#computeConfig] does when it rejects the value as not an
    object: the temp file goes, then the fatal report and exit, or the
    warning and no configuration. *)
Definition rejectedNotObject (failOnError : bool) (s : state) : outcome (option conf) :=
  if failOnError
  then Exited (push_event (push_event (afterRemove s) (Fatal msgNotObject "FAIL"))
                 (ProcessExit 1))
  else Ok None (push_event (afterRemove s) (Warn (msgNotObject ++ " Please fix it." ++ nl))).

(* ===================================================================== *)
(** ** The rest of the file *)
(* ===================================================================== *)

From Stdlib Require DecimalZ DecimalPos.

(** [str.replace(/[...]/g, '')]: the string without the characters of the
    class. *)
Fixpoint removeChars (inClass : ascii -> bool) (s : string) : string :=
  match s with
  | EmptyString => EmptyString
  | String c r =>
      if inClass c then removeChars inClass r else String c (removeChars inClass r)
  end.

(** The class [[<>]]. *)
Definition isAngle (c : ascii) : bool := (c =? "<")%char || (c =? ">")%char.

(** The class of the double quote. *)
Definition isDoubleQuote (c : ascii) : bool := (c =? ascii_of_nat 34)%char.

(** [function escapeHTMLTagContent (str)]; [None] is undefined. *)
Definition escapeHTMLTagContent (str : option string) : string :=
  if opt_truthy_str str then removeChars isAngle (str_of str) else "".

(** [function escapeHTMLAttribute (str)] *)
Definition escapeHTMLAttribute (str : option string) : string :=
  if opt_truthy_str str then removeChars isDoubleQuote (str_of str) else "".

(** The characters of a string, first to last. *)
Fixpoint chars (s : string) : list ascii :=
  match s with
  | EmptyString => []
  | String c r => c :: chars r
  end.

(** The constructor's [quasarConfigFileExtension]:
    [format === 'esm' ? 'mjs' : format]. *)
Definition quasarConfigFileExtension (quasarConfigOutputFormat : string) : string :=
  if (quasarConfigOutputFormat =? "esm")%string then "mjs" else quasarConfigOutputFormat.

(** The constructor's [this.#tempFile], [now] being [Date.now()]. *)
Definition tempFileName (quasarConfigFilename quasarConfigOutputFormat : string)
    (now : Z) : string :=
  quasarConfigFilename ++ ".temporary.compiled." ++ toString (PNum now) ++ "."
    ++ quasarConfigFileExtension quasarConfigOutputFormat.

(** The first entry of [resolveExtensions] in [#createEsbuildConfig]. *)
Definition firstResolveExtension (quasarConfigOutputFormat : string) : string :=
  if (quasarConfigOutputFormat =? "esm")%string then ".mjs" else ".cjs".

(** The test that opens [onAddress]: a device mode asked for no host or
    for a local one. *)
Definition needsExternalHost (e : env) (host : string) (mode : modeName) : bool :=
  includes_mode [Cordova; Capacitor] mode
  && (negb (str_truthy host) || includes_str (localHostList e) (toLowerCase host)).

(** The warnings of [onAddress] about a port that is not the requested
    one, latest first. *)
Definition portChanged (openPort : Z) : list event :=
  [Warn "";
   Warn ("Setting port to closest one available: " ++ toString (PNum openPort));
   Warn ""].

(** A list field after [#computeConfig] has parsed it: objects only, each
    with a path that is not empty, no path twice. *)
Definition parsedAssets (l : list asset) : Prop :=
  exists out,
    l = map AssetObj out
    /\ Forall (fun o => truthy (path_of o) = true) out
    /\ NoDup (map path_of out).

(** Where a computation may end when it is told to fail on error or not:
    with a configuration, with none (only when it is not to fail), with
    the process gone; never with an exception. *)
Definition settled {A} (failOnError : bool) (o : outcome (option A)) : Prop :=
  match o with
  | Ok (Some _) _ => True
  | Ok None _ => failOnError = false
  | Exited _ => True
  | Threw _ => False
  end.

(** The dev-server block negotiates: development, not bex, and
    [verifyAddress] on. *)
Definition negotiates (ctx : context) (opts : options) : bool :=
  dev ctx && negb (mode_bex ctx) && verifyAddress opts.

(** A merged configuration with repetitions in its lists. *)
Definition sampleConf : conf :=
  {| devServer := {| ds_host := None; ds_port := None; ds_open := PUndefined |};
     css := [AssetPrim (PStr "app.scss"); AssetPrim (PStr "~quasar/dist/x.css");
             AssetPrim (PStr "app.scss")];
     boot := [AssetPrim (PStr "axios");
              AssetObj [("path", PStr "axios"); ("server", PBool false)];
              AssetPrim (PStr "")];
     extras := [PStr "roboto-font"; PStr "material-icons"; PStr "roboto-font"];
     animations := [];
     framework := {| fw_components := []; fw_directives := [];
                     fw_plugins := [PStr "Notify"; PStr "Notify"];
                     fw_loading := None; fw_notify := Some (PStr "QSpinnerGears") |};
     build_publicPath := Some "app";
     ssr := {| ssr_pwa := PUndefined; ssr_middlewares := [] |};
     pwa_workboxMode := None |}.

(** The collaborators of [sampleEnv], the merge giving [sampleConf]. *)
Definition sampleConfEnv : env :=
  {| compileErrors := 0;
     importResult := goodFactory;
     merge_defaults := fun _ => sampleConf;
     extendQuasarConf := fun c => Some c;
     findClosestOpenPort := fun _ _ => OpenPort 9200;
     getExternalIP := "192.168.1.20";
     localHostList := ["0.0.0.0"; "localhost"; "127.0.0.1"; "::1"];
     appFilesValidations := true |}.

Definition pwaDev : context :=
  {| dev := true; ctx_modeName := Pwa; tempFileBasename := "quasar.config.js.temporary.compiled.1.mjs" |}.

(** [merge({ open: true }, cfg.devServer, to)] seen from [open] alone. *)
Definition openDefault (v : prim) : prim :=
  match v with PUndefined => PBool true | _ => v end.

(** What [metaConf.openBrowser] is set to near the end of
    [#computeConfig], from [cfg.devServer.open] as the dev-server block left
    it (the field itself is deleted right after); [PUndefined]: it is not
    set. *)
Definition metaConf_openBrowser (ctx : context) (isMinimalTerminal : bool)
    (open : prim) : prim :=
  if dev ctx
  then if includes_mode [Cordova; Capacitor; Electron] (ctx_modeName ctx)
       then PUndefined
       else if truthy open
            then (if negb isMinimalTerminal then open else PBool false)
            else PUndefined
  else PUndefined.

(** The dev-server block is entered. *)
Definition devServerOn (ctx : context) : bool := dev ctx && negb (mode_bex ctx).

(** The configuration a run returned, when it returned one. *)
Definition returned (o : outcome (option conf)) : conf :=
  match o with Ok (Some c) _ => c | _ => emptyConf end.

(** Two runs of [#computeConfig] in one dev session: the first build, then
    a rebuild that asks for the same address. *)
Definition firstRun : outcome (option conf) :=
  computeConfig sampleConfEnv pwaDev (noCli true)
    (Callable (Returns (JObject 1 []))) true initial.

Definition secondRun : outcome (option conf) :=
  computeConfig sampleConfEnv pwaDev (noCli true)
    (Callable (Returns (JObject 1 []))) false (final firstRun).

(** How a step that may give no configuration ends in good order: with a
    configuration; with none, after a warning, when failures are
    tolerated; with exit code 1, after the fatal report when failures are
    not tolerated, or by the negotiator when the dev server has never
    run. None of the steps kept here raises. *)
Definition orderly (failOnError negotiating running : bool)
    (o : outcome (option conf)) : Prop :=
  match o with
  | Ok (Some _) _ => True
  | Ok None s' => failOnError = false /\ exists m rest, trace s' = Warn m :: rest
  | Exited s' =>
      exists rest,
        trace s' = ProcessExit 1 :: rest
        /\ ((failOnError = true /\ exists m rest', rest = Fatal m "FAIL" :: rest')
            \/ (negotiating = true /\ running = false))
  | Threw _ => False
  end.

(** The negotiator's flag, once up, stays up. *)
Definition runningKept (s s' : state) : Prop :=
  addressRunning s = true -> addressRunning s' = true.

(** What happens to a watch session after [#buildAndWatch] has set it up:
    esbuild rebuilds (each time with whatever the collaborators answer
    then), and the caller may issue [watch()]. *)
Inductive action : Type :=
| Rebuild (e : env)
| WatchCall.

Fixpoint session (ctx : context) (opts : options) (l : list action) : M unit :=
  match l with
  | [] => ret tt
  | Rebuild e :: l' => cycle e ctx opts ;; session ctx opts l'
  | WatchCall :: l' => watch ;; session ctx opts l'
  end.

(** The configurations handed to the caller so far, latest first. *)
Definition deliveries (t : list event) : list event :=
  filter (fun ev => negb (notDelivery ev)) t.

(** A delivery history (latest first) and the configuration it leaves in
    force: nothing delivered and nothing in force; or the first build's
    configuration, followed by any number handed to the apply callback. *)
Inductive delivered : list event -> option conf -> Prop :=
| delivered_none : delivered [] None
| delivered_first (c : conf) : delivered [FirstBuildIsDone c] (Some c)
| delivered_apply (c c0 : conf) (d : list event) :
    delivered d (Some c0) -> delivered (ScheduleApply c :: d) (Some c).

(** How [onEnd] leaves the state when [#computeConfig] gave [c] and
    ended in [s1]. *)
Definition handedOver (first : bool) (c : conf) (s1 : state) : state :=
  if first
  then set_inForce (push_event (set_isFirst s1 false) (FirstBuildIsDone c)) (Some c)
  else set_inForce
         (push_event
            (push_event s1 (Log "Scheduled to apply quasar.config changes in 550ms"))
            (ScheduleApply c))
         (Some c).

(** A rebuild whose configuration asks for port 7000 and finds no port
    open. *)
Definition busyPortEnv : env :=
  {| compileErrors := 0;
     importResult := goodFactory;
     merge_defaults := fun _ =>
       set_devServer emptyConf
         {| ds_host := None; ds_port := Some 7000; ds_open := PUndefined |};
     extendQuasarConf := fun c => Some c;
     findClosestOpenPort := fun _ _ => ERROR_NETWORK_PORT_NOT_AVAIL;
     getExternalIP := "192.168.1.20";
     localHostList := ["0.0.0.0"; "localhost"; "127.0.0.1"; "::1"];
     appFilesValidations := true |}.

(** A session: the first build, a rebuild before [watch()], [watch()], a
    rebuild whose factory throws, one that finds no port, a good one. *)
Definition sessionActions : list action :=
  [Rebuild (sampleEnv 0 goodFactory true (OpenPort 9000) true);
   Rebuild sampleConfEnv;
   WatchCall;
   Rebuild (sampleEnv 0 (Imported (Callable Throws)) true (OpenPort 9000) true);
   Rebuild busyPortEnv;
   Rebuild sampleConfEnv].

(* ===================================================================== *)
(** ** Regular expressions, as [String.prototype.match] runs them *)
(* ===================================================================== *)

(** The patterns [formatRouterBase] needs: literals, classes, sequence,
    alternative, the greedy star, capturing groups and the two anchors.
    [x?] and [x{0,1}] are [Alt x Eps], [x+] is [Seq x (Star x)], and a
    group [(?:x)] that does not capture is [x] itself. *)
Inductive re : Type :=
| Eps
| Chr (a : ascii)
| OneOf (l : string)
| NoneOf (l : string)
| Digit
| Dot
| Seq (a b : re)
| Alt (a b : re)
| Star (a : re)
| Group (i : nat) (a : re)
| Bol
| Eol.

Definition Opt (a : re) : re := Alt a Eps.
Definition Plus (a : re) : re := Seq a (Star a).

Fixpoint Lit (s : string) : re :=
  match s with
  | EmptyString => Eps
  | String c r => Seq (Chr c) (Lit r)
  end.

Fixpoint charIn (c : ascii) (l : string) : bool :=
  match l with
  | EmptyString => false
  | String d r => (c =? d)%char || charIn c r
  end.

Definition isDigit (c : ascii) : bool :=
  let n := nat_of_ascii c in ((48 <=? n) && (n <=? 57))%nat.

(** [.] matches anything but a line terminator. *)
Definition isLineTerminator (c : ascii) : bool :=
  let n := nat_of_ascii c in ((n =? 10) || (n =? 13))%nat.

(** The captures recorded so far, latest first. *)
Definition captures : Type := list (nat * string).

Fixpoint capture (c : captures) (i : nat) : option string :=
  match c with
  | [] => None
  | (j, s) :: r => if (j =? i)%nat then Some s else capture r i
  end.

(** The first [n] characters of [s]. *)
Fixpoint take (n : nat) (s : string) : string :=
  match n, s with
  | S n', String c r => String c (take n' r)
  | _, _ => EmptyString
  end.

(** A matcher takes the continuation, the index reached, what is left of
    the input and the captures. *)
Definition continuation : Type := nat -> string -> captures -> option captures.

Definition oneChar (P : ascii -> bool) (k : continuation) : continuation :=
  fun pos s c =>
    match s with
    | String x s' => if P x then k (S pos) s' c else None
    | EmptyString => None
    end.

(** The star: one more round of the body, which has to consume
    something, before giving the continuation its turn. *)
Fixpoint repeatMatcher (body : continuation -> continuation) (k : continuation)
    (fuel : nat) : continuation :=
  fun pos s c =>
    match fuel with
    | O => k pos s c
    | S fuel' =>
        match body (fun pos' s' c' =>
                      if (pos' =? pos)%nat then None
                      else repeatMatcher body k fuel' pos' s' c') pos s c with
        | Some r => Some r
        | None => k pos s c
        end
    end.

(** The backtracking matcher: alternatives left to right, the star
    greedy. *)
Fixpoint matcher (r : re) (k : continuation) {struct r} : continuation :=
  match r with
  | Eps => k
  | Chr a => oneChar (Ascii.eqb a) k
  | OneOf l => oneChar (fun x => charIn x l) k
  | NoneOf l => oneChar (fun x => negb (charIn x l)) k
  | Digit => oneChar isDigit k
  | Dot => oneChar (fun x => negb (isLineTerminator x)) k
  | Seq a b => matcher a (matcher b k)
  | Alt a b =>
      fun pos s c =>
        match matcher a k pos s c with
        | Some r => Some r
        | None => matcher b k pos s c
        end
  | Star a => fun pos s c => repeatMatcher (matcher a) k (S (String.length s)) pos s c
  | Group i a =>
      fun pos s c =>
        matcher a (fun pos' s' c' => k pos' s' ((i, take (pos' - pos)%nat s) :: c')) pos s c
  | Bol => fun pos s c => if (pos =? 0)%nat then k pos s c else None
  | Eol => fun pos s c => match s with EmptyString => k pos s c | _ => None end
  end.

(** [RegExp.prototype.exec] without the [g] flag: the first index at which
    the pattern matches. *)
Fixpoint exec_from (r : re) (pos : nat) (s : string) : option captures :=
  match matcher r (fun pos' _ c => Some ((0%nat, take (pos' - pos)%nat s) :: c)) pos s [] with
  | Some c => Some c
  | None =>
      match s with
      | EmptyString => None
      | String _ s' => exec_from r (S pos) s'
      end
  end.

(** [str.match(regex)]; [None] is null. *)
Definition String_match (s : string) (r : re) : option captures := exec_from r 0 s.

(** The pattern of [formatRouterBase], here with blanks between its
    parts:
    [^ (https?\:) \/\/ ( ([^:\/?#]* ) (?: \: ([0-9]+) )? )
       ( [\/]{0,1} [^?#]* ) ( \?[^#]* | ) ( #.* | ) $] *)
Definition reScheme : re := Group 1 (Seq (Lit "http") (Seq (Opt (Chr "s")) (Chr ":"))).
Definition rePort : re := Opt (Seq (Chr ":") (Group 4 (Plus Digit))).
Definition reAuthority : re := Group 2 (Seq (Group 3 (Star (NoneOf ":/?#"))) rePort).
Definition rePath : re := Group 5 (Seq (Opt (OneOf "/")) (Star (NoneOf "?#"))).
Definition reQuery : re := Group 6 (Alt (Seq (Chr "?") (Star (NoneOf "#"))) Eps).
Definition reFragment : re := Group 7 (Alt (Seq (Chr "#") (Star Dot)) Eps).

Definition routerBaseRE : re :=
  Seq Bol
    (Seq reScheme
       (Seq (Chr "/")
          (Seq (Chr "/")
             (Seq reAuthority (Seq rePath (Seq reQuery (Seq reFragment Eol))))))).

(** [function formatRouterBase (publicPath)], on the string
    [#computeConfig] has just assigned to [build.publicPath]. [None]: the
    pattern does not match, and reading [match[ 5 ]] of null raises a
    TypeError. *)
Definition formatRouterBase (publicPath : string) : option string :=
  if negb (str_truthy publicPath) || negb (startsWith publicPath "http")
  then Some publicPath
  else match String_match publicPath routerBaseRE with
       | None => None
       | Some m =>
           Some (formatPublicPath
                   (Some (match capture m 5 with
                          | Some g => if str_truthy g then g else ""
                          | None => ""
                          end)))
       end.

(** The expression assigned to [cfg.build.vueRouterBase] in
    [#computeConfig]: the user's value unless it is undefined. [None]:
    [formatRouterBase] raised. *)
Definition build_vueRouterBase_of (vueRouterBase : prim) (publicPath : string)
  : option prim :=
  match vueRouterBase with
  | PUndefined => option_map PStr (formatRouterBase publicPath)
  | b => Some b
  end.

(** *** What the pattern does, read off directly *)

Definition notIn (l : string) (x : ascii) : bool := negb (charIn x l).
Definition notLineTerminator (x : ascii) : bool := negb (isLineTerminator x).

(** The longest prefix of characters in a class, and what follows it. *)
Fixpoint takeWhile (P : ascii -> bool) (s : string) : string :=
  match s with
  | String x r => if P x then String x (takeWhile P r) else EmptyString
  | EmptyString => EmptyString
  end.

Fixpoint skipWhile (P : ascii -> bool) (s : string) : string :=
  match s with
  | String x r => if P x then skipWhile P r else s
  | EmptyString => EmptyString
  end.

Fixpoint allChars (P : ascii -> bool) (s : string) : bool :=
  match s with
  | String x r => P x && allChars P r
  | EmptyString => true
  end.

(** A star over a class: the longest run first, then shorter ones. *)
Fixpoint greedy (P : ascii -> bool) (k : continuation) (pos : nat) (s : string)
    (c : captures) : option captures :=
  match s with
  | String x r =>
      if P x
      then match greedy P k (S pos) r c with
           | Some m => Some m
           | None => k pos s c
           end
      else k pos s c
  | EmptyString => k pos s c
  end.

(** [s] without the prefix [l], if it starts with it. *)
Fixpoint stripPrefix (l s : string) : option string :=
  match l with
  | EmptyString => Some s
  | String a l' =>
      match s with
      | String x s' => if (a =? x)%char then stripPrefix l' s' else None
      | EmptyString => None
      end
  end.

(** What follows [http://] or [https://], if the string starts so. *)
Definition schemeRest (p : string) : option string :=
  match stripPrefix "http://" p with
  | Some r => Some r
  | None => stripPrefix "https://" p
  end.

(** The fragment, when there is one, holds no line terminator. *)
Definition fragmentOk (s : string) : bool :=
  match s with
  | EmptyString => true
  | String x t => (x =? "#")%char && allChars notLineTerminator t
  end.

Definition queryOk (s : string) : bool :=
  match s with
  | EmptyString => true
  | String x t =>
      if (x =? "?")%char then fragmentOk (skipWhile (notIn "#") t) else fragmentOk s
  end.

Definition tailOk (s : string) : bool := queryOk (skipWhile (notIn "?#") s).

(** Past the port, when a colon and digits follow the host. *)
Definition afterPort (s : string) : string :=
  match s with
  | String x (String d t) =>
      if (x =? ":")%char && isDigit d then skipWhile isDigit t else s
  | _ => s
  end.

(** The path of the address: past the host and the port, up to the query
    or the fragment. *)
Definition routePath (rest : string) : string :=
  takeWhile (notIn "?#") (afterPort (skipWhile (notIn ":/?#") rest)).

(* ===================================================================== *)
(** * Properties *)
(* ===================================================================== *)


(** ** Strict equality and sets *)

Lemma strict_eq_spec (v w : prim) : strict_eq v w = true <-> v = w.
Proof.
  destruct v, w; simpl; split; intro H; try discriminate; try reflexivity.
  - apply Bool.eqb_prop in H. now subst.
  - inversion H. apply Bool.eqb_reflx.
  - apply Z.eqb_eq in H. now subst.
  - inversion H. apply Z.eqb_refl.
  - apply String.eqb_eq in H. now subst.
  - inversion H. apply String.eqb_refl.
Qed.

Lemma strict_eq_refl (v : prim) : strict_eq v v = true.
Proof. now apply strict_eq_spec. Qed.

Lemma strict_eq_sym (v w : prim) : strict_eq v w = strict_eq w v.
Proof.
  destruct (strict_eq v w) eqn:E.
  - apply strict_eq_spec in E. subst. symmetry. apply strict_eq_refl.
  - destruct (strict_eq w v) eqn:E'; [|reflexivity].
    apply strict_eq_spec in E'. subst. now rewrite strict_eq_refl in E.
Qed.

Lemma strict_eq_false (v w : prim) : strict_eq v w = false <-> v <> w.
Proof.
  split.
  - intros H E. apply strict_eq_spec in E. congruence.
  - intro H. destruct (strict_eq v w) eqn:E; [|reflexivity].
    apply strict_eq_spec in E. contradiction.
Qed.

Lemma Set_has_In (s : list prim) (v : prim) : Set_has s v = true <-> In v s.
Proof.
  unfold Set_has. rewrite existsb_exists. split.
  - intros [x [Hx E]]. apply strict_eq_spec in E. now subst.
  - intro H. exists v. split; [assumption | apply strict_eq_refl].
Qed.

Lemma filter_filter {A} (f g : A -> bool) (l : list A) :
  filter f (filter g l) = filter (fun x => g x && f x) l.
Proof.
  induction l as [|x r IH]; simpl; [reflexivity|].
  destruct (g x); simpl; [destruct (f x)|]; now rewrite IH.
Qed.

(** The fold that builds the set, against the declarative reading. *)
Lemma Set_fold_firstOccurrences (l acc : list prim) :
  fold_left Set_add l acc
  = (acc ++ filter (fun y => negb (Set_has acc y)) (firstOccurrences l))%list.
Proof.
  revert acc. induction l as [|x r IH]; intro acc; simpl.
  - now rewrite app_nil_r.
  - rewrite IH. unfold Set_add. destruct (Set_has acc x) eqn:Hx; simpl.
    + f_equal. rewrite filter_filter. apply filter_ext. intro y.
      destruct (strict_eq y x) eqn:E; simpl; [|reflexivity].
      apply strict_eq_spec in E. subst. now rewrite Hx.
    + rewrite <- app_assoc. simpl. do 2 f_equal.
      rewrite filter_filter. apply filter_ext. intro y.
      unfold Set_has. rewrite existsb_app. simpl.
      rewrite orb_false_r, negb_orb, andb_comm. reflexivity.
Qed.

Lemma getUniqueArray_firstOccurrences (l : list prim) :
  getUniqueArray l = firstOccurrences l.
Proof.
  unfold getUniqueArray, Set_new. rewrite Set_fold_firstOccurrences. simpl.
  induction (firstOccurrences l) as [|x r IH]; simpl; [reflexivity|now rewrite IH].
Qed.

Lemma firstOccurrences_In (l : list prim) (x : prim) :
  In x (firstOccurrences l) <-> In x l.
Proof.
  induction l as [|y r IH]; simpl; [tauto|].
  rewrite filter_In, IH. split.
  - intros [H | [H _]]; auto.
  - intros [H | H]; auto.
    destruct (strict_eq x y) eqn:E.
    + apply strict_eq_spec in E. auto.
    + right. split; [assumption | reflexivity].
Qed.

Lemma firstOccurrences_NoDup (l : list prim) : NoDup (firstOccurrences l).
Proof.
  induction l as [|y r IH]; simpl; constructor.
  - rewrite filter_In. intros [_ H]. cbv beta in H. now rewrite strict_eq_refl in H.
  - now apply NoDup_filter.
Qed.

Lemma firstOccurrences_fixed (l : list prim) :
  NoDup l -> firstOccurrences l = l.
Proof.
  induction 1 as [|x r Hx Hr IH]; simpl; [reflexivity|].
  rewrite IH. f_equal.
  rewrite forallb_filter_id; [reflexivity|].
  apply forallb_forall. intros y Hy.
  apply negb_true_iff, strict_eq_false. intro E. subst. contradiction.
Qed.

Lemma uniqueField_getUniqueArray (l : list prim) : uniqueField l = getUniqueArray l.
Proof. destruct l; reflexivity. Qed.

Lemma getUniqueArray_snoc (l : list prim) (v : prim) :
  getUniqueArray (l ++ [v]) = Set_add (getUniqueArray l) v.
Proof. unfold getUniqueArray, Set_new. now rewrite fold_left_app. Qed.

Lemma getUniqueArray_pushSpinner (section : option prim) (l : list prim) :
  getUniqueArray (pushSpinner section l) = Set_add_spinner section (getUniqueArray l).
Proof.
  destruct section as [v|]; simpl; [|reflexivity].
  destruct (quasarComponentRE_test v); [apply getUniqueArray_snoc | reflexivity].
Qed.

Lemma Set_add_known_spinner (section : option prim) (s : list prim) :
  (forall v, section = Some v -> quasarComponentRE_test v = true -> In v s) ->
  Set_add_spinner section s = s.
Proof.
  intro H. destruct section as [v|]; simpl; [|reflexivity].
  destruct (quasarComponentRE_test v) eqn:E; [|reflexivity].
  unfold Set_add. now rewrite (proj2 (Set_has_In s v) (H v eq_refl E)).
Qed.



(** ** Asset declarations *)

Lemma indexOf_from_absent (l : list prim) (v : prim) (i : Z) :
  Set_has l v = false -> indexOf_from i l v = -1.
Proof.
  revert i. induction l as [|x r IH]; intros i H; simpl in *; [reflexivity|].
  apply orb_false_iff in H. destruct H as [Hx Hr].
  rewrite strict_eq_sym, Hx. now apply IH.
Qed.

Lemma indexOf_from_present (l : list prim) (v : prim) (i : Z) :
  Set_has l v = true ->
  i <= indexOf_from i l v < i + Z.of_nat (List.length l).
Proof.
  revert i. induction l as [|x r IH]; intros i H; simpl in H; [discriminate|].
  cbn [indexOf_from List.length]. rewrite strict_eq_sym.
  destruct (strict_eq v x); simpl in H.
  - lia.
  - specialize (IH (i + 1) H). lia.
Qed.

Lemma indexOf_from_app (l1 l2 : list prim) (v : prim) (i : Z) :
  Set_has l1 v = false ->
  indexOf_from i (l1 ++ l2) v = indexOf_from (i + Z.of_nat (List.length l1)) l2 v.
Proof.
  revert i. induction l1 as [|x r IH]; intros i H; simpl in *.
  - f_equal. lia.
  - apply orb_false_iff in H. destruct H as [Hx Hr].
    rewrite strict_eq_sym, Hx, (IH _ Hr). f_equal. lia.
Qed.

Lemma indexOf_from_app_present (l1 l2 : list prim) (v : prim) (i : Z) :
  Set_has l1 v = true ->
  indexOf_from i (l1 ++ l2) v = indexOf_from i l1 v.
Proof.
  revert i. induction l1 as [|x r IH]; intros i H; simpl in *; [discriminate|].
  rewrite strict_eq_sym. destruct (strict_eq v x); simpl in H; [reflexivity|].
  now apply IH.
Qed.

(** The index test of [uniquePathFilter] holds for an element exactly when
    no element before it has its path. *)
Lemma uniquePathFilter_first (pre : list object) (x : object) (r : list object) :
  uniquePathFilter x (Z.of_nat (List.length pre)) (pre ++ x :: r)
  = negb (Set_has (map path_of pre) (path_of x)).
Proof.
  unfold uniquePathFilter, indexOf. fold path_of. fold (path_of x).
  rewrite map_app.
  destruct (Set_has (map path_of pre) (path_of x)) eqn:E; simpl.
  - rewrite (indexOf_from_app_present _ _ _ _ E).
    pose proof (indexOf_from_present _ _ 0 E) as B. rewrite length_map in B.
    apply Z.eqb_neq. lia.
  - rewrite (indexOf_from_app _ _ _ _ E). simpl.
    rewrite strict_eq_refl, length_map. apply Z.eqb_eq. lia.
Qed.

Lemma filter_from_firstByPath (self pre l : list object) :
  self = (pre ++ l)%list ->
  filter_from (fun v i => uniquePathFilter v i self) (Z.of_nat (List.length pre)) l
  = filter (fun y => negb (Set_has (map path_of pre) (path_of y))) (firstByPath l).
Proof.
  revert pre. induction l as [|x r IH]; intros pre E; [reflexivity|].
  cbn [filter_from firstByPath filter].
  assert (E' : self = ((pre ++ [x]) ++ r)%list) by (now rewrite <- app_assoc).
  specialize (IH _ E').
  rewrite length_app, Nat2Z.inj_add in IH. simpl in IH.
  assert (Hrest :
    filter (fun y => negb (Set_has (map path_of (pre ++ [x])) (path_of y))) (firstByPath r)
    = filter (fun y => negb (Set_has (map path_of pre) (path_of y)))
        (filter (fun y => negb (strict_eq (path_of y) (path_of x))) (firstByPath r))).
  { rewrite filter_filter. apply filter_ext. intro y.
    unfold Set_has. rewrite map_app, existsb_app. simpl.
    rewrite orb_false_r, negb_orb, andb_comm. reflexivity. }
  rewrite E at 1. rewrite uniquePathFilter_first.
  destruct (Set_has (map path_of pre) (path_of x)); simpl;
    rewrite IH, Hrest; reflexivity.
Qed.

Lemma Array_filter_uniquePathFilter (l : list object) :
  Array_filter uniquePathFilter l = firstByPath l.
Proof.
  unfold Array_filter.
  change 0 with (Z.of_nat (List.length (@nil object))).
  rewrite (filter_from_firstByPath l [] l eq_refl).
  simpl. induction (firstByPath l) as [|x r IH]; simpl; [reflexivity|now rewrite IH].
Qed.

Lemma firstByPath_incl (l : list object) (o : object) :
  In o (firstByPath l) -> In o l.
Proof.
  revert o. induction l as [|x r IH]; intros o; simpl; [tauto|].
  rewrite filter_In. intros [H | [H _]]; auto.
Qed.

Lemma firstByPath_paths (l : list object) (v : prim) :
  In v (map path_of (firstByPath l)) <-> In v (map path_of l).
Proof.
  induction l as [|x r IH]; simpl; [tauto|].
  rewrite <- IH, !in_map_iff. split.
  - intros [H | [y [Hy Hin]]]; auto.
    apply filter_In in Hin. right. exists y. tauto.
  - intros [H | [y [Hy Hin]]]; auto.
    destruct (strict_eq (path_of y) (path_of x)) eqn:E.
    + apply strict_eq_spec in E. left. congruence.
    + right. exists y. split; [assumption|].
      apply filter_In. split; [assumption | now rewrite E].
Qed.

Lemma firstByPath_NoDup (l : list object) : NoDup (map path_of (firstByPath l)).
Proof.
  induction l as [|x r IH]; simpl; constructor.
  - rewrite in_map_iff. intros [y [Hy Hin]].
    apply filter_In in Hin. destruct Hin as [_ Hne].
    rewrite Hy, strict_eq_refl in Hne. discriminate.
  - induction (firstByPath r) as [|y t IHt]; simpl; [constructor|].
    inversion IH; subst.
    destruct (negb (strict_eq (path_of y) (path_of x))); simpl; auto.
    constructor; auto.
    rewrite in_map_iff. intros [z [Hz Hin]]. apply filter_In in Hin.
    apply H1. rewrite in_map_iff. exists z. tauto.
Qed.

Lemma Array_map_total {A B} (f : A -> option B) (l : list A) :
  (forall a, In a l -> f a <> None) ->
  exists out, Array_map f l = Some out
              /\ Forall2 (fun a o => f a = Some o) l out.
Proof.
  induction l as [|x r IH]; intro H; simpl.
  - exists []. split; [reflexivity | constructor].
  - destruct (f x) as [y|] eqn:E; [|exfalso; apply (H x); simpl; auto].
    destruct IH as [out [Hout HF]]; [intros a Ha; apply H; simpl; auto|].
    rewrite Hout. exists (y :: out). split; [reflexivity|]. now constructor.
Qed.

Lemma parseAssetProperty_truthy (prefix : string) (a : asset) :
  asset_truthy a = true -> parseAssetProperty prefix a <> None.
Proof. destruct a as [[| |b|n|s]|o]; simpl; intro H; discriminate. Qed.

Lemma getProp_setProp_same (o : object) (k : string) (v : prim) :
  getProp (setProp o k v) k = v.
Proof.
  induction o as [|[k' v'] r IH]; simpl.
  - now rewrite String.eqb_refl.
  - destruct (k' =? k)%string eqn:E; simpl; rewrite E; auto.
Qed.

Lemma getProp_setProp_other (o : object) (k k2 : string) (v : prim) :
  k2 <> k -> getProp (setProp o k v) k2 = getProp o k2.
Proof.
  intro H. induction o as [|[k' v'] r IH]; simpl.
  - destruct (k =? k2)%string eqn:E; [|reflexivity].
    apply String.eqb_eq in E. congruence.
  - destruct (k' =? k)%string eqn:E; simpl.
    + apply String.eqb_eq in E. subst.
      destruct (k =? k2)%string eqn:E2; [|reflexivity].
      apply String.eqb_eq in E2. congruence.
    + now rewrite IH.
Qed.

(** The shape of what [parseAssets] returns. *)
Lemma parseAssets_shape (prefix : string) (l : list asset) :
  exists parsed,
    Forall2 (fun a o => parseAssetProperty prefix a = Some o)
            (filter asset_truthy l) parsed
    /\ parseAssets prefix l
       = Some (firstByPath (filter (fun o => truthy (path_of o)) parsed)).
Proof.
  destruct (Array_map_total (parseAssetProperty prefix) (filter asset_truthy l))
    as [parsed [E HF]].
  - intros a Ha. apply filter_In in Ha. now apply parseAssetProperty_truthy.
  - exists parsed. split; [assumption|].
    unfold parseAssets. rewrite E, Array_filter_uniquePathFilter. reflexivity.
Qed.

Lemma Forall2_In_left {A B} (R : A -> B -> Prop) (l : list A) (l' : list B) (a : A) :
  Forall2 R l l' -> In a l -> exists b, In b l' /\ R a b.
Proof.
  induction 1 as [|x y r r' Hxy _ IH]; simpl; [tauto|].
  intros [E | H].
  - subst. exists y. auto.
  - destruct (IH H) as [b [Hb Rb]]. exists b. auto.
Qed.



(** ** Public path *)

Lemma endsWith_snoc (p s : string) : endsWith (p ++ s) s = true.
Proof.
  induction p as [|c r IH].
  - simpl. destruct s; simpl; [reflexivity|]. now rewrite Ascii.eqb_refl, String.eqb_refl.
  - cbn [append endsWith].
    destruct (String c (r ++ s) =? s)%string; [reflexivity|assumption].
Qed.

Lemma endsWith_cons (c : ascii) (r s : string) :
  endsWith r s = true -> endsWith (String c r) s = true.
Proof.
  intro H. cbn [endsWith]. destruct (String c r =? s)%string; [reflexivity|assumption].
Qed.

Lemma prefix_app (p a b : string) :
  String.prefix p a = true -> String.prefix p (a ++ b) = true.
Proof.
  revert a. induction p as [|c r IH]; intros a H;
    [destruct (a ++ b); reflexivity|].
  destruct a as [|d t]; simpl in *; [discriminate|].
  destruct (ascii_dec c d); [now apply IH | discriminate].
Qed.

Lemma toLowerCase_app (a b : string) :
  toLowerCase (a ++ b) = toLowerCase a ++ toLowerCase b.
Proof. induction a as [|c r IH]; simpl; [reflexivity | now rewrite IH]. Qed.

Lemma urlRegex_test_app (p s : string) :
  urlRegex_test p = true -> urlRegex_test (p ++ s) = true.
Proof.
  unfold urlRegex_test, startsWith. rewrite toLowerCase_app.
  intro H. apply orb_true_iff in H. apply orb_true_iff.
  destruct H as [H | H]; [left | right]; now apply prefix_app.
Qed.

Lemma closed_endsWith (p : string) : endsWith (closed p) "/" = true.
Proof.
  unfold closed. destruct (endsWith p "/") eqn:E; [assumption | apply endsWith_snoc].
Qed.

Lemma formatPublicPath_set (p : string) :
  p <> "" ->
  formatPublicPath (Some p)
  = if urlRegex_test (closed p) then closed p
    else if startsWith (closed p) "/" then closed p else "/" ++ closed p.
Proof.
  intro H. unfold formatPublicPath, closed.
  destruct (p =? "")%string eqn:E; [apply String.eqb_eq in E; contradiction|].
  destruct (endsWith p "/"); simpl;
    match goal with |- context [urlRegex_test ?x] => destruct (urlRegex_test x) end;
    try reflexivity;
    match goal with |- context [startsWith ?x ?y] => destruct (startsWith x y) end;
    reflexivity.
Qed.

(** C3, as the code has it. For spa, pwa and ssr a public path that is set
    comes out ending with a slash; one that is an http(s) URL is otherwise
    left as it is (so it passes through unchanged only when it already ends
    with a slash: https://cdn.example.com/app yields
    https://cdn.example.com/app/), any other also comes out starting with a
    slash (app yields /app/); with no public path those modes get a single
    slash; capacitor, cordova, electron and bex always get the empty
    string. *)
Theorem build_publicPath_normalized :
  (forall m p, includes_mode [Spa; Pwa; Ssr] m = true -> p <> "" ->
     endsWith (build_publicPath_of m (Some p)) "/" = true
     /\ (urlRegex_test p = true -> build_publicPath_of m (Some p) = closed p)
     /\ (urlRegex_test (closed p) = true -> build_publicPath_of m (Some p) = closed p)
     /\ (urlRegex_test (closed p) = false ->
           startsWith (build_publicPath_of m (Some p)) "/" = true
           /\ build_publicPath_of m (Some p)
              = if startsWith (closed p) "/" then closed p else "/" ++ closed p))
  /\ (forall m, includes_mode [Spa; Pwa; Ssr] m = true ->
        build_publicPath_of m None = "/" /\ build_publicPath_of m (Some "") = "/")
  /\ (forall m p, includes_mode [Capacitor; Cordova; Electron; Bex] m = true ->
        build_publicPath_of m p = "")
  /\ build_publicPath_of Spa (Some "app") = "/app/"
  /\ build_publicPath_of Spa (Some "https://cdn.example.com/app/")
     = "https://cdn.example.com/app/"
  /\ build_publicPath_of Spa (Some "https://cdn.example.com/app")
     = "https://cdn.example.com/app/".
Proof.
  split; [|split; [|split; [|repeat split]]].
  - intros m p Hm Hp.
    assert (E : build_publicPath_of m (Some p) = formatPublicPath (Some p)).
    { unfold build_publicPath_of. rewrite Hm.
      destruct (p =? "")%string eqn:E; [apply String.eqb_eq in E; contradiction|].
      reflexivity. }
    rewrite E, (formatPublicPath_set p Hp).
    pose proof (closed_endsWith p) as Hc.
    assert (Hurl : urlRegex_test p = true -> urlRegex_test (closed p) = true).
    { intro H. unfold closed. destruct (endsWith p "/"); [assumption|].
      now apply urlRegex_test_app. }
    repeat split.
    + destruct (urlRegex_test (closed p)); [assumption|].
      destruct (startsWith (closed p) "/"); [assumption|].
      now apply endsWith_cons.
    + intro H. now rewrite (Hurl H).
    + intro H. now rewrite H.
    + rewrite H. destruct (startsWith (closed p) "/") eqn:S; [assumption|].
      unfold startsWith. simpl. destruct (closed p); reflexivity.
    + now rewrite H.
  - intros m Hm. unfold build_publicPath_of. simpl.
    destruct m; simpl in *; try discriminate; auto.
  - intros m p Hm. unfold build_publicPath_of.
    destruct m; simpl in *; try discriminate; rewrite andb_false_r; reflexivity.
Qed.

Lemma build_publicPath_normalized_witness :
  endsWith (build_publicPath_of Pwa (Some "app")) "/" = true
  /\ build_publicPath_of Ssr None = "/"
  /\ build_publicPath_of Electron (Some "app") = "".
Proof.
  split; [|split].
  - assert (Hm : includes_mode [Spa; Pwa; Ssr] Pwa = true) by reflexivity.
    assert (Hp : "app" <> "") by discriminate.
    exact (proj1 (proj1 build_publicPath_normalized Pwa "app" Hm Hp)).
  - apply (proj1 (proj2 build_publicPath_normalized) Ssr). reflexivity.
  - apply (proj1 (proj2 (proj2 build_publicPath_normalized)) Electron (Some "app")).
    reflexivity.
Defined.

(** C3 as stated fails: the absolute URL of the example does not come out
    as it went in, a slash is appended. *)
Lemma build_publicPath_url_not_unchanged :
  urlRegex_test "https://cdn.example.com/app" = true
  /\ build_publicPath_of Spa (Some "https://cdn.example.com/app")
     <> "https://cdn.example.com/app".
Proof. split; [reflexivity | discriminate]. Qed.

(** ** Dev-server host and port *)

Lemma modeName_eqb_eq (a b : modeName) : modeName_eqb a b = true <-> a = b.
Proof. destruct a, b; simpl; split; intro H; try discriminate; reflexivity. Qed.

Lemma optZ_eqb_eq (a b : option Z) : optZ_eqb a b = true <-> a = b.
Proof.
  destruct a, b; simpl; split; intro H; try discriminate; try reflexivity.
  - apply Z.eqb_eq in H. now subst.
  - inversion H. apply Z.eqb_refl.
Qed.

Lemma addr_eqb_eq (a b : addr) : addr_eqb a b = true <-> a = b.
Proof.
  destruct a as [h p], b as [h' p']. unfold addr_eqb. simpl.
  rewrite andb_true_iff, String.eqb_eq, optZ_eqb_eq.
  split; [intros [-> ->]; reflexivity | intro H; inversion H; auto].
Qed.

Lemma str_truthy_true (s : string) : str_truthy s = true <-> s <> "".
Proof.
  unfold str_truthy. rewrite negb_true_iff. split.
  - intros H E. subst. discriminate.
  - intro H. destruct (s =? "")%string eqn:E; [|reflexivity].
    apply String.eqb_eq in E. contradiction.
Qed.

Lemma num_truthy_true (n : Z) : negb (n =? 0) = true <-> n <> 0.
Proof. rewrite negb_true_iff. apply Z.eqb_neq. Qed.

(** The stage with negotiation switched off and nothing cached: the
    requested pair goes into the configuration as it is. *)
Lemma devServerStage_unverified (e : env) (ctx : context) (opts : options)
    (f : bool) (cfg : conf) (s : state) :
  dev ctx = true -> ctx_modeName ctx <> Bex ->
  verifyAddress opts = false -> address s = None ->
  exists s' cfg',
    devServerStage e ctx opts f cfg s = Ok (Some cfg') s'
    /\ ds_host (devServer cfg') = Some (requestedHost opts cfg)
    /\ ds_port (devServer cfg') = requestedPort ctx opts cfg.
Proof.
  intros Hdev Hbex Hver Haddr.
  assert (Hb : mode_bex ctx = false).
  { unfold mode_bex. destruct (modeName_eqb (ctx_modeName ctx) Bex) eqn:E; [|reflexivity].
    apply modeName_eqb_eq in E. contradiction. }
  unfold devServerStage, negotiate. rewrite Hdev, Hb, Hver. simpl.
  unfold bind, get, modify, ret, tip, emit, cachedTo.
  destruct (opt_truthy_num (opt_port opts));
    [|destruct (negb (opt_truthy_num (ds_port (devServer cfg))))];
    simpl; rewrite Haddr; simpl;
    (do 2 eexists; split; [reflexivity|]; simpl; split; [reflexivity|]);
    destruct (requestedPort ctx opts cfg); reflexivity.
Qed.

(** C6. The dev-server host and port are touched only in development mode
    and outside bex; there the host is the CLI one, else the configured
    one, else 0.0.0.0, and the port is the CLI one, else the configured
    one, else the mode's entry of the default table (spa 9000, ssr 9100,
    pwa 9200, electron 9300, cordova 9400, capacitor 9500) plus 50 exactly
    when the mode is ssr and ssr.pwa is true. *)
Theorem devServer_request_defaults :
  (forall e ctx opts f cfg s,
      dev ctx = false \/ ctx_modeName ctx = Bex ->
      devServerStage e ctx opts f cfg s = Ok (Some cfg) s)
  /\ (forall opts cfg h, opt_host opts = Some h -> h <> "" ->
        requestedHost opts cfg = h)
  /\ (forall opts cfg h, opt_truthy_str (opt_host opts) = false ->
        ds_host (devServer cfg) = Some h -> h <> "" ->
        requestedHost opts cfg = h)
  /\ (forall opts cfg, opt_truthy_str (opt_host opts) = false ->
        opt_truthy_str (ds_host (devServer cfg)) = false ->
        requestedHost opts cfg = "0.0.0.0")
  /\ (forall ctx opts cfg p, opt_port opts = Some p -> p <> 0 ->
        requestedPort ctx opts cfg = Some p)
  /\ (forall ctx opts cfg p, opt_truthy_num (opt_port opts) = false ->
        ds_port (devServer cfg) = Some p -> p <> 0 ->
        requestedPort ctx opts cfg = Some p)
  /\ (forall ctx opts cfg, opt_truthy_num (opt_port opts) = false ->
        opt_truthy_num (ds_port (devServer cfg)) = false ->
        requestedPort ctx opts cfg
        = option_map
            (fun base => base + (if modeName_eqb (ctx_modeName ctx) Ssr
                                    && strict_eq (ssr_pwa (ssr cfg)) (PBool true)
                                 then 50 else 0))
            (defaultPortMapping (ctx_modeName ctx)))
  /\ (defaultPortMapping Spa = Some 9000 /\ defaultPortMapping Ssr = Some 9100
      /\ defaultPortMapping Pwa = Some 9200 /\ defaultPortMapping Electron = Some 9300
      /\ defaultPortMapping Cordova = Some 9400
      /\ defaultPortMapping Capacitor = Some 9500)
  /\ (forall e ctx opts f cfg s,
        dev ctx = true -> ctx_modeName ctx <> Bex ->
        verifyAddress opts = false -> address s = None ->
        exists s' cfg',
          devServerStage e ctx opts f cfg s = Ok (Some cfg') s'
          /\ ds_host (devServer cfg') = Some (requestedHost opts cfg)
          /\ ds_port (devServer cfg') = requestedPort ctx opts cfg).
Proof.
  split; [|split; [|split; [|split; [|split; [|split; [|split; [|split]]]]]]].
  - intros e ctx opts f cfg s [H | H]; unfold devServerStage, mode_bex; rewrite H.
    + reflexivity.
    + simpl. rewrite andb_false_r. reflexivity.
  - intros opts cfg h Ho Hh. unfold requestedHost. rewrite Ho. simpl.
    now rewrite (proj2 (str_truthy_true h) Hh).
  - intros opts cfg h Ho Hc Hh. unfold requestedHost. rewrite Ho, Hc. simpl.
    now rewrite (proj2 (str_truthy_true h) Hh).
  - intros opts cfg Ho Hc. unfold requestedHost. now rewrite Ho, Hc.
  - intros ctx opts cfg p Ho Hp. unfold requestedPort. rewrite Ho. simpl.
    now rewrite (proj2 (num_truthy_true p) Hp).
  - intros ctx opts cfg p Ho Hc Hp. unfold requestedPort. rewrite Ho, Hc. simpl.
    now rewrite (proj2 (num_truthy_true p) Hp).
  - intros ctx opts cfg Ho Hc. unfold requestedPort. rewrite Ho, Hc. simpl.
    unfold mode_ssr, ssr_pwa_true.
    destruct (defaultPortMapping (ctx_modeName ctx)); reflexivity.
  - repeat split.
  - apply devServerStage_unverified.
Qed.

Lemma devServer_request_defaults_witness :
  devServerStage (sampleEnv 0 goodFactory true (OpenPort 9000) true)
    spaProd (noCli true) false emptyConf initial
  = Ok (Some emptyConf) initial
  /\ requestedHost {| opt_host := Some "10.0.0.5"; opt_port := None; verifyAddress := true |}
       emptyConf = "10.0.0.5"
  /\ requestedPort {| dev := true; ctx_modeName := Ssr; tempFileBasename := "t.mjs" |}
       (noCli true)
       (set_ssr emptyConf {| ssr_pwa := PBool true; ssr_middlewares := [] |})
     = Some 9150.
Proof.
  split; [|split].
  - apply (proj1 devServer_request_defaults). left. reflexivity.
  - apply (proj1 (proj2 devServer_request_defaults)); [reflexivity | discriminate].
  - apply (proj1 (proj2 (proj2 (proj2 (proj2 (proj2 (proj2 devServer_request_defaults)))))));
      reflexivity.
Defined.

(** ** Framing the effects of [deriveConfig] *)

Lemma bind_Ok {A B} (m : M A) (k : A -> M B) (s s'' : state) (b : B) :
  bind m k s = Ok b s'' -> exists a s', m s = Ok a s' /\ k a s' = Ok b s''.
Proof.
  unfold bind. destruct (m s) as [a s'| |]; intro H; try discriminate.
  now exists a, s'.
Qed.

Section Frame.

Variable R : state -> state -> Prop.
Variable ok : event -> bool.

Hypothesis R_refl : forall s, R s s.
Hypothesis R_trans : forall s1 s2 s3, R s1 s2 -> R s2 s3 -> R s1 s3.
Hypothesis R_emit : forall s ev, ok ev = true -> R s (push_event s ev).
Hypothesis R_cached : forall s h, R s (set_cachedExternalHost s h).
Hypothesis R_running : forall s b, R s (set_addressRunning s b).
Hypothesis R_address : forall s a, R s (set_address s a).
Hypothesis ok_derive : forall ev, deriveEvent ev = true -> ok ev = true.

Lemma holds_ret {A} (a : A) : holds R (ret a).
Proof. intro s. apply R_refl. Qed.

Lemma holds_get : holds R get.
Proof. intro s. apply R_refl. Qed.

Lemma holds_throw {A} : holds R (@throw A).
Proof. intro s. apply R_refl. Qed.

Lemma holds_bind {A B} (m : M A) (k : A -> M B) :
  holds R m -> (forall a, holds R (k a)) -> holds R (bind m k).
Proof.
  intros Hm Hk s. unfold bind. specialize (Hm s).
  destruct (m s) as [a s'| s' | s']; simpl in *; try assumption.
  eapply R_trans; [exact Hm | apply Hk].
Qed.

Lemma holds_emit (ev : event) : deriveEvent ev = true -> holds R (emit ev).
Proof. intros H s. simpl. now apply R_emit, ok_derive. Qed.

Lemma holds_exit {A} (code : Z) : holds R (@process_exit A code).
Proof. intro s. simpl. now apply R_emit, ok_derive. Qed.

Lemma holds_fatal {A} (msg kind : string) :
  firstCharIs msg "T" = false -> holds R (@fatal A msg kind).
Proof.
  intro H. unfold fatal. apply holds_bind.
  - apply holds_emit. simpl. now rewrite H.
  - intro. apply holds_exit.
Qed.

Lemma holds_when (b : bool) (m : M unit) : holds R m -> holds R (when b m).
Proof. intro H. destruct b; [exact H | apply holds_ret]. Qed.

Ltac frame :=
  repeat first
    [ apply holds_ret
    | apply holds_get
    | apply holds_throw
    | apply holds_exit
    | apply holds_when
    | apply holds_fatal; reflexivity
    | apply holds_emit; reflexivity
    | apply holds_bind; [|intro]
    | (intro; simpl; apply R_cached)
    | (intro; simpl; apply R_running)
    | (intro; simpl; apply R_address)
    | match goal with
      | |- holds _ (if ?b then _ else _) => destruct b
      | |- holds _ (match ?x with _ => _ end) => destruct x
      end ].

Lemma holds_externalHost (e : env) (host : string) (mode : modeName) :
  holds R (externalHost e host mode).
Proof. unfold externalHost, modify. frame. Qed.

Lemma holds_onAddress (e : env) (a : addr) (mode : modeName) :
  holds R (onAddress e a mode).
Proof.
  unfold onAddress, warn, modify.
  apply holds_bind; [apply holds_externalHost | intro host].
  frame.
Qed.

Lemma holds_negotiate (e : env) (ctx : context) (opts : options)
    (f : bool) (cfg : conf) (a : addr) :
  holds R (negotiate e ctx opts f cfg a).
Proof.
  unfold negotiate, warn, modify.
  apply holds_bind.
  - destruct (verifyAddress opts); [apply holds_onAddress | apply holds_ret].
  - intros [t|]; frame.
Qed.

Lemma holds_devServerStage (e : env) (ctx : context) (opts : options)
    (f : bool) (cfg : conf) :
  holds R (devServerStage e ctx opts f cfg).
Proof.
  unfold devServerStage, tip.
  destruct (dev ctx && negb (mode_bex ctx)); [|apply holds_ret].
  apply holds_bind; [frame|intros _].
  apply holds_bind; [apply holds_get|intro s0].
  destruct (cachedTo s0 _); [apply holds_ret | apply holds_negotiate].
Qed.

Lemma holds_parseAssetsField (prefix : string) (l : list asset) :
  holds R (parseAssetsField prefix l).
Proof. unfold parseAssetsField. frame. Qed.

Lemma holds_listsStage (cfg : conf) : holds R (listsStage cfg).
Proof.
  unfold listsStage.
  apply holds_bind; [apply holds_parseAssetsField | intro].
  apply holds_bind; [apply holds_parseAssetsField | intro].
  apply holds_ret.
Qed.

Lemma holds_finishConfig (e : env) (ctx : context) (f : bool) (cfg : conf) :
  holds R (finishConfig e ctx f cfg).
Proof.
  unfold finishConfig, warn.
  apply holds_bind; [apply holds_listsStage | intro cfg1].
  destruct (negb (appFilesValidations e)); [frame|].
  apply holds_bind.
  - destruct (mode_ssr ctx); [|apply holds_ret].
    apply holds_bind; [apply holds_parseAssetsField | intro; apply holds_ret].
  - intro cfg2. destruct (mode_pwa ctx cfg2); [|apply holds_ret].
    destruct (negb (includes_str _ _)); frame.
Qed.

Lemma holds_deriveConfig (e : env) (ctx : context) (opts : options)
    (f : bool) (raw : conf) :
  holds R (deriveConfig e ctx opts f raw).
Proof.
  unfold deriveConfig.
  apply holds_bind; [apply holds_devServerStage | intros [cfg|]].
  - apply holds_finishConfig.
  - apply holds_ret.
Qed.

End Frame.

Lemma steady_refl (ok : event -> bool) (s : state) : steady ok s s.
Proof. repeat split. now exists []. Qed.

Lemma steady_trans (ok : event -> bool) (s1 s2 s3 : state) :
  steady ok s1 s2 -> steady ok s2 s3 -> steady ok s1 s3.
Proof.
  intros [[n1 [E1 F1]] [A1 [B1 C1]]] [[n2 [E2 F2]] [A2 [B2 C2]]].
  repeat split; try congruence.
  exists (n2 ++ n1)%list. split.
  - rewrite E2, E1. apply app_assoc.
  - rewrite forallb_app. now rewrite F1, F2.
Qed.

Lemma steady_emit (ok : event -> bool) (s : state) (ev : event) :
  ok ev = true -> steady ok s (push_event s ev).
Proof.
  intro H. repeat split. exists [ev]. split; [reflexivity|].
  simpl. now rewrite H.
Qed.

Lemma steady_weaken (ok ok' : event -> bool) (s s' : state) :
  (forall ev, ok ev = true -> ok' ev = true) -> steady ok s s' -> steady ok' s s'.
Proof.
  intros H [[n [E F]] rest]. split; [|exact rest].
  exists n. split; [assumption|].
  rewrite forallb_forall in *. auto.
Qed.

Lemma deriveEvent_notDelivery (ev : event) :
  deriveEvent ev = true -> notDelivery ev = true.
Proof. destruct ev; simpl; intro H; try discriminate; reflexivity. Qed.

(** [deriveConfig] only reports, probes and negotiates. *)
Lemma deriveConfig_steady (e : env) (ctx : context) (opts : options)
    (f : bool) (raw : conf) (s : state) :
  steady deriveEvent s (final (deriveConfig e ctx opts f raw s)).
Proof.
  apply (holds_deriveConfig (steady deriveEvent) deriveEvent).
  - apply steady_refl.
  - apply steady_trans.
  - apply steady_emit.
  - intros s0 h. repeat split. now exists [].
  - intros s0 b. repeat split. now exists [].
  - intros s0 a. repeat split. now exists [].
  - auto.
Qed.

Lemma deriveConfig_sameFile (e : env) (ctx : context) (opts : options)
    (f : bool) (raw : conf) (s : state) :
  tempFileOnDisk (final (deriveConfig e ctx opts f raw s)) = tempFileOnDisk s.
Proof.
  apply (holds_deriveConfig sameFile (fun _ => true)); unfold sameFile;
    try reflexivity; auto; congruence.
Qed.

Lemma onAddress_sameAddress (e : env) (a : addr) (mode : modeName) (s : state) :
  address (final (onAddress e a mode s)) = address s.
Proof.
  apply (holds_onAddress sameAddress (fun _ => true)); unfold sameAddress;
    try reflexivity; auto; congruence.
Qed.

Lemma externalHost_sameRunning (e : env) (host : string) (mode : modeName) (s : state) :
  addressRunning (final (externalHost e host mode s)) = addressRunning s.
Proof.
  apply (holds_externalHost sameRunning (fun _ => true)); unfold sameRunning;
    try reflexivity; auto; congruence.
Qed.

Lemma externalHost_returns (e : env) (host : string) (mode : modeName) (s : state) :
  exists h s1, externalHost e host mode s = Ok h s1.
Proof.
  unfold externalHost, bind, get, emit, modify, ret.
  destruct (_ && _); [|eauto].
  destruct (cachedExternalHost s) as [c|]; [destruct (str_truthy c)|]; eauto.
Qed.

(** ** The negotiator *)

Lemma onAddress_unfold (e : env) (a : addr) (mode : modeName) (s s1 : state) (host : string) :
  externalHost e (addr_host a) mode s = Ok host s1 ->
  onAddress e a mode s
  = match findClosestOpenPort e (addr_port a) host with
    | OpenPort openPort =>
        if negb (optZ_eqb (addr_port a) (Some openPort))
        then Ok (Some {| addr_host := host; addr_port := Some openPort |})
               (set_addressRunning
                  (push_event
                     (push_event
                        (push_event (push_event s1 (Probe (addr_port a) host)) (Warn ""))
                        (Warn ("Setting port to closest one available: "
                                 ++ toString (PNum openPort))))
                     (Warn "")) true)
        else Ok (Some {| addr_host := host; addr_port := addr_port a |})
               (set_addressRunning (push_event s1 (Probe (addr_port a) host)) true)
    | err =>
        let s2 := fold_right (fun ev st => push_event st ev)
                    (push_event s1 (Probe (addr_port a) host)) (networkReport err) in
        if negb (addressRunning s1)
        then Exited (push_event s2 (ProcessExit 1))
        else Ok None s2
    end.
Proof.
  intro H. unfold onAddress. unfold bind at 1. rewrite H.
  unfold bind, emit, warn, modify, get, ret, process_exit. simpl.
  destruct (findClosestOpenPort e (addr_port a) host) as [p| | |]; simpl.
  - destruct (negb (optZ_eqb (addr_port a) (Some p))); reflexivity.
  - destruct (addressRunning s1); reflexivity.
  - destruct (addressRunning s1); reflexivity.
  - destruct (addressRunning s1); reflexivity.
Qed.

Lemma trace_fold_push (l : list event) (s : state) :
  trace (fold_right (fun ev st => push_event st ev) s l) = (l ++ trace s)%list.
Proof. induction l as [|x r IH]; simpl; [reflexivity | now rewrite IH]. Qed.

Lemma addressRunning_fold_push (l : list event) (s : state) :
  addressRunning (fold_right (fun ev st => push_event st ev) s l) = addressRunning s.
Proof. induction l as [|x r IH]; simpl; [reflexivity | assumption]. Qed.

Lemma onAddress_failure (e : env) (a : addr) (mode : modeName) (s s1 : state) (host : string) :
  externalHost e (addr_host a) mode s = Ok host s1 ->
  (forall p, findClosestOpenPort e (addr_port a) host <> OpenPort p) ->
  let report := (networkReport (findClosestOpenPort e (addr_port a) host)
                   ++ Probe (addr_port a) host :: trace s1)%list in
  (addressRunning s = false ->
     exists s', onAddress e a mode s = Exited s'
                /\ trace s' = ProcessExit 1 :: report)
  /\ (addressRunning s = true ->
        exists s', onAddress e a mode s = Ok None s'
                   /\ trace s' = report
                   /\ addressRunning s' = true
                   /\ address s' = address s).
Proof.
  intros Hext Hfail report.
  pose proof (externalHost_sameRunning e (addr_host a) mode s) as Hrun.
  rewrite Hext in Hrun. simpl in Hrun.
  pose proof (onAddress_sameAddress e a mode s) as Haddr.
  rewrite (onAddress_unfold e a mode s s1 host Hext) in *.
  destruct (findClosestOpenPort e (addr_port a) host) as [p| | |] eqn:E;
    [exfalso; now apply (Hfail p)| | |];
    rewrite Hrun in *;
    (split; intro Hr; rewrite Hr in *; simpl in *; eexists;
     (split; [reflexivity|]); repeat split; auto).
Qed.

Lemma onAddress_success_sets_flag (e : env) (a : addr) (mode : modeName)
    (s s' : state) (t : addr) :
  onAddress e a mode s = Ok (Some t) s' ->
  addressRunning s' = true
  /\ exists host s1 p,
       externalHost e (addr_host a) mode s = Ok host s1
       /\ findClosestOpenPort e (addr_port a) host = OpenPort p
       /\ t = {| addr_host := host; addr_port := Some p |}.
Proof.
  destruct (externalHost_returns e (addr_host a) mode s) as [host [s1 Hext]].
  rewrite (onAddress_unfold e a mode s s1 host Hext).
  destruct (findClosestOpenPort e (addr_port a) host) as [p| | |] eqn:E.
  - destruct (negb (optZ_eqb (addr_port a) (Some p))) eqn:Ep; intro H; inversion H; subst;
      (split; [reflexivity|]); exists host, s1, p; repeat split; auto.
    apply negb_false_iff, optZ_eqb_eq in Ep. now rewrite Ep.
  - simpl. destruct (negb (addressRunning s1)); discriminate.
  - simpl. destruct (negb (addressRunning s1)); discriminate.
  - simpl. destruct (negb (addressRunning s1)); discriminate.
Qed.

Lemma onAddress_flag_origin (e : env) (a : addr) (mode : modeName) (s : state) :
  addressRunning (final (onAddress e a mode s)) = true ->
  addressRunning s = true \/ exists t s', onAddress e a mode s = Ok (Some t) s'.
Proof.
  destruct (externalHost_returns e (addr_host a) mode s) as [host [s1 Hext]].
  pose proof (externalHost_sameRunning e (addr_host a) mode s) as Hrun.
  rewrite Hext in Hrun. simpl in Hrun.
  rewrite (onAddress_unfold e a mode s s1 host Hext).
  destruct (findClosestOpenPort e (addr_port a) host) as [p| | |].
  - intros _. right. destruct (negb (optZ_eqb (addr_port a) (Some p))); eauto.
  - simpl. destruct (addressRunning s1) eqn:E1; simpl; intro H; left; congruence.
  - simpl. destruct (addressRunning s1) eqn:E1; simpl; intro H; left; congruence.
  - simpl. destruct (addressRunning s1) eqn:E1; simpl; intro H; left; congruence.
Qed.

Lemma negotiate_null (e : env) (ctx : context) (opts : options) (cfg : conf)
    (a : addr) (s s1 : state) :
  verifyAddress opts = true ->
  onAddress e a (ctx_modeName ctx) s = Ok None s1 ->
  negotiate e ctx opts true cfg a s
  = Exited (push_event (push_event s1 (Fatal msgNetwork "FAIL")) (ProcessExit 1))
  /\ negotiate e ctx opts false cfg a s
     = Ok None (push_event s1
                  (Warn (msgNetwork ++ " Reconfigure and save the file again." ++ nl))).
Proof.
  intros Hv Hn. unfold negotiate. rewrite Hv.
  split; unfold bind at 1; rewrite Hn; reflexivity.
Qed.

(** ** The negotiation cache *)

Lemma devServer_guard (ctx : context) :
  dev ctx = true -> ctx_modeName ctx <> Bex -> dev ctx && negb (mode_bex ctx) = true.
Proof.
  intros Hd Hb. rewrite Hd. unfold mode_bex.
  destruct (modeName_eqb (ctx_modeName ctx) Bex) eqn:E; [|reflexivity].
  apply modeName_eqb_eq in E. contradiction.
Qed.

Lemma devServerStage_off (e : env) (ctx : context) (opts : options) (f : bool)
    (cfg : conf) (s : state) :
  dev ctx && negb (mode_bex ctx) = false ->
  devServerStage e ctx opts f cfg s = Ok (Some cfg) s.
Proof. intro H. unfold devServerStage. now rewrite H. Qed.

Lemma devServerStage_on (e : env) (ctx : context) (opts : options) (f : bool)
    (cfg : conf) (s : state) :
  dev ctx && negb (mode_bex ctx) = true ->
  devServerStage e ctx opts f cfg s
  = match cachedTo s (requested ctx opts cfg) with
    | Some to =>
        Ok (Some (set_devServer cfg
                    {| ds_host := Some (addr_host to); ds_port := addr_port to;
                       ds_open := ds_open (devServer cfg) |}))
           (pushAll (portTip opts cfg) s)
    | None =>
        negotiate e ctx opts f (withRequested ctx opts cfg) (requested ctx opts cfg)
          (pushAll (portTip opts cfg) s)
    end.
Proof.
  intro H. unfold devServerStage. rewrite H.
  unfold portTip, pushAll, bind, tip, emit, modify, get, ret, cachedTo.
  destruct (opt_truthy_num (opt_port opts));
    [|destruct (negb (opt_truthy_num (ds_port (devServer cfg))))];
    simpl; fold (requested ctx opts cfg);
    destruct (address s) as [n|]; try reflexivity;
    destruct (addr_eqb (neg_from n) (requested ctx opts cfg)); reflexivity.
Qed.

Lemma trace_pushAll (l : list event) (s : state) :
  trace (pushAll l s) = (l ++ trace s)%list.
Proof. apply trace_fold_push. Qed.

Lemma address_pushAll (l : list event) (s : state) :
  address (pushAll l s) = address s.
Proof. induction l as [|x r IH]; simpl; [reflexivity | assumption]. Qed.

Lemma portTip_no_probe (opts : options) (cfg : conf) :
  existsb isProbe (portTip opts cfg) = false.
Proof.
  unfold portTip. destruct (opt_truthy_num (opt_port opts));
    [|destruct (negb (opt_truthy_num (ds_port (devServer cfg))))]; reflexivity.
Qed.

Lemma cachedTo_Some (s : state) (a to : addr) :
  cachedTo s a = Some to <->
  exists n, address s = Some n /\ neg_from n = a /\ neg_to n = to.
Proof.
  unfold cachedTo. split.
  - destruct (address s) as [n|]; [|discriminate].
    destruct (addr_eqb (neg_from n) a) eqn:E; [|discriminate].
    intro H. inversion H. exists n. apply addr_eqb_eq in E. auto.
  - intros [n [Hn [Hf Ht]]]. rewrite Hn.
    rewrite (proj2 (addr_eqb_eq (neg_from n) a) Hf). now subst.
Qed.

Lemma negotiate_unfold (e : env) (ctx : context) (opts : options) (f : bool)
    (cfg : conf) (a : addr) (s : state) :
  negotiate e ctx opts f cfg a s
  = match (if verifyAddress opts then onAddress e a (ctx_modeName ctx) s
           else Ok (Some a) s) with
    | Ok (Some t) s1 =>
        let d := merge_devServer (devServer cfg) t in
        Ok (Some (set_devServer cfg d))
           (set_address s1
              (Some {| neg_from := a;
                       neg_to := {| addr_host := str_of (ds_host d);
                                    addr_port := ds_port d |} |}))
    | Ok None s1 =>
        if f
        then Exited (push_event (push_event s1 (Fatal msgNetwork "FAIL")) (ProcessExit 1))
        else Ok None (push_event s1
                        (Warn (msgNetwork ++ " Reconfigure and save the file again." ++ nl)))
    | Exited s1 => Exited s1
    | Threw s1 => Threw s1
    end.
Proof.
  unfold negotiate, bind. destruct (verifyAddress opts).
  - destruct (onAddress e a (ctx_modeName ctx) s) as [[t|] s1| s1 | s1];
      try reflexivity.
    destruct f; reflexivity.
  - reflexivity.
Qed.

(** A [negotiate] that changes the cache went through, and what it wrote
    is the requested pair and the pair now in the configuration. *)
Lemma negotiate_cache (e : env) (ctx : context) (opts : options) (f : bool)
    (cfg : conf) (a : addr) (s : state) :
  (forall cfg' s', negotiate e ctx opts f cfg a s = Ok (Some cfg') s' ->
     address s'
     = Some {| neg_from := a;
               neg_to := {| addr_host := str_of (ds_host (devServer cfg'));
                            addr_port := ds_port (devServer cfg') |} |}
     /\ (exists h, ds_host (devServer cfg') = Some h)
     /\ (verifyAddress opts = true ->
           exists host p, findClosestOpenPort e (addr_port a) host = OpenPort p))
  /\ (address (final (negotiate e ctx opts f cfg a s)) <> address s ->
        exists cfg' s', negotiate e ctx opts f cfg a s = Ok (Some cfg') s').
Proof.
  rewrite negotiate_unfold. destruct (verifyAddress opts) eqn:Hv.
  - pose proof (onAddress_sameAddress e a (ctx_modeName ctx) s) as Hsame.
    destruct (onAddress e a (ctx_modeName ctx) s) as [[t|] s1| s1 | s1] eqn:Hon;
      simpl in Hsame.
    + split.
      * intros cfg' s' H. inversion H; subst; clear H.
        simpl. split; [reflexivity|]. split; [eauto|]. intros _.
        destruct (onAddress_success_sets_flag _ _ _ _ _ _ Hon)
          as [_ [host [s0 [p [_ [Hp _]]]]]].
        eauto.
      * intros _. do 2 eexists. reflexivity.
    + split.
      * intros cfg' s'. destruct f; discriminate.
      * destruct f; simpl; intro H; exfalso; apply H; assumption.
    + split; [discriminate|]. simpl. intro H. exfalso. now apply H.
    + split; [discriminate|]. simpl. intro H. exfalso. now apply H.
  - split.
    + intros cfg' s' H. inversion H; subst; clear H. simpl.
      split; [reflexivity|]. split; [eauto | discriminate].
    + intros _. do 2 eexists. reflexivity.
Qed.

Lemma devServerStage_success_cache (e : env) (ctx : context) (opts : options)
    (f : bool) (cfg cfg' : conf) (s s' : state) :
  dev ctx = true -> ctx_modeName ctx <> Bex ->
  devServerStage e ctx opts f cfg s = Ok (Some cfg') s' ->
  exists n, address s' = Some n
            /\ neg_from n = requested ctx opts cfg
            /\ ds_host (devServer cfg') = Some (addr_host (neg_to n))
            /\ ds_port (devServer cfg') = addr_port (neg_to n).
Proof.
  intros Hd Hb. rewrite (devServerStage_on _ _ _ _ _ _ (devServer_guard _ Hd Hb)).
  destruct (cachedTo s (requested ctx opts cfg)) as [to|] eqn:Hc.
  - intro H. inversion H; subst; clear H.
    apply cachedTo_Some in Hc. destruct Hc as [n [Hn [Hf Ht]]].
    exists n. rewrite address_pushAll. subst to. auto.
  - intro H.
    destruct (proj1 (negotiate_cache _ _ _ _ _ _ _) _ _ H) as [Ha [[h Hh] _]].
    eexists. split; [exact Ha|]. simpl. rewrite Hh. auto.
Qed.

Lemma devServerStage_hit (e : env) (ctx : context) (opts : options)
    (f : bool) (cfg : conf) (s : state) (n : negotiation) :
  dev ctx = true -> ctx_modeName ctx <> Bex ->
  address s = Some n -> neg_from n = requested ctx opts cfg ->
  exists cfg' s',
    devServerStage e ctx opts f cfg s = Ok (Some cfg') s'
    /\ ds_host (devServer cfg') = Some (addr_host (neg_to n))
    /\ ds_port (devServer cfg') = addr_port (neg_to n)
    /\ address s' = address s
    /\ exists new, trace s' = (new ++ trace s)%list /\ existsb isProbe new = false.
Proof.
  intros Hd Hb Hn Hf.
  rewrite (devServerStage_on _ _ _ _ _ _ (devServer_guard _ Hd Hb)).
  rewrite (proj2 (cachedTo_Some s (requested ctx opts cfg) (neg_to n)));
    [|exists n; auto].
  do 2 eexists. split; [reflexivity|]. simpl.
  split; [reflexivity|]. split; [reflexivity|].
  split; [apply address_pushAll|].
  exists (portTip opts cfg). split; [apply trace_pushAll | apply portTip_no_probe].
Qed.

(** C4. The negotiator is asked only when the requested pair is not the
    [from] of the cached negotiation: with the same pair the cached [to]
    goes into the configuration, nothing is probed and the cache stays; a
    probe during the dev-server block means there was no cached negotiation
    for that pair; the cache changes only when the block went through with
    an answer (a successful probe when negotiation is on), and then holds
    the requested pair and the pair put in force; so a later recompile of
    the session asking for the same pair reuses the answer without a
    probe. *)
Theorem address_negotiation_cache :
  (forall e ctx opts f cfg s n,
      dev ctx = true -> ctx_modeName ctx <> Bex ->
      address s = Some n -> neg_from n = requested ctx opts cfg ->
      exists cfg' s',
        devServerStage e ctx opts f cfg s = Ok (Some cfg') s'
        /\ ds_host (devServer cfg') = Some (addr_host (neg_to n))
        /\ ds_port (devServer cfg') = addr_port (neg_to n)
        /\ address s' = address s
        /\ exists new, trace s' = (new ++ trace s)%list
                       /\ existsb isProbe new = false)
  /\ (forall e ctx opts f cfg s new,
        trace (final (devServerStage e ctx opts f cfg s)) = (new ++ trace s)%list ->
        existsb isProbe new = true ->
        verifyAddress opts = true
        /\ forall n, address s = Some n -> neg_from n <> requested ctx opts cfg)
  /\ (forall e ctx opts f cfg s,
        address (final (devServerStage e ctx opts f cfg s)) <> address s ->
        exists cfg' s',
          devServerStage e ctx opts f cfg s = Ok (Some cfg') s'
          /\ address s'
             = Some {| neg_from := requested ctx opts cfg;
                       neg_to := {| addr_host := str_of (ds_host (devServer cfg'));
                                    addr_port := ds_port (devServer cfg') |} |}
          /\ (verifyAddress opts = true ->
                exists host p,
                  findClosestOpenPort e (requestedPort ctx opts cfg) host = OpenPort p))
  /\ (forall e1 e2 ctx opts f1 f2 cfg1 cfg2 cfg1' s s1 s1',
        dev ctx = true -> ctx_modeName ctx <> Bex ->
        devServerStage e1 ctx opts f1 cfg1 s = Ok (Some cfg1') s1 ->
        address s1' = address s1 ->
        requested ctx opts cfg2 = requested ctx opts cfg1 ->
        exists cfg2' s2,
          devServerStage e2 ctx opts f2 cfg2 s1' = Ok (Some cfg2') s2
          /\ ds_host (devServer cfg2') = ds_host (devServer cfg1')
          /\ ds_port (devServer cfg2') = ds_port (devServer cfg1')
          /\ address s2 = address s1
          /\ exists new, trace s2 = (new ++ trace s1')%list
                         /\ existsb isProbe new = false).
Proof.
  split; [|split; [|split]].
  - apply devServerStage_hit.
  - intros e ctx opts f cfg s new Ht Hp.
    destruct (dev ctx && negb (mode_bex ctx)) eqn:G.
    + rewrite (devServerStage_on _ _ _ _ _ _ G) in Ht.
      destruct (cachedTo s (requested ctx opts cfg)) as [to|] eqn:Hc.
      * simpl in Ht. rewrite trace_pushAll in Ht. apply app_inv_tail in Ht.
        subst new. rewrite portTip_no_probe in Hp. discriminate.
      * split.
        -- destruct (verifyAddress opts) eqn:Hv; [reflexivity|].
           rewrite negotiate_unfold, Hv in Ht. simpl in Ht.
           rewrite trace_pushAll in Ht. apply app_inv_tail in Ht.
           subst new. rewrite portTip_no_probe in Hp. discriminate.
        -- intros n Hn Hf.
           rewrite (proj2 (cachedTo_Some s (requested ctx opts cfg) (neg_to n))) in Hc;
             [discriminate | exists n; auto].
    + rewrite (devServerStage_off _ _ _ _ _ _ G) in Ht. simpl in Ht.
      assert (new = []) by (apply (app_inv_tail (trace s)); exact (eq_sym Ht)).
      subst new. discriminate.
  - intros e ctx opts f cfg s Hne.
    destruct (dev ctx && negb (mode_bex ctx)) eqn:G.
    + rewrite (devServerStage_on _ _ _ _ _ _ G) in *.
      destruct (cachedTo s (requested ctx opts cfg)) as [to|] eqn:Hc.
      * exfalso. apply Hne. simpl. apply address_pushAll.
      * destruct (negotiate_cache e ctx opts f (withRequested ctx opts cfg)
                    (requested ctx opts cfg) (pushAll (portTip opts cfg) s))
          as [Hok Hch].
        destruct Hch as [cfg' [s' Hs]]; [now rewrite address_pushAll|].
        exists cfg', s'. split; [exact Hs|].
        destruct (Hok _ _ Hs) as [Ha [_ Hv]]. split; [exact Ha | exact Hv].
    + exfalso. apply Hne. now rewrite (devServerStage_off _ _ _ _ _ _ G).
  - intros e1 e2 ctx opts f1 f2 cfg1 cfg2 cfg1' s s1 s1' Hd Hb H1 Hs Hr.
    destruct (devServerStage_success_cache _ _ _ _ _ _ _ _ Hd Hb H1)
      as [n [Hn [Hf [Hh Hp]]]].
    rewrite <- Hs in Hn. rewrite <- Hr in Hf.
    destruct (devServerStage_hit e2 ctx opts f2 cfg2 s1' n Hd Hb Hn Hf)
      as [cfg2' [s2 [E [Eh [Ep [Ea En]]]]]].
    exists cfg2', s2.
    split; [exact E|]. split; [congruence|]. split; [congruence|].
    split; [congruence | exact En].
Qed.

Lemma address_negotiation_cache_witness :
  let first := devServerStage (sampleEnv 0 goodFactory true (OpenPort 9001) true)
                 spaDev (noCli true) true emptyConf initial in
  exists cfg2' s2,
    devServerStage (sampleEnv 0 goodFactory true ERROR_NETWORK_PORT_NOT_AVAIL true)
      spaDev (noCli true) false emptyConf (final first) = Ok (Some cfg2') s2
    /\ ds_port (devServer cfg2') = Some 9001
    /\ exists new, trace s2 = (new ++ trace (final first))%list
                   /\ existsb isProbe new = false.
Proof.
  intro first.
  edestruct (proj2 (proj2 (proj2 address_negotiation_cache))
               (sampleEnv 0 goodFactory true (OpenPort 9001) true)
               (sampleEnv 0 goodFactory true ERROR_NETWORK_PORT_NOT_AVAIL true)
               spaDev (noCli true) true false emptyConf emptyConf
               (match first with Ok (Some c) _ => c | _ => emptyConf end)
               initial (final first) (final first))
    as [cfg2' [s2 [E [_ [Ep [_ En]]]]]].
  - reflexivity.
  - discriminate.
  - reflexivity.
  - reflexivity.
  - reflexivity.
  - exists cfg2', s2. split; [exact E|]. split; [exact Ep | exact En].
Defined.

(** ** The cycle, case by case *)

Lemma onEnd_skipped (e : env) (ctx : context) (opts : options) (s : state) :
  isFirst s = false -> isWatching s = false -> onEnd e ctx opts s = Ok tt s.
Proof. intros Hf Hw. unfold onEnd, bind, get. now rewrite Hf, Hw. Qed.

Lemma onEnd_compile_error (e : env) (ctx : context) (opts : options) (s : state) :
  isFirst s = true \/ isWatching s = true ->
  compileErrors e <> 0%nat ->
  onEnd e ctx opts s
  = if isFirst s
    then Exited (push_event (push_event (afterRemove s) (Fatal msgCompile "FAIL"))
                   (ProcessExit 1))
    else Ok tt (push_event (afterRemove s) (Warn (msgCompile ++ " Please fix them." ++ nl))).
Proof.
  intros Hp Hc. unfold onEnd, bind, get.
  assert (G : negb (isFirst s) && negb (isWatching s) = false).
  { destruct Hp as [H | H]; rewrite H; simpl; [reflexivity | apply andb_false_r]. }
  rewrite G. apply Nat.eqb_neq in Hc. rewrite Hc. simpl.
  destruct (isFirst s); reflexivity.
Qed.

Lemma onEnd_import_error (e : env) (ctx : context) (opts : options) (s : state) :
  isFirst s = true \/ isWatching s = true ->
  compileErrors e = 0%nat -> importResult e = ImportThrows ->
  onEnd e ctx opts s
  = let s1 := push_event (push_event s ConsoleLog) ConsoleError in
    if isFirst s
    then Exited (push_event (push_event s1 (Fatal (msgImportWatch ctx) "FAIL"))
                   (ProcessExit 1))
    else Ok tt (push_event s1 (Warn (msgImportWatch ctx ++ nl))).
Proof.
  intros Hp Hc Hi. unfold onEnd, bind, get.
  assert (G : negb (isFirst s) && negb (isWatching s) = false).
  { destruct Hp as [H | H]; rewrite H; simpl; [reflexivity | apply andb_false_r]. }
  rewrite G, Hc, Hi. simpl. destruct (isFirst s); reflexivity.
Qed.

Lemma onEnd_imported (e : env) (ctx : context) (opts : options) (s : state)
    (fn : exported) :
  isFirst s = true \/ isWatching s = true ->
  compileErrors e = 0%nat -> importResult e = Imported fn ->
  onEnd e ctx opts s
  = match computeConfig e ctx opts fn (isFirst s) s with
    | Ok None s1 => Ok tt s1
    | Ok (Some c) s1 =>
        if isFirst s
        then Ok tt (set_inForce (push_event (set_isFirst s1 false) (FirstBuildIsDone c))
                      (Some c))
        else Ok tt (set_inForce
                      (push_event
                         (push_event s1
                            (Log "Scheduled to apply quasar.config changes in 550ms"))
                         (ScheduleApply c))
                      (Some c))
    | Exited s1 => Exited s1
    | Threw s1 => Threw s1
    end.
Proof.
  intros Hp Hc Hi. unfold onEnd. unfold bind at 1. unfold get.
  assert (G : negb (isFirst s) && negb (isWatching s) = false).
  { destruct Hp as [H | H]; rewrite H; simpl; [reflexivity | apply andb_false_r]. }
  rewrite G, Hc, Hi. simpl. unfold bind at 1.
  destruct (computeConfig e ctx opts fn (isFirst s) s) as [[c|] s1| s1 | s1];
    try reflexivity.
  destruct (isFirst s); reflexivity.
Qed.

Lemma computeConfig_notCallable (e : env) (ctx : context) (opts : options)
    (v : jsval) (f : bool) (s : state) :
  computeConfig e ctx opts (NotCallable v) f s
  = if f
    then Exited (push_event (push_event (afterRemove s) (Fatal msgNotFunction "FAIL"))
                   (ProcessExit 1))
    else Ok None (push_event (afterRemove s) (Warn (msgNotFunction ++ " Please fix it." ++ nl))).
Proof. destruct f; reflexivity. Qed.

Lemma computeConfig_throws (e : env) (ctx : context) (opts : options)
    (f : bool) (s : state) :
  computeConfig e ctx opts (Callable Throws) f s
  = let s1 := push_event (push_event s ConsoleLog) ConsoleError in
    if f
    then Exited (push_event (push_event s1 (Fatal (msgRuntime ctx) "FAIL")) (ProcessExit 1))
    else Ok None (push_event s1
                    (Warn (msgRuntime ctx ++ " Please fix the errors in the original file." ++ nl))).
Proof. destruct f; reflexivity. Qed.

Lemma computeConfig_notObject (e : env) (ctx : context) (opts : options)
    (v : jsval) (f : bool) (s : state) :
  Object_is_self v = false ->
  computeConfig e ctx opts (Callable (Returns v)) f s
  = if f
    then Exited (push_event (push_event (afterRemove s) (Fatal msgNotObject "FAIL"))
                   (ProcessExit 1))
    else Ok None (push_event (afterRemove s) (Warn (msgNotObject ++ " Please fix it." ++ nl))).
Proof. intro H. unfold computeConfig. rewrite H. destruct f; reflexivity. Qed.

Lemma computeConfig_object (e : env) (ctx : context) (opts : options)
    (v : jsval) (f : bool) :
  Object_is_self v = true ->
  computeConfig e ctx opts (Callable (Returns v)) f = normalize e ctx opts f v.
Proof. intro H. unfold computeConfig. now rewrite H. Qed.

Lemma normalize_extension_error (e : env) (ctx : context) (opts : options)
    (v : jsval) (f : bool) (s : state) :
  extendQuasarConf e (merge_defaults e v) = None ->
  normalize e ctx opts f v s
  = let s1 := push_event (push_event (afterRemove s) ConsoleLog) ConsoleError in
    if f
    then Exited (push_event (push_event s1 (Fatal msgExtension "FAIL")) (ProcessExit 1))
    else Ok None (push_event s1 (Warn (msgExtension ++ "." ++ nl))).
Proof. intro H. unfold normalize. rewrite H. destruct f; reflexivity. Qed.

Lemma normalize_extended (e : env) (ctx : context) (opts : options)
    (v : jsval) (f : bool) (s : state) (raw : conf) :
  extendQuasarConf e (merge_defaults e v) = Some raw ->
  normalize e ctx opts f v s = deriveConfig e ctx opts f raw (afterRemove s).
Proof. intro H. unfold normalize. rewrite H. reflexivity. Qed.

Lemma deriveConfig_unfold (e : env) (ctx : context) (opts : options)
    (f : bool) (raw : conf) (s : state) :
  deriveConfig e ctx opts f raw s
  = match devServerStage e ctx opts f (withSsrDefaults ctx raw) s with
    | Ok (Some cfg) s1 => finishConfig e ctx f cfg s1
    | Ok None s1 => Ok None s1
    | Exited s1 => Exited s1
    | Threw s1 => Threw s1
    end.
Proof.
  unfold deriveConfig, bind.
  destruct (devServerStage e ctx opts f (withSsrDefaults ctx raw) s) as [[c|] s1| |];
    reflexivity.
Qed.

Lemma devServerStage_steady (e : env) (ctx : context) (opts : options)
    (f : bool) (cfg : conf) (s : state) :
  steady deriveEvent s (final (devServerStage e ctx opts f cfg s)).
Proof.
  apply (holds_devServerStage (steady deriveEvent) deriveEvent).
  - apply steady_refl.
  - apply steady_trans.
  - apply steady_emit.
  - intros s0 h. repeat split. now exists [].
  - intros s0 b. repeat split. now exists [].
  - intros s0 a. repeat split. now exists [].
  - auto.
Qed.

Lemma steady_afterRemove (s : state) : steady notDelivery s (afterRemove s).
Proof. repeat split. now exists [RemoveTemp]. Qed.

(** A cycle that is processed and whose user value passed the shape checks
    and the extensions ends as the dev-server block does when that block
    gives no configuration. *)
Lemma onEnd_devServer_stops (e : env) (ctx : context) (opts : options)
    (s : state) (v : jsval) (raw : conf) :
  isFirst s = true \/ isWatching s = true ->
  compileErrors e = 0%nat ->
  importResult e = Imported (Callable (Returns v)) ->
  Object_is_self v = true ->
  extendQuasarConf e (merge_defaults e v) = Some raw ->
  (forall s1,
      devServerStage e ctx opts (isFirst s) (withSsrDefaults ctx raw) (afterRemove s)
      = Ok None s1 ->
      onEnd e ctx opts s = Ok tt s1 /\ steady notDelivery s s1)
  /\ (forall s1,
        devServerStage e ctx opts (isFirst s) (withSsrDefaults ctx raw) (afterRemove s)
        = Exited s1 ->
        onEnd e ctx opts s = Exited s1 /\ steady notDelivery s s1).
Proof.
  intros Hp Hc Hi Ho He.
  pose proof (devServerStage_steady e ctx opts (isFirst s) (withSsrDefaults ctx raw)
                (afterRemove s)) as St.
  split; intros s1 H;
    rewrite (onEnd_imported e ctx opts s _ Hp Hc Hi),
            (computeConfig_object e ctx opts v (isFirst s) Ho),
            (normalize_extended e ctx opts v (isFirst s) s raw He),
            deriveConfig_unfold, H;
    (split; [reflexivity|]);
    rewrite H in St; simpl in St;
    (eapply steady_trans; [apply steady_afterRemove|]);
    apply (steady_weaken deriveEvent); [apply deriveEvent_notDelivery | exact St
                                       | apply deriveEvent_notDelivery | exact St].
Qed.

(** C5. When the probe fails, [onAddress] reports it with warnings (the
    message depending on the error) and then exits the process if no
    negotiation has succeeded so far in the process, and returns null
    otherwise, the cache untouched; the flag it goes by is off in a fresh
    process and is turned on by a successful negotiation only. On a null
    answer the caller is fatal when it is told to fail on error (the first
    build) and otherwise warns and returns no configuration, so that the
    watch cycle ends with the previous configuration in force and nothing
    handed to the caller. *)
Theorem onAddress_probe_failure_policy :
  (forall e a mode s host s1,
      externalHost e (addr_host a) mode s = Ok host s1 ->
      (forall p, findClosestOpenPort e (addr_port a) host <> OpenPort p) ->
      let report := (networkReport (findClosestOpenPort e (addr_port a) host)
                       ++ Probe (addr_port a) host :: trace s1)%list in
      (addressRunning s = false ->
         exists s', onAddress e a mode s = Exited s'
                    /\ trace s' = ProcessExit 1 :: report)
      /\ (addressRunning s = true ->
            exists s', onAddress e a mode s = Ok None s'
                       /\ trace s' = report
                       /\ addressRunning s' = true
                       /\ address s' = address s))
  /\ (networkReport ERROR_NETWORK_PORT_NOT_AVAIL
        = [Warn ""; Warn msgPortNotAvail; Warn ""]
      /\ networkReport ERROR_NETWORK_ADDRESS_NOT_AVAIL
         = [Warn ""; Warn msgAddressNotAvail; Warn ""]
      /\ networkReport ERROR_OTHER
         = [Warn ""; ConsoleError; Warn msgUnknownNetwork; Warn ""])
  /\ addressRunning initial = false
  /\ (forall e a mode s t s',
        onAddress e a mode s = Ok (Some t) s' -> addressRunning s' = true)
  /\ (forall e a mode s,
        addressRunning (final (onAddress e a mode s)) = true ->
        addressRunning s = true
        \/ exists t s', onAddress e a mode s = Ok (Some t) s')
  /\ (forall e ctx opts cfg a s s1,
        verifyAddress opts = true ->
        onAddress e a (ctx_modeName ctx) s = Ok None s1 ->
        negotiate e ctx opts true cfg a s
        = Exited (push_event (push_event s1 (Fatal msgNetwork "FAIL")) (ProcessExit 1))
        /\ negotiate e ctx opts false cfg a s
           = Ok None (push_event s1
                        (Warn (msgNetwork ++ " Reconfigure and save the file again." ++ nl))))
  /\ (forall e ctx opts s v raw s1,
        isFirst s = false -> isWatching s = true ->
        compileErrors e = 0%nat ->
        importResult e = Imported (Callable (Returns v)) ->
        Object_is_self v = true ->
        extendQuasarConf e (merge_defaults e v) = Some raw ->
        devServerStage e ctx opts false (withSsrDefaults ctx raw) (afterRemove s)
        = Ok None s1 ->
        onEnd e ctx opts s = Ok tt s1
        /\ inForce s1 = inForce s
        /\ exists new, trace s1 = (new ++ trace s)%list
                       /\ forallb notDelivery new = true).
Proof.
  split; [|split; [|split; [|split; [|split; [|split]]]]].
  - intros e a mode s host s1. apply onAddress_failure.
  - repeat split.
  - reflexivity.
  - intros e a mode s t s' H. apply (onAddress_success_sets_flag _ _ _ _ _ _ H).
  - apply onAddress_flag_origin.
  - apply negotiate_null.
  - intros e ctx opts s v raw s1 Hf Hw Hc Hi Ho He H.
    rewrite <- Hf in H.
    destruct (onEnd_devServer_stops e ctx opts s v raw (or_intror Hw) Hc Hi Ho He)
      as [Hnone _].
    destruct (Hnone s1 H) as [E [Hn [Hin _]]].
    split; [exact E|]. split; [exact Hin | exact Hn].
Qed.

Lemma onAddress_probe_failure_policy_witness :
  let e := sampleEnv 0 goodFactory true ERROR_NETWORK_PORT_NOT_AVAIL true in
  (exists s',
      onAddress e {| addr_host := "0.0.0.0"; addr_port := Some 9000 |} Spa initial
      = Exited s'
      /\ trace s' = [ProcessExit 1; Warn ""; Warn msgPortNotAvail; Warn "";
                     Probe (Some 9000) "0.0.0.0"])
  /\ exists s1,
       onEnd e spaDev (noCli true) (set_addressRunning watching true) = Ok tt s1
       /\ inForce s1 = Some emptyConf.
Proof.
  intro e. split.
  - assert (Hext : externalHost e "0.0.0.0" Spa initial = Ok "0.0.0.0" initial)
      by reflexivity.
    assert (Hfail : forall p, findClosestOpenPort e (Some 9000) "0.0.0.0" <> OpenPort p)
      by (intro p; discriminate).
    exact (proj1 (proj1 onAddress_probe_failure_policy e
                    {| addr_host := "0.0.0.0"; addr_port := Some 9000 |}
                    Spa initial "0.0.0.0" initial Hext Hfail) eq_refl).
  - eexists.
    destruct (proj2 (proj2 (proj2 (proj2 (proj2 (proj2 onAddress_probe_failure_policy)))))
                e spaDev (noCli true) (set_addressRunning watching true)
                (JObject 1 []) emptyConf
                (final (devServerStage e spaDev (noCli true) false emptyConf
                          (afterRemove (set_addressRunning watching true))))
                eq_refl eq_refl eq_refl eq_refl eq_refl eq_refl eq_refl)
      as [E [Hin _]].
    split; [exact E | exact Hin].
Defined.

(** ** First build fatal, later builds recoverable *)

Lemma steady_push (ok : event -> bool) (s s1 : state) (ev : event) :
  steady ok s s1 -> ok ev = true -> steady ok s (push_event s1 ev).
Proof. intros H Hev. eapply steady_trans; [exact H | now apply steady_emit]. Qed.

Lemma parseAssetsField_returns (prefix : string) (l : list asset) :
  exists out, parseAssets prefix l = Some out
              /\ forall s, parseAssetsField prefix l s = Ok (map AssetObj out) s.
Proof.
  destruct (parseAssets_shape prefix l) as [parsed [HF E]].
  eexists. split; [exact E|]. intro s. unfold parseAssetsField.
  destruct l as [|a r].
  - simpl. simpl in HF. inversion HF; subst. reflexivity.
  - cbn [List.length Nat.ltb Nat.leb]. now rewrite E.
Qed.

Lemma listsStage_returns (cfg : conf) :
  exists css' boot',
    parseAssets "src/css" (css cfg) = Some css'
    /\ parseAssets "boot" (boot cfg) = Some boot'
    /\ forall s,
         listsStage cfg s
         = Ok (set_framework
                 (set_animations
                    (set_extras (set_boot (set_css cfg (map AssetObj css')) (map AssetObj boot'))
                       (uniqueField (extras cfg)))
                    (uniqueField (animations cfg)))
                 (frameworkLists (framework cfg))) s.
Proof.
  destruct (parseAssetsField_returns "src/css" (css cfg)) as [c [Ec Hc]].
  destruct (parseAssetsField_returns "boot" (boot cfg)) as [b [Eb Hb]].
  exists c, b. split; [exact Ec|]. split; [exact Eb|].
  intro s. unfold listsStage. unfold bind at 1. rewrite Hc.
  unfold bind at 1. rewrite Hb. reflexivity.
Qed.

Lemma finishConfig_invalid (e : env) (ctx : context) (f : bool) (cfg : conf) (s : state) :
  appFilesValidations e = false ->
  finishConfig e ctx f cfg s
  = if f
    then Exited (push_event (push_event s (Fatal msgValidation "FAIL")) (ProcessExit 1))
    else Ok None (push_event s (Warn (msgValidation ++ ". Please fix the issues." ++ nl))).
Proof.
  intro H. destruct (listsStage_returns cfg) as [c [b [_ [_ Hl]]]].
  unfold finishConfig. unfold bind at 1. rewrite Hl, H. destruct f; reflexivity.
Qed.

(** What a processed cycle that fails with [f] does: some reporting that
    hands nothing to the caller, then the fatal report and exit on the first
    build, the warning on a later one. *)
Lemma cycleFailure_outcome (e : env) (ctx : context) (opts : options) (s : state)
    (f : failure) :
  cycleFailure e ctx opts s f ->
  isFirst s = true \/ isWatching s = true ->
  exists s0,
    steady notDelivery s s0
    /\ onEnd e ctx opts s
       = if isFirst s
         then Exited (push_event (push_event s0 (Fatal (fatalMsg ctx f) "FAIL"))
                        (ProcessExit 1))
         else Ok tt (push_event s0 (Warn (warnMsg ctx f))).
Proof.
  intros Hf Hp. destruct f; simpl in Hf.
  - exists (afterRemove s). split; [apply steady_afterRemove|].
    now apply onEnd_compile_error.
  - destruct Hf as [Hc [v Hi]].
    exists (afterRemove s). split; [apply steady_afterRemove|].
    rewrite (onEnd_imported e ctx opts s _ Hp Hc Hi), computeConfig_notCallable.
    destruct (isFirst s); reflexivity.
  - destruct Hf as [Hc Hi].
    exists (push_event (push_event s ConsoleLog) ConsoleError). split.
    + apply steady_push; [|reflexivity]. apply steady_push; [|reflexivity].
      apply steady_refl.
    + rewrite (onEnd_imported e ctx opts s _ Hp Hc Hi), computeConfig_throws.
      destruct (isFirst s); reflexivity.
  - destruct Hf as [Hc [v [Hi Ho]]].
    exists (afterRemove s). split; [apply steady_afterRemove|].
    rewrite (onEnd_imported e ctx opts s _ Hp Hc Hi),
            (computeConfig_notObject e ctx opts v (isFirst s) s Ho).
    destruct (isFirst s); reflexivity.
  - destruct Hf as [Hc [v [Hi [Ho He]]]].
    exists (push_event (push_event (afterRemove s) ConsoleLog) ConsoleError). split.
    + apply steady_push; [|reflexivity]. apply steady_push; [|reflexivity].
      apply steady_afterRemove.
    + rewrite (onEnd_imported e ctx opts s _ Hp Hc Hi),
              (computeConfig_object e ctx opts v (isFirst s) Ho),
              (normalize_extension_error e ctx opts v (isFirst s) s He).
      destruct (isFirst s); reflexivity.
  - destruct Hf as [Hc [v [raw [cfg [s2 [Hi [Ho [He [Hd Hv]]]]]]]]].
    exists s2. split.
    + eapply steady_trans; [apply steady_afterRemove|].
      apply (steady_weaken deriveEvent); [apply deriveEvent_notDelivery|].
      pose proof (devServerStage_steady e ctx opts (isFirst s)
                    (withSsrDefaults ctx raw) (afterRemove s)) as St.
      now rewrite Hd in St.
    + rewrite (onEnd_imported e ctx opts s _ Hp Hc Hi),
              (computeConfig_object e ctx opts v (isFirst s) Ho),
              (normalize_extended e ctx opts v (isFirst s) s raw He),
              deriveConfig_unfold, Hd,
              (finishConfig_invalid e ctx (isFirst s) cfg s2 Hv).
      destruct (isFirst s); reflexivity.
Qed.




(** A session run: the first build goes through, the caller issues
    watch(), a rebuild whose factory throws warns and changes nothing, the
    next rebuild is handed to the apply callback. *)
Example session_recovers :
  let good := sampleEnv 0 goodFactory true (OpenPort 9000) true in
  let bad := sampleEnv 0 (Imported (Callable Throws)) true (OpenPort 9000) true in
  let run := (cycle good spaProd (noCli false) ;; watch ;;
              cycle bad spaProd (noCli false) ;;
              cycle good spaProd (noCli false)) in
  match run initial with
  | Ok _ s =>
      match inForce s with
      | Some c =>
          filter (fun ev => negb (notDelivery ev)) (trace s)
          = [ScheduleApply c; FirstBuildIsDone c]
          /\ isFirst s = false /\ tempFileOnDisk s = false
      | None => False
      end
  | _ => False
  end.
Proof. vm_compute. repeat split. Qed.

(** ** The transient compiled file *)

Lemma cycle_unfold (e : env) (ctx : context) (opts : options) (s : state) :
  cycle e ctx opts s = onEnd e ctx opts (built e s).
Proof.
  unfold cycle, built, onStart, esBuild, bind at 1 2, get, log, emit, modify, ret.
  unfold bind at 1 2. simpl.
  destruct (isFirst s); simpl; destruct (compileErrors e =? 0)%nat; reflexivity.
Qed.

Lemma built_flags (e : env) (s : state) :
  isFirst (built e s) = isFirst s /\ isWatching (built e s) = isWatching s
  /\ tempFileOnDisk (built e s)
     = if (compileErrors e =? 0)%nat then true else tempFileOnDisk s.
Proof.
  unfold built. destruct (isFirst s) eqn:E; simpl;
    destruct (compileErrors e =? 0)%nat; simpl; auto.
Qed.

Lemma computeConfig_file (e : env) (ctx : context) (opts : options)
    (fn : exported) (f : bool) (s : state) :
  tempFileOnDisk (final (computeConfig e ctx opts fn f s))
  = match fn with
    | Callable Throws => tempFileOnDisk s
    | _ => false
    end.
Proof.
  destruct fn as [v | [|v]].
  - rewrite computeConfig_notCallable. destruct f; reflexivity.
  - rewrite computeConfig_throws. destruct f; reflexivity.
  - destruct (Object_is_self v) eqn:Ho.
    + rewrite (computeConfig_object e ctx opts v f Ho).
      destruct (extendQuasarConf e (merge_defaults e v)) as [raw|] eqn:He.
      * rewrite (normalize_extended e ctx opts v f s raw He).
        now rewrite deriveConfig_sameFile.
      * rewrite (normalize_extension_error e ctx opts v f s He).
        destruct f; reflexivity.
    + rewrite (computeConfig_notObject e ctx opts v f s Ho). destruct f; reflexivity.
Qed.

Lemma onEnd_file (e : env) (ctx : context) (opts : options) (s : state) :
  isFirst s = true \/ isWatching s = true ->
  tempFileOnDisk (final (onEnd e ctx opts s))
  = if (compileErrors e =? 0)%nat
    then match importResult e with
         | ImportThrows | Imported (Callable Throws) => tempFileOnDisk s
         | _ => false
         end
    else false.
Proof.
  intro Hp. destruct (compileErrors e =? 0)%nat eqn:Hc.
  - apply Nat.eqb_eq in Hc. destruct (importResult e) as [|fn] eqn:Hi.
    + rewrite (onEnd_import_error e ctx opts s Hp Hc Hi). simpl.
      destruct (isFirst s); reflexivity.
    + rewrite (onEnd_imported e ctx opts s fn Hp Hc Hi).
      pose proof (computeConfig_file e ctx opts fn (isFirst s) s) as Hf.
      destruct (computeConfig e ctx opts fn (isFirst s) s) as [[c|] s1| s1 | s1];
        simpl in *; try exact Hf.
      destruct (isFirst s); exact Hf.
  - apply Nat.eqb_neq in Hc. rewrite (onEnd_compile_error e ctx opts s Hp Hc).
    destruct (isFirst s); reflexivity.
Qed.

Lemma build_file (e : env) (ctx : context) (opts : options) (s : state) :
  tempFileOnDisk (final (build e ctx opts s)) = runtimeError e.
Proof.
  unfold build, runtimeError, esBuild, bind at 1 2, modify, ret.
  destruct (compileErrors e =? 0)%nat eqn:Hc; simpl.
  - destruct (importResult e) as [|fn]; [reflexivity|].
    rewrite computeConfig_file. destruct fn as [v|[|v]]; reflexivity.
  - reflexivity.
Qed.

(** C2, as the code has it. After a cycle that the watch handler processes
    (the first build, or a build once watch() has been issued), and after a
    one-shot build, the transient compiled file is on disk exactly when the
    cycle ended in a runtime error: importing the bundle threw or the
    factory threw. It is removed after a compile failure, after an export
    that is not a function, after a result that is not an object, and
    before the configuration is derived, so also when extensions, address
    negotiation or files validation fail and when the cycle succeeds. *)
Theorem tempFile_removed_unless_runtime_error :
  (forall e ctx opts s,
      isFirst s = true \/ isWatching s = true ->
      tempFileOnDisk (final (cycle e ctx opts s)) = runtimeError e)
  /\ (forall e ctx opts s,
        tempFileOnDisk (final (build e ctx opts s)) = runtimeError e)
  /\ (forall e ctx opts s,
        isFirst s = true \/ isWatching s = true ->
        runtimeError e = true ->
        ~ In RemoveTemp (trace s) ->
        ~ In RemoveTemp (trace (final (cycle e ctx opts s)))).
Proof.
  split; [|split].
  - intros e ctx opts s Hp. rewrite cycle_unfold.
    destruct (built_flags e s) as [Hf [Hw Ht]].
    rewrite onEnd_file; [|now rewrite Hf, Hw].
    unfold runtimeError. rewrite Ht.
    destruct (compileErrors e =? 0)%nat; [|reflexivity].
    destruct (importResult e) as [|[v|[|v]]]; reflexivity.
  - apply build_file.
  - intros e ctx opts s Hp Hr Hn. rewrite cycle_unfold.
    destruct (built_flags e s) as [Hf [Hw _]].
    assert (Hp' : isFirst (built e s) = true \/ isWatching (built e s) = true)
      by (now rewrite Hf, Hw).
    assert (Hb : ~ In RemoveTemp (trace (built e s))).
    { unfold built. destruct (negb (isFirst s)); destruct (compileErrors e =? 0)%nat;
        simpl; intuition discriminate. }
    unfold runtimeError in Hr. apply andb_true_iff in Hr. destruct Hr as [Hc Hi].
    apply Nat.eqb_eq in Hc.
    destruct (importResult e) as [|[v|[|v]]] eqn:Hir; try discriminate.
    + rewrite (onEnd_import_error e ctx opts _ Hp' Hc Hir).
      destruct (isFirst (built e s)); simpl; intuition discriminate.
    + rewrite (onEnd_imported e ctx opts _ _ Hp' Hc Hir), computeConfig_throws.
      destruct (isFirst (built e s)); simpl; intuition discriminate.
Qed.

Lemma tempFile_removed_unless_runtime_error_witness :
  tempFileOnDisk
    (final (cycle (sampleEnv 0 goodFactory true (OpenPort 9000) false)
              spaProd (noCli false) watching)) = false
  /\ ~ In RemoveTemp
        (trace (final (cycle (sampleEnv 0 ImportThrows true (OpenPort 9000) true)
                         spaProd (noCli false) watching))).
Proof.
  split.
  - apply (proj1 tempFile_removed_unless_runtime_error
             (sampleEnv 0 goodFactory true (OpenPort 9000) false)
             spaProd (noCli false) watching).
    right. reflexivity.
  - apply (proj2 (proj2 tempFile_removed_unless_runtime_error)
             (sampleEnv 0 ImportThrows true (OpenPort 9000) true)
             spaProd (noCli false) watching).
    + right. reflexivity.
    + reflexivity.
    + simpl. tauto.
Defined.

(** C2 as stated fails: when the factory throws, on the first build or on
    a later one, the cycle ends with the compiled file still on disk and
    without a removal. *)
Lemma tempFile_left_after_runtime_error :
  tempFileOnDisk
    (final (cycle (sampleEnv 0 (Imported (Callable Throws)) true (OpenPort 9000) true)
              spaProd (noCli false) watching)) = true
  /\ tempFileOnDisk
       (final (cycle (sampleEnv 0 (Imported (Callable Throws)) true (OpenPort 9000) true)
                 spaProd (noCli false) initial)) = true
  /\ trace (final (cycle (sampleEnv 0 (Imported (Callable Throws)) true (OpenPort 9000) true)
                     spaProd (noCli false) initial))
     = [ProcessExit 1; Fatal (msgRuntime spaProd) "FAIL"; ConsoleError; ConsoleLog].
Proof. repeat split. Qed.

(** ** The shape of the factory's result *)

Lemma Object_is_self_spec (v : jsval) :
  Object_is_self v = false <-> exists p, v = JPrim p.
Proof.
  unfold Object_is_self. split.
  - destruct v as [p | r l | r o | r | r p]; simpl; rewrite ?Nat.eqb_refl;
      try discriminate. intros _. now exists p.
  - intros [p ->]. destruct p as [| | b | n | str]; reflexivity.
Qed.

Lemma normalize_not_rejected (e : env) (ctx : context) (opts : options)
    (f : bool) (v : jsval) (s : state) :
  normalize e ctx opts f v s <> rejectedNotObject f s.
Proof.
  intro H. apply (f_equal (fun o => trace (final o))) in H.
  destruct (extendQuasarConf e (merge_defaults e v)) as [raw|] eqn:He.
  - rewrite (normalize_extended e ctx opts v f s raw He) in H.
    destruct (deriveConfig_steady e ctx opts f raw (afterRemove s)) as [[new [Ht Hok]] _].
    rewrite Ht in H. unfold rejectedNotObject in H.
    destruct f; simpl in H.
    + assert (E : new = [ProcessExit 1; Fatal msgNotObject "FAIL"])
        by (apply (app_inv_tail (RemoveTemp :: trace s)); exact H).
      subst new. discriminate.
    + assert (E : new = [Warn (msgNotObject ++ " Please fix it." ++ nl)])
        by (apply (app_inv_tail (RemoveTemp :: trace s)); exact H).
      subst new. discriminate.
  - rewrite (normalize_extension_error e ctx opts v f s He) in H.
    unfold rejectedNotObject in H. destruct f; simpl in H; inversion H.
Qed.

(** C9. The value the factory returns (or resolves to) is rejected as not
    an object exactly when it is a primitive, null and undefined included;
    an array is an object to the check, and normalization goes on with
    it. *)
Theorem result_rejected_iff_primitive :
  (forall v, Object_is_self v = false <-> exists p, v = JPrim p)
  /\ (forall e ctx opts f v s,
        (exists p, v = JPrim p)
        <-> computeConfig e ctx opts (Callable (Returns v)) f s = rejectedNotObject f s)
  /\ (forall e ctx opts f s,
        computeConfig e ctx opts (Callable (Returns (JPrim PNull))) f s
        = rejectedNotObject f s)
  /\ (forall e ctx opts f r l,
        computeConfig e ctx opts (Callable (Returns (JArray r l))) f
        = normalize e ctx opts f (JArray r l))
  /\ (forall e ctx opts f r l s,
        computeConfig e ctx opts (Callable (Returns (JArray r l))) f s
        <> rejectedNotObject f s)
  /\ exists cfg s',
       computeConfig (sampleEnv 0 goodFactory true (OpenPort 9000) true) spaProd
         (noCli false) (Callable (Returns (JArray 1 []))) true initial
       = Ok (Some cfg) s'.
Proof.
  split; [|split; [|split; [|split; [|split]]]].
  - apply Object_is_self_spec.
  - intros e ctx opts f v s. split.
    + intros [p ->]. apply computeConfig_notObject.
      apply Object_is_self_spec. now exists p.
    + intro H. destruct (Object_is_self v) eqn:Ho.
      * exfalso. rewrite (computeConfig_object e ctx opts v f Ho) in H.
        exact (normalize_not_rejected _ _ _ _ _ _ H).
      * now apply Object_is_self_spec.
  - intros. now apply computeConfig_notObject.
  - intros e ctx opts f r l. apply computeConfig_object.
    unfold Object_is_self. simpl. apply Nat.eqb_refl.
  - intros e ctx opts f r l s. rewrite computeConfig_object.
    + apply normalize_not_rejected.
    + unfold Object_is_self. simpl. apply Nat.eqb_refl.
  - do 2 eexists. reflexivity.
Qed.

(** ** The spinner components *)

Lemma quasarComponentRE_match_spec (s : string) :
  quasarComponentRE_match s = true
  <-> (exists c r, s = String "Q" (String c r) /\ isUpperAZ c = true)
      \/ (exists r, s = "q-" ++ r).
Proof.
  split.
  - intro H. destruct s as [|a [|b r]]; simpl in H; try discriminate.
    + destruct a as [[] [] [] [] [] [] [] []]; discriminate.
    + destruct a as [[] [] [] [] [] [] [] []]; try discriminate.
      * right. destruct b as [[] [] [] [] [] [] [] []]; try discriminate.
        now exists r.
      * left. now exists b, r.
  - intros [[c [r [-> H]]] | [r ->]]; [exact H | reflexivity].
Qed.

Lemma In_pushSpinner (section : option prim) (l : list prim) (v : prim) :
  In v l
  \/ (section = Some v /\ quasarComponentRE_test v = true) ->
  In v (pushSpinner section l).
Proof.
  intros [H | [-> E]]; unfold pushSpinner.
  - destruct section as [w|]; [|exact H].
    destruct (quasarComponentRE_test w); [|exact H].
    apply in_or_app. now left.
  - rewrite E. apply in_or_app. right. simpl. now left.
Qed.

Lemma devServerStage_framework (e : env) (ctx : context) (opts : options)
    (f : bool) (cfg cfg' : conf) (s s' : state) :
  devServerStage e ctx opts f cfg s = Ok (Some cfg') s' ->
  framework cfg' = framework cfg.
Proof.
  destruct (dev ctx && negb (mode_bex ctx)) eqn:G.
  - rewrite (devServerStage_on _ _ _ _ _ _ G).
    destruct (cachedTo s (requested ctx opts cfg)) as [to|].
    + intro H. inversion H. reflexivity.
    + rewrite negotiate_unfold.
      destruct (if verifyAddress opts then _ else _) as [[t|] s1| s1 | s1];
        try discriminate.
      * intro H. inversion H. reflexivity.
      * destruct f; discriminate.
  - rewrite (devServerStage_off _ _ _ _ _ _ G). intro H. inversion H. reflexivity.
Qed.

Lemma finishConfig_framework (e : env) (ctx : context) (f : bool)
    (cfg cfg' : conf) (s s' : state) :
  finishConfig e ctx f cfg s = Ok (Some cfg') s' ->
  framework cfg' = frameworkLists (framework cfg).
Proof.
  destruct (listsStage_returns cfg) as [c [b [_ [_ Hl]]]].
  unfold finishConfig. unfold bind at 1. rewrite Hl.
  destruct (negb (appFilesValidations e)).
  - destruct f; discriminate.
  - unfold bind at 1.
    match goal with
    | |- context [if mode_ssr ctx then ?m else ?n] =>
        assert (Hs : exists cfg2, (if mode_ssr ctx then m else n) s = Ok cfg2 s
                                  /\ framework cfg2 = frameworkLists (framework cfg))
    end.
    { destruct (mode_ssr ctx).
      - match goal with
        | |- context [parseAssetsField ?p ?l] =>
            destruct (parseAssetsField_returns p l) as [m [_ Hm]]
        end.
        eexists. unfold bind. rewrite Hm. split; reflexivity.
      - eexists. split; reflexivity. }
    destruct Hs as [cfg2 [Hs Hfw]]. rewrite Hs.
    destruct (mode_pwa ctx cfg2).
    + destruct (negb (includes_str _ _)).
      * destruct f; discriminate.
      * intro H. inversion H. subst. exact Hfw.
    + intro H. inversion H. subst. exact Hfw.
Qed.

Lemma computeConfig_framework (e : env) (ctx : context) (opts : options)
    (f : bool) (v : jsval) (raw cfg : conf) (s s' : state) :
  extendQuasarConf e (merge_defaults e v) = Some raw ->
  computeConfig e ctx opts (Callable (Returns v)) f s = Ok (Some cfg) s' ->
  framework cfg = frameworkLists (framework raw).
Proof.
  intros He H. destruct (Object_is_self v) eqn:Ho.
  - rewrite (computeConfig_object e ctx opts v f Ho),
            (normalize_extended e ctx opts v f s raw He), deriveConfig_unfold in H.
    destruct (devServerStage e ctx opts f (withSsrDefaults ctx raw) (afterRemove s))
      as [[c|] s1| s1 | s1] eqn:Hd; try discriminate.
    rewrite (finishConfig_framework _ _ _ _ _ _ _ H),
            (devServerStage_framework _ _ _ _ _ _ _ _ Hd).
    unfold withSsrDefaults. destruct (mode_ssr ctx); reflexivity.
  - rewrite (computeConfig_notObject e ctx opts v f s Ho) in H.
    destruct f; discriminate.
Qed.

(** C10. The component pattern accepts the strings that start with Q and
    an upper-case letter, or with q-. A loading or notify spinner that is
    such a string is appended to the framework components before they are
    deduplicated, so the deduplicated list contains it, and so does the
    configuration [#computeConfig] returns. *)
Theorem spinner_component_included :
  (forall s, quasarComponentRE_match s = true
             <-> (exists c r, s = String "Q" (String c r) /\ isUpperAZ c = true)
                 \/ (exists r, s = "q-" ++ r))
  /\ (forall s, quasarComponentRE_test (PStr s) = quasarComponentRE_match s)
  /\ (forall f s,
        fw_loading f = Some (PStr s) \/ fw_notify f = Some (PStr s) ->
        quasarComponentRE_match s = true ->
        fw_components (frameworkLists f)
        = getUniqueArray
            (pushSpinner (fw_notify f) (pushSpinner (fw_loading f) (fw_components f)))
        /\ In (PStr s)
              (pushSpinner (fw_notify f) (pushSpinner (fw_loading f) (fw_components f)))
        /\ In (PStr s) (fw_components (frameworkLists f))
        /\ NoDup (fw_components (frameworkLists f)))
  /\ (forall e ctx opts fail v raw cfg st st' s,
        extendQuasarConf e (merge_defaults e v) = Some raw ->
        fw_loading (framework raw) = Some (PStr s)
        \/ fw_notify (framework raw) = Some (PStr s) ->
        quasarComponentRE_match s = true ->
        computeConfig e ctx opts (Callable (Returns v)) fail st = Ok (Some cfg) st' ->
        In (PStr s) (fw_components (framework cfg))).
Proof.
  assert (Hin : forall f s,
             fw_loading f = Some (PStr s) \/ fw_notify f = Some (PStr s) ->
             quasarComponentRE_match s = true ->
             In (PStr s)
                (pushSpinner (fw_notify f) (pushSpinner (fw_loading f) (fw_components f)))).
  { intros f s Hs Hm. apply In_pushSpinner. destruct Hs as [Hl | Hn].
    - left. apply In_pushSpinner. right. split; [exact Hl | exact Hm].
    - right. split; [exact Hn | exact Hm]. }
  split; [|split; [|split]].
  - apply quasarComponentRE_match_spec.
  - reflexivity.
  - intros f s Hs Hm. split; [reflexivity|]. split; [now apply Hin|].
    unfold frameworkLists; simpl. rewrite getUniqueArray_firstOccurrences.
    split; [apply firstOccurrences_In; now apply Hin | apply firstOccurrences_NoDup].
  - intros e ctx opts fail v raw cfg st st' s He Hs Hm H.
    rewrite (computeConfig_framework _ _ _ _ _ _ _ _ _ He H).
    unfold frameworkLists; simpl. rewrite getUniqueArray_firstOccurrences.
    apply firstOccurrences_In. now apply Hin.
Qed.

Lemma spinner_component_included_witness :
  In (PStr "QSpinnerGears")
     (fw_components
        (frameworkLists
           {| fw_components := [PStr "QBtn"; PStr "QSpinnerGears"; PStr "QBtn"];
              fw_directives := []; fw_plugins := [PStr "Loading"];
              fw_loading := Some (PStr "QSpinnerGears");
              fw_notify := Some PUndefined |})).
Proof.
  apply (proj1 (proj2 (proj2 spinner_component_included))
           {| fw_components := [PStr "QBtn"; PStr "QSpinnerGears"; PStr "QBtn"];
              fw_directives := []; fw_plugins := [PStr "Loading"];
              fw_loading := Some (PStr "QSpinnerGears");
              fw_notify := Some PUndefined |} "QSpinnerGears").
  - left. reflexivity.
  - reflexivity.
Defined.

(* ===================================================================== *)
(** * More properties of the file *)
(* ===================================================================== *)

(** ** The public path, again *)

Lemma urlRegex_test_slash (s : string) : urlRegex_test ("/" ++ s) = false.
Proof. unfold urlRegex_test, startsWith. simpl. reflexivity. Qed.

Lemma startsWith_slash (s : string) : startsWith ("/" ++ s) "/" = true.
Proof. unfold startsWith. simpl. destruct s; reflexivity. Qed.

Lemma startsWith_slash_not_url (s : string) :
  startsWith s "/" = true -> urlRegex_test s = false.
Proof.
  destruct s as [|c r]; [discriminate|]. unfold startsWith. cbn [prefix].
  destruct (ascii_dec "/"%char c) as [<-|]; [|intro; discriminate].
  intros _. apply (urlRegex_test_slash r).
Qed.

Lemma closed_fixed (s : string) : endsWith s "/" = true -> closed s = s.
Proof. intro H. unfold closed. now rewrite H. Qed.

Lemma endsWith_nonempty (s p : string) :
  p <> "" -> endsWith s p = true -> s <> "".
Proof.
  intros Hp H E. subst. simpl in H.
  destruct p; [contradiction | discriminate].
Qed.

Lemma formatPublicPath_endsWith (p : option string) :
  endsWith (formatPublicPath p) "/" = true.
Proof.
  destruct p as [p|]; [|reflexivity].
  destruct (string_dec p "") as [->|Hp]; [reflexivity|].
  rewrite (formatPublicPath_set p Hp).
  pose proof (closed_endsWith p) as Hc.
  destruct (urlRegex_test (closed p)); [assumption|].
  destruct (startsWith (closed p) "/"); [assumption|].
  now apply endsWith_cons.
Qed.

(** X1. [formatPublicPath] is idempotent, whatever it is given: its result
    always ends with a slash, and formatting the result again returns it;
    the same goes for the public path [#computeConfig] assigns, in every
    mode. *)
Theorem formatPublicPath_idempotent :
  (forall p, endsWith (formatPublicPath p) "/" = true)
  /\ (forall p, formatPublicPath (Some (formatPublicPath p)) = formatPublicPath p)
  /\ (forall m p,
        build_publicPath_of m (Some (build_publicPath_of m p))
        = build_publicPath_of m p).
Proof.
  assert (Hidem : forall p, formatPublicPath (Some (formatPublicPath p))
                            = formatPublicPath p).
  { intro p. pose proof (formatPublicPath_endsWith p) as He.
    assert (Hne : formatPublicPath p <> "")
      by (apply (endsWith_nonempty _ "/"); [discriminate | exact He]).
    rewrite (formatPublicPath_set _ Hne), (closed_fixed _ He).
    destruct p as [p|]; [|reflexivity].
    destruct (string_dec p "") as [->|Hp]; [reflexivity|].
    rewrite (formatPublicPath_set p Hp).
    destruct (urlRegex_test (closed p)) eqn:Hu; [now rewrite Hu|].
    destruct (startsWith (closed p) "/") eqn:Hs.
    - now rewrite Hu, Hs.
    - now rewrite urlRegex_test_slash, startsWith_slash. }
  split; [apply formatPublicPath_endsWith|]. split; [exact Hidem|].
  intros m p. unfold build_publicPath_of.
  destruct (includes_mode [Spa; Pwa; Ssr] m) eqn:Hw.
  - rewrite !andb_true_r.
    destruct (match p with Some p0 => negb (p0 =? "")%string | None => false end) eqn:Hset.
    + pose proof (formatPublicPath_endsWith p) as He.
      assert (Hne : formatPublicPath p <> "")
        by (apply (endsWith_nonempty _ "/"); [discriminate | exact He]).
      apply String.eqb_neq in Hne. rewrite Hne. simpl. apply Hidem.
    + destruct m; simpl in *; try discriminate; reflexivity.
  - rewrite !andb_false_r.
    destruct (includes_mode [Capacitor; Cordova; Electron; Bex] m); reflexivity.
Qed.

(** ** Escaping the product name and description *)

Lemma chars_removeChars (inClass : ascii -> bool) (s : string) :
  chars (removeChars inClass s) = filter (fun c => negb (inClass c)) (chars s).
Proof.
  induction s as [|c r IH]; simpl; [reflexivity|].
  destruct (inClass c); simpl; now rewrite IH.
Qed.

Lemma chars_inj (s t : string) : chars s = chars t -> s = t.
Proof.
  revert t. induction s as [|c r IH]; intros [|d t] H; simpl in H;
    try discriminate; [reflexivity|].
  inversion H. f_equal. now apply IH.
Qed.

Lemma removeChars_clean (inClass : ascii -> bool) (s : string) :
  forallb (fun c => negb (inClass c)) (chars s) = true -> removeChars inClass s = s.
Proof.
  intro H. apply chars_inj. rewrite chars_removeChars.
  now apply forallb_filter_id.
Qed.

(** X2. What [escapeHTMLTagContent] returns holds no angle bracket and what
    [escapeHTMLAttribute] returns holds no double quote; every other
    character of the input is kept, in order; a string without such
    characters comes back as it is, so escaping twice is escaping once;
    undefined and the empty string give the empty string. *)
Theorem escapeHTML_removes_delimiters :
  (forall str, chars (escapeHTMLTagContent str)
               = filter (fun c => negb (isAngle c)) (chars (str_of str)))
  /\ (forall str, chars (escapeHTMLAttribute str)
                  = filter (fun c => negb (isDoubleQuote c)) (chars (str_of str)))
  /\ (forall str c, In c (chars (escapeHTMLTagContent str)) ->
                    c <> "<"%char /\ c <> ">"%char)
  /\ (forall str c, In c (chars (escapeHTMLAttribute str)) -> c <> ascii_of_nat 34)
  /\ (forall str, escapeHTMLTagContent (Some (escapeHTMLTagContent str))
                  = escapeHTMLTagContent str)
  /\ (forall str, escapeHTMLAttribute (Some (escapeHTMLAttribute str))
                  = escapeHTMLAttribute str)
  /\ escapeHTMLTagContent None = "" /\ escapeHTMLAttribute None = "".
Proof.
  assert (Hshape : forall cls str,
             chars (if opt_truthy_str str then removeChars cls (str_of str) else "")
             = filter (fun c => negb (cls c)) (chars (str_of str))).
  { intros cls [s|]; simpl; [|reflexivity].
    unfold str_truthy. destruct (s =? "")%string eqn:E; simpl.
    - apply String.eqb_eq in E. now subst.
    - apply chars_removeChars. }
  assert (Hidem : forall cls str,
             let r := if opt_truthy_str str then removeChars cls (str_of str) else "" in
             (if opt_truthy_str (Some r) then removeChars cls r else "") = r).
  { intros cls str r. simpl. unfold str_truthy.
    destruct (r =? "")%string eqn:E; simpl.
    - apply String.eqb_eq in E. now rewrite E.
    - apply removeChars_clean. unfold r. rewrite Hshape.
      apply forallb_forall. intros c Hc. now apply filter_In in Hc. }
  split; [intro; apply Hshape|]. split; [intro; apply Hshape|].
  split; [|split; [|split; [|split; [|split; reflexivity]]]].
  - intros str c Hc. unfold escapeHTMLTagContent in Hc. rewrite Hshape in Hc.
    apply filter_In in Hc. destruct Hc as [_ Hc]. unfold isAngle in Hc.
    apply negb_true_iff, orb_false_iff in Hc. destruct Hc as [H1 H2].
    split; intro E; subst; discriminate.
  - intros str c Hc. unfold escapeHTMLAttribute in Hc. rewrite Hshape in Hc.
    apply filter_In in Hc. destruct Hc as [_ Hc]. unfold isDoubleQuote in Hc.
    apply negb_true_iff in Hc. intro E. subst. discriminate.
  - intro str. apply (Hidem isAngle str).
  - intro str. apply (Hidem isDoubleQuote str).
Qed.

Lemma escapeHTML_removes_delimiters_witness :
  "a"%char <> "<"%char /\ "a"%char <> ">"%char.
Proof.
  apply (proj1 (proj2 (proj2 escapeHTML_removes_delimiters)) (Some "<a>") "a"%char).
  simpl. left. reflexivity.
Defined.

(** ** Deduplication and concatenation *)

Lemma Set_has_firstOccurrences (l : list prim) (v : prim) :
  Set_has (firstOccurrences l) v = Set_has l v.
Proof.
  destruct (Set_has l v) eqn:E.
  - apply Set_has_In. apply firstOccurrences_In. now apply (proj1 (Set_has_In _ _)).
  - destruct (Set_has (firstOccurrences l) v) eqn:E'; [|reflexivity].
    apply (proj1 (Set_has_In _ _)) in E'.
    apply (proj1 (firstOccurrences_In _ _)) in E'.
    apply (proj2 (Set_has_In _ _)) in E'. congruence.
Qed.

Lemma getUniqueArray_app (a b : list prim) :
  getUniqueArray (a ++ b)
  = (getUniqueArray a
       ++ filter (fun y => negb (Set_has a y)) (getUniqueArray b))%list.
Proof.
  unfold getUniqueArray at 1, Set_new. rewrite fold_left_app.
  fold (Set_new a). fold (getUniqueArray a).
  rewrite Set_fold_firstOccurrences, <- getUniqueArray_firstOccurrences.
  f_equal. apply filter_ext. intro y.
  now rewrite getUniqueArray_firstOccurrences, Set_has_firstOccurrences.
Qed.

Lemma filter_none {A} (f : A -> bool) (l : list A) :
  (forall y, In y l -> f y = false) -> filter f l = [].
Proof.
  induction l as [|x r IH]; intro H; simpl; [reflexivity|].
  rewrite (H x (or_introl eq_refl)). apply IH. intros y Hy. apply H. now right.
Qed.

Lemma filter_length_le {A} (f : A -> bool) (l : list A) :
  (List.length (filter f l) <= List.length l)%nat.
Proof.
  induction l as [|x r IH]; simpl; [lia|]. destruct (f x); simpl; lia.
Qed.

Lemma firstOccurrences_length (l : list prim) :
  (List.length (firstOccurrences l) <= List.length l)%nat.
Proof.
  induction l as [|x r IH]; simpl; [lia|].
  pose proof (filter_length_le (fun y => negb (strict_eq y x)) (firstOccurrences r)).
  lia.
Qed.

(** X3. Deduplicating a concatenation keeps the deduplicated first list and
    appends, in order, the entries of the deduplicated second list that the
    first does not hold. So entries pushed onto a list that already holds
    them are dropped, a list appended to itself collapses, membership is
    untouched (what [plugins.includes('LoadingBar')] finds after
    deduplication it would have found before) and the list never grows. *)
Theorem getUniqueArray_append :
  (forall a b,
      getUniqueArray (a ++ b)
      = (getUniqueArray a
           ++ filter (fun y => negb (Set_has a y)) (getUniqueArray b))%list)
  /\ (forall a b, (forall x, In x b -> In x a) ->
        getUniqueArray (a ++ b) = getUniqueArray a)
  /\ (forall l, getUniqueArray (l ++ l) = getUniqueArray l)
  /\ (forall l v, Set_has (getUniqueArray l) v = Set_has l v)
  /\ (forall l, (List.length (getUniqueArray l) <= List.length l)%nat).
Proof.
  assert (Habs : forall a b, (forall x, In x b -> In x a) ->
                             getUniqueArray (a ++ b) = getUniqueArray a).
  { intros a b H. rewrite getUniqueArray_app.
    rewrite filter_none; [apply app_nil_r|].
    intros y Hy. rewrite getUniqueArray_firstOccurrences in Hy.
    apply (proj1 (firstOccurrences_In _ _)) in Hy.
    apply H in Hy. apply (proj2 (Set_has_In _ _)) in Hy. now rewrite Hy. }
  split; [apply getUniqueArray_app|]. split; [exact Habs|].
  split; [intro l; apply Habs; auto|]. split.
  - intros l v. rewrite getUniqueArray_firstOccurrences.
    apply Set_has_firstOccurrences.
  - intro l. rewrite getUniqueArray_firstOccurrences. apply firstOccurrences_length.
Qed.

Lemma getUniqueArray_append_witness :
  getUniqueArray ([PStr "Notify"; PStr "Dialog"] ++ [PStr "Dialog"; PStr "Notify"])
  = getUniqueArray [PStr "Notify"; PStr "Dialog"].
Proof.
  apply (proj1 (proj2 getUniqueArray_append)).
  intros x [<- | [<- | []]]; simpl; auto.
Defined.

Lemma Set_has_map_firstByPath (l : list object) (v : prim) :
  Set_has (map path_of (firstByPath l)) v = Set_has (map path_of l) v.
Proof.
  destruct (Set_has (map path_of l) v) eqn:E.
  - apply Set_has_In. apply firstByPath_paths. now apply (proj1 (Set_has_In _ _)).
  - destruct (Set_has (map path_of (firstByPath l)) v) eqn:E'; [|reflexivity].
    apply (proj1 (Set_has_In _ _)) in E'.
    apply (proj1 (firstByPath_paths _ _)) in E'.
    apply (proj2 (Set_has_In _ _)) in E'. congruence.
Qed.

Lemma firstByPath_app (x y : list object) :
  firstByPath (x ++ y)
  = (firstByPath x
       ++ filter (fun o => negb (Set_has (map path_of x) (path_of o))) (firstByPath y))%list.
Proof.
  induction x as [|a r IH]; simpl.
  - induction (firstByPath y) as [|b t IHt]; simpl; [reflexivity | now rewrite <- IHt].
  - f_equal. rewrite IH, filter_app. f_equal.
    rewrite filter_filter. apply filter_ext. intro o.
    unfold Set_has. simpl. rewrite negb_orb. apply andb_comm.
Qed.

Lemma Array_map_app {A B} (f : A -> option B) (l1 l2 : list A) (o1 o2 : list B) :
  Array_map f l1 = Some o1 -> Array_map f l2 = Some o2 ->
  Array_map f (l1 ++ l2) = Some (o1 ++ o2)%list.
Proof.
  revert o1. induction l1 as [|x r IH]; intros o1 H1 H2; simpl in *.
  - inversion H1. exact H2.
  - destruct (f x) as [y|]; [|discriminate].
    destruct (Array_map f r) as [ys|] eqn:E; [|discriminate].
    inversion H1. now rewrite (IH ys eq_refl H2).
Qed.

(** X4. Parsing a concatenation of asset lists keeps what the first list
    parses to and appends, in order, the entries of the second list's
    result whose path the first result does not hold: an entry added after
    one of the same path, in whatever form, is dropped, and a list appended
    to itself parses as the list. *)
Theorem parseAssets_append :
  (forall prefix a b, exists oa ob,
      parseAssets prefix a = Some oa
      /\ parseAssets prefix b = Some ob
      /\ parseAssets prefix (a ++ b)
         = Some (oa ++ filter (fun o => negb (Set_has (map path_of oa) (path_of o))) ob)%list)
  /\ (forall prefix l, parseAssets prefix (l ++ l) = parseAssets prefix l)
  /\ parseAssets "boot" [AssetPrim (PStr "axios");
                         AssetObj [("path", PStr "axios"); ("server", PBool false)]]
     = Some [[("path", PStr "boot/axios")]].
Proof.
  assert (Happ : forall prefix a b, exists oa ob,
             parseAssets prefix a = Some oa
             /\ parseAssets prefix b = Some ob
             /\ parseAssets prefix (a ++ b)
                = Some (oa ++ filter (fun o => negb (Set_has (map path_of oa) (path_of o)))
                                ob)%list).
  { intros prefix a b.
    destruct (Array_map_total (parseAssetProperty prefix) (filter asset_truthy a))
      as [pa [Ea _]];
      [intros x Hx; apply filter_In in Hx; now apply parseAssetProperty_truthy|].
    destruct (Array_map_total (parseAssetProperty prefix) (filter asset_truthy b))
      as [pb [Eb _]];
      [intros x Hx; apply filter_In in Hx; now apply parseAssetProperty_truthy|].
    unfold parseAssets. rewrite filter_app, (Array_map_app _ _ _ _ _ Ea Eb), Ea, Eb.
    rewrite !Array_filter_uniquePathFilter, filter_app, firstByPath_app.
    do 2 eexists. split; [reflexivity|]. split; [reflexivity|].
    do 2 f_equal. apply filter_ext. intro o. now rewrite Set_has_map_firstByPath. }
  split; [exact Happ|]. split; [|reflexivity].
  intros prefix l. destruct (Happ prefix l l) as [oa [ob [Ea [Eb E]]]].
  rewrite E, Ea. f_equal. rewrite Ea in Eb. inversion Eb; subst ob.
  rewrite filter_none; [apply app_nil_r|].
  intros o Ho. apply negb_false_iff, Set_has_In, in_map. exact Ho.
Qed.

(** ** The transient file's name *)

Lemma chars_app (a b : string) : chars (a ++ b) = (chars a ++ chars b)%list.
Proof. induction a as [|c r IH]; simpl; [reflexivity | now rewrite IH]. Qed.

Lemma append_inv_tail (a b t : string) : a ++ t = b ++ t -> a = b.
Proof.
  intro H. apply chars_inj. apply (f_equal chars) in H.
  rewrite !chars_app in H. now apply app_inv_tail in H.
Qed.

Lemma append_inv_head (h a b : string) : h ++ a = h ++ b -> a = b.
Proof. induction h as [|c r IH]; simpl; intro H; [exact H|]. inversion H. auto. Qed.

Lemma toString_PNum_inj (a b : Z) : toString (PNum a) = toString (PNum b) -> a = b.
Proof.
  simpl. intro H. apply DecimalZ.to_int_inj.
  assert (Hn : forall z, Z.to_int z <> Decimal.Pos Decimal.Nil
                         /\ Z.to_int z <> Decimal.Neg Decimal.Nil).
  { intros [|p|p]; simpl; split; try discriminate;
      intro E; inversion E as [E'];
      now apply DecimalPos.Unsigned.to_uint_nonnil in E'. }
  assert (Hi : forall z, NilZero.int_of_string (NilZero.string_of_int (Z.to_int z))
                         = Some (Z.to_int z)).
  { intro z. destruct (Hn z). now apply NilZero.isi. }
  pose proof (Hi a) as Ha. rewrite H, Hi in Ha. now inversion Ha.
Qed.

Lemma str_app_assoc (a b c : string) : (a ++ b) ++ c = a ++ (b ++ c).
Proof. induction a as [|x r IH]; simpl; [reflexivity | now rewrite IH]. Qed.

Lemma str_app_length (a b : string) :
  String.length (a ++ b) = (String.length a + String.length b)%nat.
Proof. induction a as [|x r IH]; simpl; [reflexivity | now rewrite IH]. Qed.

(** X5. The transient file of a session is never the configuration file
    itself (what [fse.removeSync] deletes is not the user's file): its name
    is the configuration file's name with a suffix, it ends with the
    extension of the output format (mjs for esm, the format otherwise),
    which for esm and cjs is the first extension esbuild resolves, and two
    sessions on the same file started at different times get different
    names. *)
Theorem tempFileName_fresh :
  (forall f fmt now, tempFileName f fmt now <> f)
  /\ (forall f fmt now, startsWith (tempFileName f fmt now) f = true)
  /\ (forall f fmt now,
        endsWith (tempFileName f fmt now) ("." ++ quasarConfigFileExtension fmt) = true)
  /\ (forall fmt, fmt = "esm" \/ fmt = "cjs" ->
        firstResolveExtension fmt = "." ++ quasarConfigFileExtension fmt)
  /\ (forall f fmt now now',
        now <> now' -> tempFileName f fmt now <> tempFileName f fmt now').
Proof.
  split; [|split; [|split; [|split]]].
  - intros f fmt now H. unfold tempFileName in H.
    apply (f_equal String.length) in H. rewrite str_app_length in H.
    simpl in H. lia.
  - intros f fmt now. unfold tempFileName, startsWith.
    induction f as [|c r IH]; simpl.
    + reflexivity.
    + destruct (ascii_dec c c); [exact IH | contradiction].
  - intros f fmt now. unfold tempFileName.
    replace (f ++ ".temporary.compiled." ++ toString (PNum now) ++ "."
               ++ quasarConfigFileExtension fmt)
      with ((f ++ ".temporary.compiled." ++ toString (PNum now))
              ++ ("." ++ quasarConfigFileExtension fmt))
      by (now rewrite !str_app_assoc).
    apply endsWith_snoc.
  - intros fmt [-> | ->]; reflexivity.
  - intros f fmt now now' Hne H. apply Hne. unfold tempFileName in H.
    apply append_inv_head in H. simpl in H.
    repeat match type of H with String _ _ = String _ _ => inversion H as [H']; clear H; rename H' into H end.
    apply append_inv_tail in H. now apply toString_PNum_inj.
Qed.

Lemma tempFileName_fresh_witness :
  firstResolveExtension "esm" = "." ++ quasarConfigFileExtension "esm"
  /\ tempFileName "/app/quasar.config.js" "esm" 1700000000000
     <> tempFileName "/app/quasar.config.js" "esm" 1700000000001.
Proof.
  split.
  - apply (proj1 (proj2 (proj2 (proj2 tempFileName_fresh)))). now left.
  - apply (proj2 (proj2 (proj2 (proj2 tempFileName_fresh)))). discriminate.
Defined.

(** ** The external address of device modes *)

Lemma externalHost_cases (e : env) (host : string) (mode : modeName) (s : state) :
  externalHost e host mode s
  = if needsExternalHost e host mode
    then if opt_truthy_str (cachedExternalHost s)
         then Ok (str_of (cachedExternalHost s)) s
         else Ok (getExternalIP e)
                (set_cachedExternalHost (push_event s GetExternalIP)
                   (Some (getExternalIP e)))
    else Ok host s.
Proof.
  unfold externalHost, needsExternalHost, bind, get, emit, modify, ret.
  destruct (_ && _); [|reflexivity].
  destruct (cachedExternalHost s) as [c|]; simpl; [|reflexivity].
  destruct (str_truthy c); reflexivity.
Qed.

(** X6. The external address is looked up at most once per process: a
    device mode asking for no host or a local host gets the cached address
    when there is one, with no lookup and no change of state, and otherwise
    the address is looked up, cached and returned; after a lookup that gave
    a non-empty address every later call answers from the cache, whatever
    the collaborator would answer then. Any other request keeps its host
    and does nothing. *)
Theorem externalHost_looked_up_once :
  (forall e host mode s,
      needsExternalHost e host mode = false ->
      externalHost e host mode s = Ok host s)
  /\ (forall e host mode s h,
        needsExternalHost e host mode = true ->
        cachedExternalHost s = Some h -> h <> "" ->
        externalHost e host mode s = Ok h s)
  /\ (forall e host mode s,
        needsExternalHost e host mode = true ->
        opt_truthy_str (cachedExternalHost s) = false ->
        externalHost e host mode s
        = Ok (getExternalIP e)
            (set_cachedExternalHost (push_event s GetExternalIP)
               (Some (getExternalIP e))))
  /\ (forall e1 e2 host1 host2 mode1 mode2 s s1 h,
        needsExternalHost e1 host1 mode1 = true ->
        externalHost e1 host1 mode1 s = Ok h s1 -> h <> "" ->
        needsExternalHost e2 host2 mode2 = true ->
        externalHost e2 host2 mode2 s1 = Ok h s1)
  /\ (forall e host mode s h,
        cachedExternalHost s = Some h -> h <> "" ->
        exists r, externalHost e host mode s = Ok r s).
Proof.
  assert (Hhit : forall e host mode s h,
             needsExternalHost e host mode = true ->
             cachedExternalHost s = Some h -> h <> "" ->
             externalHost e host mode s = Ok h s).
  { intros e host mode s h Hn Hc Hh. rewrite externalHost_cases, Hn, Hc. simpl.
    now rewrite (proj2 (str_truthy_true h) Hh). }
  split; [|split; [exact Hhit|split; [|split]]].
  - intros e host mode s Hn. now rewrite externalHost_cases, Hn.
  - intros e host mode s Hn Hc. now rewrite externalHost_cases, Hn, Hc.
  - intros e1 e2 host1 host2 mode1 mode2 s s1 h Hn1 H1 Hh Hn2.
    apply Hhit; [exact Hn2| |exact Hh].
    rewrite externalHost_cases, Hn1 in H1.
    destruct (opt_truthy_str (cachedExternalHost s)) eqn:Ht; inversion H1; subst.
    + destruct (cachedExternalHost s1); [reflexivity | discriminate].
    + reflexivity.
  - intros e host mode s h Hc Hh. rewrite externalHost_cases, Hc. simpl.
    rewrite (proj2 (str_truthy_true h) Hh).
    destruct (needsExternalHost e host mode); eauto.
Qed.

Lemma externalHost_looked_up_once_witness :
  let e1 := sampleEnv 0 goodFactory true (OpenPort 9500) true in
  let e2 := {| compileErrors := 0; importResult := goodFactory;
               merge_defaults := fun _ => emptyConf;
               extendQuasarConf := fun c => Some c;
               findClosestOpenPort := fun _ _ => OpenPort 9500;
               getExternalIP := "10.0.0.7";
               localHostList := ["0.0.0.0"; "localhost"];
               appFilesValidations := true |} in
  externalHost e2 "localhost" Cordova
    (set_cachedExternalHost (push_event initial GetExternalIP) (Some "192.168.1.20"))
  = Ok "192.168.1.20"
      (set_cachedExternalHost (push_event initial GetExternalIP) (Some "192.168.1.20")).
Proof.
  intros e1 e2.
  apply (proj1 (proj2 (proj2 (proj2 externalHost_looked_up_once)))
           e1 e2 "" "localhost" Capacitor Cordova initial).
  - reflexivity.
  - reflexivity.
  - discriminate.
  - reflexivity.
Defined.

(** ** A negotiation that succeeds *)

(** X7. When the prober finds a port, [onAddress] returns the host it
    probed and that port, turns its flag on and leaves the negotiation
    cache alone; it warns about the port, three lines, exactly when the port
    found is not the port asked for, and says nothing otherwise. It returns
    an address in no other case. *)
Theorem onAddress_success :
  (forall e a mode s host s1 p,
      externalHost e (addr_host a) mode s = Ok host s1 ->
      findClosestOpenPort e (addr_port a) host = OpenPort p ->
      exists s',
        onAddress e a mode s = Ok (Some {| addr_host := host; addr_port := Some p |}) s'
        /\ addressRunning s' = true
        /\ address s' = address s
        /\ trace s'
           = ((if optZ_eqb (addr_port a) (Some p) then [] else portChanged p)
                ++ Probe (addr_port a) host :: trace s1)%list)
  /\ (forall e a mode s t s',
        onAddress e a mode s = Ok (Some t) s' ->
        exists host s1 p,
          externalHost e (addr_host a) mode s = Ok host s1
          /\ findClosestOpenPort e (addr_port a) host = OpenPort p
          /\ t = {| addr_host := host; addr_port := Some p |}).
Proof.
  split.
  - intros e a mode s host s1 p Hext Hp.
    pose proof (onAddress_sameAddress e a mode s) as Haddr.
    rewrite (onAddress_unfold e a mode s s1 host Hext), Hp in *.
    destruct (optZ_eqb (addr_port a) (Some p)) eqn:E; simpl in *.
    + apply optZ_eqb_eq in E. rewrite E in *.
      eexists. split; [reflexivity|]. repeat split. exact Haddr.
    + eexists. split; [reflexivity|]. repeat split. exact Haddr.
  - intros e a mode s t s' H.
    exact (proj2 (onAddress_success_sets_flag _ _ _ _ _ _ H)).
Qed.

Lemma onAddress_success_witness :
  exists s',
    onAddress (sampleEnv 0 goodFactory true (OpenPort 9001) true)
      {| addr_host := "0.0.0.0"; addr_port := Some 9000 |} Spa initial
    = Ok (Some {| addr_host := "0.0.0.0"; addr_port := Some 9001 |}) s'
    /\ addressRunning s' = true
    /\ address s' = address initial
    /\ trace s' = (portChanged 9001 ++ [Probe (Some 9000) "0.0.0.0"])%list.
Proof.
  apply (proj1 onAddress_success
           (sampleEnv 0 goodFactory true (OpenPort 9001) true)
           {| addr_host := "0.0.0.0"; addr_port := Some 9000 |} Spa initial
           "0.0.0.0" initial 9001); reflexivity.
Defined.

(** ** The requested address *)

Lemma defaultPortMapping_lower (m : modeName) (p : Z) :
  defaultPortMapping m = Some p -> 9000 <= p.
Proof. destruct m; simpl; intro H; inversion H; lia. Qed.

(** X8. In every mode but bex the address the dev-server block asks for is
    well formed: the host is never empty and the port is a number other
    than zero. When neither the command line nor the configuration gives a
    port, the ports asked for in two modes are equal only if the mode is
    the same and ssr-with-pwa is the same: the defaults never collide. *)
Theorem requested_address_well_formed :
  (forall opts cfg, requestedHost opts cfg <> "")
  /\ (forall ctx opts cfg, ctx_modeName ctx <> Bex ->
        exists p, requestedPort ctx opts cfg = Some p /\ p <> 0)
  /\ (forall ctx1 ctx2 opts1 opts2 cfg1 cfg2,
        ctx_modeName ctx1 <> Bex -> ctx_modeName ctx2 <> Bex ->
        opt_truthy_num (opt_port opts1) = false ->
        opt_truthy_num (opt_port opts2) = false ->
        opt_truthy_num (ds_port (devServer cfg1)) = false ->
        opt_truthy_num (ds_port (devServer cfg2)) = false ->
        requestedPort ctx1 opts1 cfg1 = requestedPort ctx2 opts2 cfg2 ->
        ctx_modeName ctx1 = ctx_modeName ctx2
        /\ mode_ssr ctx1 && ssr_pwa_true cfg1 = mode_ssr ctx2 && ssr_pwa_true cfg2).
Proof.
  split; [|split].
  - intros opts cfg. unfold requestedHost.
    destruct (opt_host opts) as [h|]; simpl.
    + destruct (str_truthy h) eqn:E; [now apply str_truthy_true|].
      destruct (ds_host (devServer cfg)) as [c|]; simpl; [|discriminate].
      destruct (str_truthy c) eqn:E'; [now apply str_truthy_true | discriminate].
    + destruct (ds_host (devServer cfg)) as [c|]; simpl; [|discriminate].
      destruct (str_truthy c) eqn:E'; [now apply str_truthy_true | discriminate].
  - intros ctx opts cfg Hb. unfold requestedPort.
    destruct (opt_port opts) as [p|]; simpl.
    + destruct (negb (p =? 0)) eqn:E.
      * exists p. split; [reflexivity | now apply num_truthy_true].
      * destruct (ds_port (devServer cfg)) as [q|]; simpl.
        -- destruct (negb (q =? 0)) eqn:E'; simpl.
           ++ exists q. split; [reflexivity | now apply num_truthy_true].
           ++ destruct (defaultPortMapping (ctx_modeName ctx)) as [d|] eqn:Ed.
              ** apply defaultPortMapping_lower in Ed. eexists. split; [reflexivity|].
                 destruct (_ && _); lia.
              ** destruct (ctx_modeName ctx); try discriminate. contradiction.
        -- destruct (defaultPortMapping (ctx_modeName ctx)) as [d|] eqn:Ed.
           ++ apply defaultPortMapping_lower in Ed. eexists. split; [reflexivity|].
              destruct (_ && _); lia.
           ++ destruct (ctx_modeName ctx); try discriminate. contradiction.
    + destruct (ds_port (devServer cfg)) as [q|]; simpl.
      * destruct (negb (q =? 0)) eqn:E'; simpl.
        -- exists q. split; [reflexivity | now apply num_truthy_true].
        -- destruct (defaultPortMapping (ctx_modeName ctx)) as [d|] eqn:Ed.
           ++ apply defaultPortMapping_lower in Ed. eexists. split; [reflexivity|].
              destruct (_ && _); lia.
           ++ destruct (ctx_modeName ctx); try discriminate. contradiction.
      * destruct (defaultPortMapping (ctx_modeName ctx)) as [d|] eqn:Ed.
        -- apply defaultPortMapping_lower in Ed. eexists. split; [reflexivity|].
           destruct (_ && _); lia.
        -- destruct (ctx_modeName ctx); try discriminate. contradiction.
  - intros ctx1 ctx2 opts1 opts2 cfg1 cfg2 Hb1 Hb2 Ho1 Ho2 Hc1 Hc2.
    unfold requestedPort. rewrite Ho1, Ho2, Hc1, Hc2. simpl. unfold mode_ssr.
    destruct (ctx_modeName ctx1), (ctx_modeName ctx2); simpl;
      try contradiction;
      destruct (ssr_pwa_true cfg1), (ssr_pwa_true cfg2); simpl;
      intro H; inversion H; split; reflexivity.
Qed.

Lemma requested_address_well_formed_witness :
  exists p, requestedPort spaDev (noCli true) emptyConf = Some p /\ p <> 0.
Proof.
  apply (proj1 (proj2 requested_address_well_formed)). discriminate.
Defined.

(** ** What [#computeConfig] returns *)

Lemma devServerStage_sets_devServer (e : env) (ctx : context) (opts : options)
    (f : bool) (cfg cfg' : conf) (s s' : state) :
  devServerStage e ctx opts f cfg s = Ok (Some cfg') s' ->
  exists d, cfg' = set_devServer cfg d.
Proof.
  destruct (dev ctx && negb (mode_bex ctx)) eqn:G.
  - rewrite (devServerStage_on _ _ _ _ _ _ G).
    destruct (cachedTo s (requested ctx opts cfg)) as [to|].
    + intro H. inversion H. eexists. reflexivity.
    + rewrite negotiate_unfold.
      destruct (if verifyAddress opts then _ else _) as [[t|] s1| s1 | s1];
        try discriminate.
      * intro H. inversion H. eexists. reflexivity.
      * destruct f; discriminate.
  - rewrite (devServerStage_off _ _ _ _ _ _ G). intro H. inversion H.
    exists (devServer cfg'). now destruct cfg'.
Qed.

Lemma computeConfig_Some_inv (e : env) (ctx : context) (opts : options)
    (fn : exported) (f : bool) (s s' : state) (cfg : conf) :
  computeConfig e ctx opts fn f s = Ok (Some cfg) s' ->
  exists v raw cfg0 s0,
    fn = Callable (Returns v)
    /\ Object_is_self v = true
    /\ extendQuasarConf e (merge_defaults e v) = Some raw
    /\ devServerStage e ctx opts f (withSsrDefaults ctx raw) (afterRemove s)
       = Ok (Some cfg0) s0
    /\ finishConfig e ctx f cfg0 s0 = Ok (Some cfg) s'.
Proof.
  destruct fn as [v|[|v]].
  - rewrite computeConfig_notCallable. destruct f; discriminate.
  - rewrite computeConfig_throws. destruct f; discriminate.
  - destruct (Object_is_self v) eqn:Ho.
    + rewrite (computeConfig_object e ctx opts v f Ho).
      destruct (extendQuasarConf e (merge_defaults e v)) as [raw|] eqn:He.
      * rewrite (normalize_extended e ctx opts v f s raw He), deriveConfig_unfold.
        destruct (devServerStage e ctx opts f (withSsrDefaults ctx raw) (afterRemove s))
          as [[c|] s1| s1 | s1] eqn:Hd; try discriminate.
        intro H. exists v, raw, c, s1. auto.
      * rewrite (normalize_extension_error e ctx opts v f s He). destruct f; discriminate.
    + rewrite (computeConfig_notObject e ctx opts v f s Ho). destruct f; discriminate.
Qed.

Lemma finishConfig_Some_inv (e : env) (ctx : context) (f : bool)
    (cfg0 cfg : conf) (s s' : state) :
  finishConfig e ctx f cfg0 s = Ok (Some cfg) s' ->
  s' = s
  /\ appFilesValidations e = true
  /\ (exists c, parseAssets "src/css" (css cfg0) = Some c /\ css cfg = map AssetObj c)
  /\ (exists b, parseAssets "boot" (boot cfg0) = Some b /\ boot cfg = map AssetObj b)
  /\ extras cfg = getUniqueArray (extras cfg0)
  /\ animations cfg = getUniqueArray (animations cfg0)
  /\ framework cfg = frameworkLists (framework cfg0)
  /\ build_publicPath cfg
     = Some (build_publicPath_of (ctx_modeName ctx) (build_publicPath cfg0))
  /\ devServer cfg = devServer cfg0
  /\ ssr_pwa (ssr cfg) = ssr_pwa (ssr cfg0)
  /\ (if mode_ssr ctx
      then exists m, parseAssets "app/src-ssr/middlewares" (ssr_middlewares (ssr cfg0))
                     = Some m
                     /\ ssr_middlewares (ssr cfg) = map AssetObj m
      else ssr_middlewares (ssr cfg) = ssr_middlewares (ssr cfg0))
  /\ (if mode_pwa ctx cfg
      then pwa_workboxMode cfg = Some (merge_workboxMode (pwa_workboxMode cfg0))
           /\ includes_str ["GenerateSW"; "InjectManifest"]
                (merge_workboxMode (pwa_workboxMode cfg0)) = true
      else pwa_workboxMode cfg = pwa_workboxMode cfg0).
Proof.
  destruct (listsStage_returns cfg0) as [c [b [Ec [Eb Hl]]]].
  unfold finishConfig. unfold bind at 1. rewrite Hl.
  destruct (negb (appFilesValidations e)) eqn:Hv; [destruct f; discriminate|].
  apply negb_false_iff in Hv. unfold bind at 1.
  assert (Hw : forall c2 w, mode_pwa ctx (set_pwa_workboxMode c2 w) = mode_pwa ctx c2)
    by reflexivity.
  destruct (mode_ssr ctx) eqn:Hs.
  - match goal with
    | |- context [parseAssetsField ?p ?l] =>
        destruct (parseAssetsField_returns p l) as [m [Em Hm]]
    end.
    unfold bind at 1. rewrite Hm. unfold ret at 1. cbv beta iota.
    match goal with
    | |- context [mode_pwa ctx ?c2] => set (C2 := c2) in *
    end.
    destruct (mode_pwa ctx C2) eqn:Hp.
    + destruct (negb (includes_str _ _)) eqn:Hi; [destruct f; discriminate|].
      apply negb_false_iff in Hi.
      intro H. inversion H; subst cfg s'; clear H.
      rewrite Hw, Hp. subst C2. simpl. rewrite !uniqueField_getUniqueArray.
      repeat (split; [solve [eauto]|]); first [exact Hi | solve [eauto]].
    + intro H. inversion H; subst cfg s'; clear H.
      rewrite Hp. subst C2. simpl. rewrite !uniqueField_getUniqueArray.
      repeat (split; [solve [eauto]|]); first [exact Hi | solve [eauto]].
  - unfold ret at 1. cbv beta iota.
    match goal with
    | |- context [mode_pwa ctx ?c2] => set (C2 := c2) in *
    end.
    destruct (mode_pwa ctx C2) eqn:Hp.
    + destruct (negb (includes_str _ _)) eqn:Hi; [destruct f; discriminate|].
      apply negb_false_iff in Hi.
      intro H. inversion H; subst cfg s'; clear H.
      rewrite Hw, Hp. subst C2. simpl. rewrite !uniqueField_getUniqueArray.
      repeat (split; [solve [eauto]|]); first [exact Hi | solve [eauto]].
    + intro H. inversion H; subst cfg s'; clear H.
      rewrite Hp. subst C2. simpl. rewrite !uniqueField_getUniqueArray.
      repeat (split; [solve [eauto]|]); first [exact Hi | solve [eauto]].
Qed.

Lemma parseAssets_parsed (prefix : string) (l : list asset) (out : list object) :
  parseAssets prefix l = Some out -> parsedAssets (map AssetObj out).
Proof.
  intro H. destruct (parseAssets_shape prefix l) as [parsed [_ E]].
  rewrite E in H. inversion H; subst out. exists (firstByPath
    (filter (fun o => truthy (path_of o)) parsed)).
  split; [reflexivity|]. split; [|apply firstByPath_NoDup].
  apply Forall_forall. intros o Ho. apply firstByPath_incl, filter_In in Ho. tauto.
Qed.

Lemma build_publicPath_of_shape (m : modeName) (p : option string) :
  build_publicPath_of m p = "" \/ endsWith (build_publicPath_of m p) "/" = true.
Proof.
  unfold build_publicPath_of.
  destruct (_ && _); [right; apply formatPublicPath_endsWith|].
  destruct (includes_mode _ m); [now left | now right].
Qed.

Lemma getUniqueArray_NoDup (l : list prim) : NoDup (getUniqueArray l).
Proof. rewrite getUniqueArray_firstOccurrences. apply firstOccurrences_NoDup. Qed.

(** X9. Whatever configuration [#computeConfig] returns is normalized:
    [css] and [boot] (and, in ssr mode, the middlewares) hold objects only,
    each with a path that is not empty and no path twice; [extras],
    [animations] and the framework components, directives and plugins hold
    nothing twice; the public path is empty or ends with a slash; and the
    transient file is gone. *)
Theorem computeConfig_result_normalized :
  forall e ctx opts fn f s cfg s',
    computeConfig e ctx opts fn f s = Ok (Some cfg) s' ->
    parsedAssets (css cfg)
    /\ parsedAssets (boot cfg)
    /\ (mode_ssr ctx = true -> parsedAssets (ssr_middlewares (ssr cfg)))
    /\ NoDup (extras cfg)
    /\ NoDup (animations cfg)
    /\ NoDup (fw_components (framework cfg))
    /\ NoDup (fw_directives (framework cfg))
    /\ NoDup (fw_plugins (framework cfg))
    /\ (exists r, build_publicPath cfg = Some r /\ (r = "" \/ endsWith r "/" = true))
    /\ tempFileOnDisk s' = false.
Proof.
  intros e ctx opts fn f s cfg s' H.
  pose proof (computeConfig_file e ctx opts fn f s) as Hfile. rewrite H in Hfile.
  destruct (computeConfig_Some_inv _ _ _ _ _ _ _ _ H)
    as [v [raw [cfg0 [s0 [-> [_ [_ [_ Hfin]]]]]]]].
  destruct (finishConfig_Some_inv _ _ _ _ _ _ _ Hfin)
    as [_ [_ [[c [Ec Hc]] [[b [Eb Hb]] [Hx [Ha [Hfw [Hpp [_ [_ [Hm _]]]]]]]]]]].
  rewrite Hc, Hb, Hx, Ha, Hfw, Hpp.
  split; [exact (parseAssets_parsed _ _ _ Ec)|].
  split; [exact (parseAssets_parsed _ _ _ Eb)|].
  split.
  { intro Hs. rewrite Hs in Hm. destruct Hm as [m [Em ->]].
    exact (parseAssets_parsed _ _ _ Em). }
  split; [apply getUniqueArray_NoDup|]. split; [apply getUniqueArray_NoDup|].
  unfold frameworkLists; simpl.
  split; [apply getUniqueArray_NoDup|]. split; [apply getUniqueArray_NoDup|].
  split; [apply getUniqueArray_NoDup|].
  split; [|exact Hfile].
  eexists. split; [reflexivity | apply build_publicPath_of_shape].
Qed.

Lemma computeConfig_result_normalized_witness :
  let cfg := set_devServer
               (set_build_publicPath
                  (set_framework
                     (set_extras
                        (set_boot
                           (set_css sampleConf
                              [AssetObj [("path", PStr "src/css/app.scss")];
                               AssetObj [("path", PStr "quasar/dist/x.css")]])
                           [AssetObj [("path", PStr "boot/axios")]])
                        [PStr "roboto-font"; PStr "material-icons"])
                     {| fw_components := [PStr "QSpinnerGears"]; fw_directives := [];
                        fw_plugins := [PStr "Notify"]; fw_loading := None;
                        fw_notify := Some (PStr "QSpinnerGears") |})
                  (Some "/app/"))
               {| ds_host := Some "0.0.0.0"; ds_port := Some 9200; ds_open := PBool true |} in
  parsedAssets (css cfg) /\ NoDup (extras cfg)
  /\ NoDup (fw_plugins (framework cfg)).
Proof.
  intro cfg.
  assert (H : exists s',
             computeConfig sampleConfEnv pwaDev (noCli false)
               (Callable (Returns (JObject 1 []))) true initial
             = Ok (Some (set_pwa_workboxMode cfg (Some "GenerateSW"))) s').
  { eexists. vm_compute. reflexivity. }
  destruct H as [s' H].
  destruct (computeConfig_result_normalized _ _ _ _ _ _ _ _ H)
    as [Hc [_ [_ [Hx [_ [_ [_ [Hp _]]]]]]]].
  split; [exact Hc|]. split; [exact Hx | exact Hp].
Defined.

Lemma mode_pwa_withSsrDefaults (ctx : context) (raw : conf) :
  mode_pwa ctx (withSsrDefaults ctx raw) = mode_pwa ctx raw.
Proof.
  unfold mode_pwa, withSsrDefaults, mode_ssr, ssr_pwa_true.
  destruct (ctx_modeName ctx); try reflexivity.
  simpl. destruct (ssr_pwa (ssr raw)); reflexivity.
Qed.

Lemma mode_pwa_ext (ctx : context) (c1 c2 : conf) :
  ssr_pwa (ssr c1) = ssr_pwa (ssr c2) -> mode_pwa ctx c1 = mode_pwa ctx c2.
Proof. intro H. unfold mode_pwa, ssr_pwa_true. now rewrite H. Qed.

Lemma withSsrDefaults_fields (ctx : context) (raw : conf) :
  devServer (withSsrDefaults ctx raw) = devServer raw
  /\ pwa_workboxMode (withSsrDefaults ctx raw) = pwa_workboxMode raw.
Proof. unfold withSsrDefaults. destruct (mode_ssr ctx); split; reflexivity. Qed.

Lemma includes_workbox (m : string) :
  includes_str ["GenerateSW"; "InjectManifest"] m = true ->
  m = "GenerateSW" \/ m = "InjectManifest".
Proof.
  unfold includes_str. simpl. rewrite orb_false_r. intro H.
  apply orb_true_iff in H. destruct H as [H|H]; apply String.eqb_eq in H; auto.
Qed.

(** X10. The workbox mode of a returned configuration. When the pwa mode
    is on (the pwa mode itself, or ssr with [ssr.pwa === true]) a
    configuration is returned only with [pwa.workboxMode] one of
    GenerateSW and InjectManifest: the user's value when there is one,
    GenerateSW when there is none. Otherwise the field is left as the
    user wrote it. *)
Theorem workboxMode_of_result :
  forall e ctx opts fn f s cfg s',
    computeConfig e ctx opts fn f s = Ok (Some cfg) s' ->
    exists v raw,
      fn = Callable (Returns v)
      /\ extendQuasarConf e (merge_defaults e v) = Some raw
      /\ mode_pwa ctx cfg = mode_pwa ctx raw
      /\ if mode_pwa ctx raw
         then match pwa_workboxMode raw with
              | None => pwa_workboxMode cfg = Some "GenerateSW"
              | Some m => pwa_workboxMode cfg = Some m
                          /\ (m = "GenerateSW" \/ m = "InjectManifest")
              end
         else pwa_workboxMode cfg = pwa_workboxMode raw.
Proof.
  intros e ctx opts fn f s cfg s' H.
  destruct (computeConfig_Some_inv _ _ _ _ _ _ _ _ H)
    as [v [raw [cfg0 [s0 [-> [_ [He [Hd Hfin]]]]]]]].
  exists v, raw. split; [reflexivity|]. split; [exact He|].
  destruct (devServerStage_sets_devServer _ _ _ _ _ _ _ _ Hd) as [d ->].
  destruct (finishConfig_Some_inv _ _ _ _ _ _ _ Hfin)
    as [_ [_ [_ [_ [_ [_ [_ [_ [_ [Hp [_ Hw]]]]]]]]]]].
  assert (Hm : mode_pwa ctx cfg = mode_pwa ctx raw).
  { rewrite <- (mode_pwa_withSsrDefaults ctx raw). apply mode_pwa_ext.
    rewrite Hp. reflexivity. }
  split; [exact Hm|]. rewrite Hm in Hw.
  change (pwa_workboxMode (set_devServer (withSsrDefaults ctx raw) d))
    with (pwa_workboxMode (withSsrDefaults ctx raw)) in Hw.
  rewrite (proj2 (withSsrDefaults_fields ctx raw)) in Hw.
  destruct (mode_pwa ctx raw); [|exact Hw].
  destruct Hw as [Hc Hi]. destruct (pwa_workboxMode raw) as [m|]; simpl in *.
  - split; [exact Hc | now apply includes_workbox].
  - exact Hc.
Qed.

Lemma workboxMode_of_result_witness :
  exists v raw,
    Callable (Returns (JObject 1 [])) = Callable (Returns v)
    /\ extendQuasarConf sampleConfEnv (merge_defaults sampleConfEnv v) = Some raw
    /\ mode_pwa pwaDev
         (returned (computeConfig sampleConfEnv pwaDev (noCli false)
                      (Callable (Returns (JObject 1 []))) true initial))
       = mode_pwa pwaDev raw
    /\ if mode_pwa pwaDev raw
       then match pwa_workboxMode raw with
            | None =>
                pwa_workboxMode
                  (returned (computeConfig sampleConfEnv pwaDev (noCli false)
                               (Callable (Returns (JObject 1 []))) true initial))
                = Some "GenerateSW"
            | Some m =>
                pwa_workboxMode
                  (returned (computeConfig sampleConfEnv pwaDev (noCli false)
                               (Callable (Returns (JObject 1 []))) true initial))
                = Some m
                /\ (m = "GenerateSW" \/ m = "InjectManifest")
            end
       else pwa_workboxMode
              (returned (computeConfig sampleConfEnv pwaDev (noCli false)
                           (Callable (Returns (JObject 1 []))) true initial))
            = pwa_workboxMode raw.
Proof.
  apply (workboxMode_of_result sampleConfEnv pwaDev (noCli false)
           (Callable (Returns (JObject 1 []))) true initial
           (returned (computeConfig sampleConfEnv pwaDev (noCli false)
                        (Callable (Returns (JObject 1 []))) true initial))
           (final (computeConfig sampleConfEnv pwaDev (noCli false)
                     (Callable (Returns (JObject 1 []))) true initial))).
  vm_compute. reflexivity.
Defined.

Lemma cachedTo_afterRemove (s : state) (a : addr) :
  cachedTo (afterRemove s) a = cachedTo s a.
Proof. reflexivity. Qed.

Lemma cachedTo_pushAll (l : list event) (s : state) (a : addr) :
  cachedTo (pushAll l s) a = cachedTo s a.
Proof. unfold cachedTo. now rewrite address_pushAll. Qed.

Lemma devServerStage_open (e : env) (ctx : context) (opts : options)
    (f : bool) (cfg cfg' : conf) (s s' : state) :
  devServerOn ctx = true ->
  devServerStage e ctx opts f cfg s = Ok (Some cfg') s' ->
  ds_open (devServer cfg')
  = match cachedTo s (requested ctx opts cfg) with
    | Some _ => ds_open (devServer cfg)
    | None => openDefault (ds_open (devServer cfg))
    end.
Proof.
  intros G. rewrite (devServerStage_on _ _ _ _ _ _ G).
  destruct (cachedTo s (requested ctx opts cfg)) as [to|].
  - intro H. inversion H. reflexivity.
  - rewrite negotiate_unfold.
    destruct (if verifyAddress opts then _ else _) as [[t|] s1| s1 | s1];
      try discriminate.
    + intro H. inversion H. simpl. unfold openDefault.
      destruct (ds_open (devServer cfg)); reflexivity.
    + destruct f; discriminate.
Qed.

Lemma devServerOn_split (ctx : context) :
  devServerOn ctx = true -> dev ctx = true /\ ctx_modeName ctx <> Bex.
Proof.
  unfold devServerOn, mode_bex. intro H. apply andb_true_iff in H.
  destruct H as [Hd Hb]. split; [exact Hd|]. intro E. rewrite E in Hb. discriminate.
Qed.



(** ** How the steps end *)

Lemma orderly_fatal (neg run : bool) (s : state) (m : string) :
  orderly true neg run
    (Exited (push_event (push_event s (Fatal m "FAIL")) (ProcessExit 1))).
Proof. simpl. eexists. split; [reflexivity|]. left. split; [reflexivity|]. now eexists _, _. Qed.

Lemma orderly_warn (neg run : bool) (s : state) (m : string) :
  orderly false neg run (Ok None (push_event s (Warn m))).
Proof. simpl. split; [reflexivity|]. now eexists _, _. Qed.

Lemma orderly_report (f neg run : bool) (s : state) (m w : string) :
  orderly f neg run
    (if f
     then Exited (push_event (push_event s (Fatal m "FAIL")) (ProcessExit 1))
     else Ok None (push_event s (Warn w))).
Proof. destruct f; [apply orderly_fatal | apply orderly_warn]. Qed.

Lemma onAddress_outcome (e : env) (a : addr) (mode : modeName) (s : state) :
  match onAddress e a mode s with
  | Ok (Some _) s' => addressRunning s' = true
  | Ok None s' =>
      addressRunning s = true /\ addressRunning s' = true
      /\ exists rest, trace s' = Warn "" :: rest
  | Exited s' =>
      addressRunning s = false
      /\ exists rest, trace s' = ProcessExit 1 :: Warn "" :: rest
  | Threw _ => False
  end.
Proof.
  destruct (externalHost_returns e (addr_host a) mode s) as [h [s1 E]].
  pose proof (externalHost_sameRunning e (addr_host a) mode s) as Hr.
  rewrite E in Hr. simpl in Hr.
  rewrite (onAddress_unfold _ _ _ _ _ _ E).
  destruct (findClosestOpenPort e (addr_port a) h) eqn:P;
    [destruct (negb (optZ_eqb _ _)); reflexivity | | |];
    cbv zeta; destruct (addressRunning s1) eqn:F; simpl;
    rewrite ?addressRunning_fold_push; simpl;
    repeat (split; [congruence|]); eexists; reflexivity.
Qed.

Lemma addressRunning_pushAll (l : list event) (s : state) :
  addressRunning (pushAll l s) = addressRunning s.
Proof. apply addressRunning_fold_push. Qed.

Lemma devServerStage_orderly (e : env) (ctx : context) (opts : options)
    (f : bool) (cfg : conf) (s : state) :
  orderly f (negotiates ctx opts) (addressRunning s)
    (devServerStage e ctx opts f cfg s).
Proof.
  destruct (dev ctx && negb (mode_bex ctx)) eqn:G.
  - rewrite (devServerStage_on _ _ _ _ _ _ G).
    destruct (cachedTo s (requested ctx opts cfg)); [exact I|].
    rewrite negotiate_unfold. destruct (verifyAddress opts) eqn:V; [|exact I].
    pose proof (onAddress_outcome e (requested ctx opts cfg) (ctx_modeName ctx)
                  (pushAll (portTip opts cfg) s)) as Ho.
    destruct (onAddress _ _ _ _) as [[t|] s1|s1|s1].
    + exact I.
    + apply orderly_report.
    + destruct Ho as [Hf [rest Hr]]. simpl. eexists. split; [exact Hr|].
      right. unfold negotiates. rewrite G, V.
      rewrite addressRunning_pushAll in Hf. now split.
    + exact Ho.
  - rewrite (devServerStage_off _ _ _ _ _ _ G). exact I.
Qed.

Lemma devServerStage_runningKept (e : env) (ctx : context) (opts : options)
    (f : bool) (cfg : conf) (s : state) :
  runningKept s (final (devServerStage e ctx opts f cfg s)).
Proof.
  intro Hs. destruct (dev ctx && negb (mode_bex ctx)) eqn:G.
  - rewrite (devServerStage_on _ _ _ _ _ _ G).
    destruct (cachedTo s (requested ctx opts cfg)).
    + simpl. now rewrite addressRunning_pushAll.
    + rewrite negotiate_unfold. destruct (verifyAddress opts) eqn:V.
      * pose proof (onAddress_outcome e (requested ctx opts cfg) (ctx_modeName ctx)
                      (pushAll (portTip opts cfg) s)) as Ho.
        rewrite addressRunning_pushAll in Ho.
        destruct (onAddress _ _ _ _) as [[t|] s1|s1|s1]; simpl.
        -- exact Ho.
        -- destruct f; simpl; tauto.
        -- destruct Ho; congruence.
        -- destruct Ho.
      * simpl. now rewrite addressRunning_pushAll.
  - now rewrite (devServerStage_off _ _ _ _ _ _ G).
Qed.

Lemma devServerStage_raises (e : env) (ctx : context) (opts : options)
    (f : bool) (cfg cfg' : conf) (s s' : state) :
  negotiates ctx opts = true -> address s = None ->
  devServerStage e ctx opts f cfg s = Ok (Some cfg') s' ->
  addressRunning s' = true.
Proof.
  unfold negotiates. intros N Ha. apply andb_true_iff in N. destruct N as [G V].
  rewrite (devServerStage_on _ _ _ _ _ _ G). unfold cachedTo at 1. rewrite Ha.
  rewrite negotiate_unfold, V.
  pose proof (onAddress_outcome e (requested ctx opts cfg) (ctx_modeName ctx)
                (pushAll (portTip opts cfg) s)) as Ho.
  destruct (onAddress _ _ _ _) as [[t|] s1|s1|s1]; try discriminate.
  - intro H. inversion H. exact Ho.
  - destruct f; discriminate.
Qed.

Lemma finishConfig_sameRunning (e : env) (ctx : context) (f : bool) (cfg : conf)
    (s : state) :
  addressRunning (final (finishConfig e ctx f cfg s)) = addressRunning s.
Proof.
  apply (holds_finishConfig sameRunning (fun _ => true)); unfold sameRunning;
    try reflexivity; auto; congruence.
Qed.

Lemma finishConfig_orderly (e : env) (ctx : context) (f neg run : bool)
    (cfg : conf) (s : state) :
  orderly f neg run (finishConfig e ctx f cfg s).
Proof.
  destruct (listsStage_returns cfg) as [c [b [Ec [Eb Hl]]]].
  unfold finishConfig. unfold bind at 1. rewrite Hl.
  destruct (negb (appFilesValidations e)) eqn:Hv;
    [destruct f; [apply orderly_fatal | apply orderly_warn]|].
  unfold bind at 1.
  destruct (mode_ssr ctx) eqn:Hs.
  - match goal with
    | |- context [parseAssetsField ?p ?l] =>
        destruct (parseAssetsField_returns p l) as [m [Em Hm]]
    end.
    unfold bind at 1. rewrite Hm. unfold ret at 1. cbv beta iota.
    match goal with
    | |- context [mode_pwa ctx ?c2] => destruct (mode_pwa ctx c2)
    end; [|exact I].
    destruct (negb (includes_str _ _)); [|exact I].
    destruct f; [apply orderly_fatal | apply orderly_warn].
  - unfold ret at 1. cbv beta iota.
    match goal with
    | |- context [mode_pwa ctx ?c2] => destruct (mode_pwa ctx c2)
    end; [|exact I].
    destruct (negb (includes_str _ _)); [|exact I].
    destruct f; [apply orderly_fatal | apply orderly_warn].
Qed.

Lemma deriveConfig_orderly (e : env) (ctx : context) (opts : options)
    (f : bool) (raw : conf) (s : state) :
  orderly f (negotiates ctx opts) (addressRunning s) (deriveConfig e ctx opts f raw s).
Proof.
  rewrite deriveConfig_unfold.
  pose proof (devServerStage_orderly e ctx opts f (withSsrDefaults ctx raw) s) as Hd.
  destruct (devServerStage _ _ _ _ _ _) as [[c|] s1|s1|s1]; try exact Hd.
  apply finishConfig_orderly.
Qed.

Lemma deriveConfig_runningKept (e : env) (ctx : context) (opts : options)
    (f : bool) (raw : conf) (s : state) :
  runningKept s (final (deriveConfig e ctx opts f raw s)).
Proof.
  rewrite deriveConfig_unfold.
  pose proof (devServerStage_runningKept e ctx opts f (withSsrDefaults ctx raw) s) as Hd.
  destruct (devServerStage _ _ _ _ _ _) as [[c|] s1|s1|s1]; try exact Hd.
  intro Hs. rewrite finishConfig_sameRunning. exact (Hd Hs).
Qed.

Lemma computeConfig_orderly (e : env) (ctx : context) (opts : options)
    (fn : exported) (f : bool) (s : state) :
  orderly f (negotiates ctx opts) (addressRunning s) (computeConfig e ctx opts fn f s).
Proof.
  destruct fn as [v|[|v]].
  - rewrite computeConfig_notCallable. apply orderly_report.
  - rewrite computeConfig_throws. apply orderly_report.
  - destruct (Object_is_self v) eqn:Ho.
    + rewrite (computeConfig_object _ _ _ _ _ Ho).
      destruct (extendQuasarConf e (merge_defaults e v)) as [raw|] eqn:He.
      * rewrite (normalize_extended _ _ _ _ _ _ _ He).
        exact (deriveConfig_orderly e ctx opts f raw (afterRemove s)).
      * rewrite (normalize_extension_error _ _ _ _ _ _ He). apply orderly_report.
    + rewrite (computeConfig_notObject _ _ _ _ _ _ Ho). apply orderly_report.
Qed.

Lemma computeConfig_runningKept (e : env) (ctx : context) (opts : options)
    (fn : exported) (f : bool) (s : state) :
  runningKept s (final (computeConfig e ctx opts fn f s)).
Proof.
  destruct fn as [v|[|v]].
  - rewrite computeConfig_notCallable. destruct f; exact (fun H => H).
  - rewrite computeConfig_throws. destruct f; exact (fun H => H).
  - destruct (Object_is_self v) eqn:Ho.
    + rewrite (computeConfig_object _ _ _ _ _ Ho).
      destruct (extendQuasarConf e (merge_defaults e v)) as [raw|] eqn:He.
      * rewrite (normalize_extended _ _ _ _ _ _ _ He).
        exact (deriveConfig_runningKept e ctx opts f raw (afterRemove s)).
      * rewrite (normalize_extension_error _ _ _ _ _ _ He).
        destruct f; exact (fun H => H).
    + rewrite (computeConfig_notObject _ _ _ _ _ _ Ho). destruct f; exact (fun H => H).
Qed.

Lemma computeConfig_raises (e : env) (ctx : context) (opts : options)
    (fn : exported) (f : bool) (s s' : state) (cfg : conf) :
  negotiates ctx opts = true -> address s = None ->
  computeConfig e ctx opts fn f s = Ok (Some cfg) s' ->
  addressRunning s' = true.
Proof.
  intros N Ha H.
  destruct (computeConfig_Some_inv _ _ _ _ _ _ _ _ H)
    as [v [raw [cfg0 [s0 [_ [_ [_ [Hd Hfin]]]]]]]].
  destruct (finishConfig_Some_inv _ _ _ _ _ _ _ Hfin) as [-> _].
  exact (devServerStage_raises _ _ _ _ _ _ (afterRemove s) _ N Ha Hd).
Qed.

Lemma computeConfig_steady (e : env) (ctx : context) (opts : options)
    (fn : exported) (f : bool) (s : state) :
  steady notDelivery s (final (computeConfig e ctx opts fn f s)).
Proof.
  assert (Hrep : forall s0 m w,
             steady notDelivery s s0 ->
             steady notDelivery s
               (final (if f
                       then Exited (push_event (push_event s0 (Fatal m "FAIL"))
                                      (ProcessExit 1))
                       else @Ok (option conf) None (push_event s0 (Warn w))))).
  { intros s0 m w St. destruct f; simpl; repeat (apply steady_push; [|reflexivity]);
      exact St. }
  destruct fn as [v|[|v]].
  - rewrite computeConfig_notCallable. apply Hrep, steady_afterRemove.
  - rewrite computeConfig_throws. cbv zeta. apply Hrep.
    do 2 (apply steady_push; [|reflexivity]). apply steady_refl.
  - destruct (Object_is_self v) eqn:Ho.
    + rewrite (computeConfig_object _ _ _ _ _ Ho).
      destruct (extendQuasarConf e (merge_defaults e v)) as [raw|] eqn:He.
      * rewrite (normalize_extended _ _ _ _ _ _ _ He).
        eapply steady_trans; [apply steady_afterRemove|].
        eapply steady_weaken; [exact deriveEvent_notDelivery|].
        apply deriveConfig_steady.
      * rewrite (normalize_extension_error _ _ _ _ _ _ He). cbv zeta. apply Hrep.
        do 2 (apply steady_push; [|reflexivity]). apply steady_afterRemove.
    + rewrite (computeConfig_notObject _ _ _ _ _ _ Ho). apply Hrep, steady_afterRemove.
Qed.


Lemma build_unfold (e : env) (ctx : context) (opts : options) (s : state) :
  build e ctx opts s
  = if (compileErrors e =? 0)%nat
    then match importResult e with
         | ImportThrows =>
             Exited (push_event
                       (push_event
                          (push_event
                             (push_event (set_tempFileOnDisk s true) ConsoleLog)
                             ConsoleError)
                          (Fatal (msgImportBuild ctx) "FAIL"))
                       (ProcessExit 1))
         | Imported fn => computeConfig e ctx opts fn true (set_tempFileOnDisk s true)
         end
    else Exited (push_event
                   (push_event
                      (push_event (push_event (afterRemove s) ConsoleLog) ConsoleError)
                      (Fatal msgCompile "FAIL"))
                   (ProcessExit 1)).
Proof.
  unfold build, esBuild, bind at 1 2, modify, ret.
  destruct (compileErrors e =? 0)%nat; simpl; [|reflexivity].
  destruct (importResult e); reflexivity.
Qed.


(** ** Watch sessions *)

Lemma built_steady (e : env) (s : state) :
  steady notDelivery s (built e s)
  /\ addressRunning (built e s) = addressRunning s
  /\ address (built e s) = address s.
Proof.
  unfold built. destruct (negb (isFirst s)); destruct (compileErrors e =? 0)%nat;
    (split; [|split; reflexivity]); repeat split; simpl;
    first [ now exists [] | now eexists [_; _; _] ].
Qed.

(** The three ways a processed [onEnd] goes: a tolerated failure, an
    exit, or a configuration handed over. *)
Lemma onEnd_step (e : env) (ctx : context) (opts : options) (s : state) :
  isFirst s = true \/ isWatching s = true ->
  (exists s', onEnd e ctx opts s = Ok tt s'
              /\ steady notDelivery s s' /\ runningKept s s' /\ isFirst s = false)
  \/ (exists s', onEnd e ctx opts s = Exited s'
                 /\ steady notDelivery s s'
                 /\ (isFirst s = true
                     \/ (negotiates ctx opts = true /\ addressRunning s = false)))
  \/ (exists c s1, onEnd e ctx opts s = Ok tt (handedOver (isFirst s) c s1)
                   /\ steady notDelivery s s1 /\ runningKept s s1
                   /\ (negotiates ctx opts = true -> address s = None ->
                       addressRunning s1 = true)).
Proof.
  intro Hp. destruct (compileErrors e =? 0)%nat eqn:Hc.
  - apply Nat.eqb_eq in Hc. destruct (importResult e) as [|fn] eqn:Hi.
    + rewrite (onEnd_import_error e ctx opts s Hp Hc Hi). cbv zeta.
      destruct (isFirst s) eqn:Hf.
      * right. left. eexists. split; [reflexivity|]. split; [|now left].
        repeat (apply steady_push; [|reflexivity]). apply steady_refl.
      * left. eexists. split; [reflexivity|]. split; [|split; [exact (fun H => H)|reflexivity]].
        repeat (apply steady_push; [|reflexivity]). apply steady_refl.
    + rewrite (onEnd_imported e ctx opts s fn Hp Hc Hi).
      pose proof (computeConfig_orderly e ctx opts fn (isFirst s) s) as Ho.
      pose proof (computeConfig_steady e ctx opts fn (isFirst s) s) as St.
      pose proof (computeConfig_runningKept e ctx opts fn (isFirst s) s) as Hr.
      destruct (computeConfig e ctx opts fn (isFirst s) s) as [[c|] s1|s1|s1] eqn:E;
        simpl in St, Hr.
      * right. right. exists c, s1.
        split; [unfold handedOver; destruct (isFirst s); reflexivity|].
        split; [exact St|].
        split; [exact Hr|]. intros N Ha.
        exact (computeConfig_raises _ _ _ _ _ _ _ _ N Ha E).
      * left. exists s1. destruct Ho as [Hf _].
        split; [reflexivity|]. split; [exact St|]. split; [exact Hr | exact Hf].
      * right. left. exists s1. split; [reflexivity|]. split; [exact St|].
        destruct Ho as [rest [_ [[Hf _]|Hn]]]; [now left | now right].
      * destruct Ho.
  - apply Nat.eqb_neq in Hc. rewrite (onEnd_compile_error e ctx opts s Hp Hc).
    destruct (isFirst s) eqn:Hf.
    + right. left. eexists. split; [reflexivity|]. split; [|now left].
      do 2 (apply steady_push; [|reflexivity]). apply steady_afterRemove.
    + left. eexists. split; [reflexivity|]. split; [|split; [exact (fun H => H)|reflexivity]].
      apply steady_push; [|reflexivity]. apply steady_afterRemove.
Qed.

Lemma session_rebuild (ctx : context) (opts : options) (e : env) (l : list action)
    (s : state) :
  session ctx opts (Rebuild e :: l) s
  = match onEnd e ctx opts (built e s) with
    | Ok _ s' => session ctx opts l s'
    | Exited s' => Exited s'
    | Threw s' => Threw s'
    end.
Proof. simpl. unfold bind at 1. rewrite cycle_unfold. reflexivity. Qed.

Lemma session_watch (ctx : context) (opts : options) (l : list action) (s : state) :
  session ctx opts (WatchCall :: l) s = session ctx opts l (set_isWatching s true).
Proof. reflexivity. Qed.

Lemma handedOver_fields (first : bool) (c : conf) (s1 : state) :
  isFirst (handedOver first c s1) = (if first then false else isFirst s1)
  /\ isWatching (handedOver first c s1) = isWatching s1
  /\ addressRunning (handedOver first c s1) = addressRunning s1
  /\ address (handedOver first c s1) = address s1
  /\ inForce (handedOver first c s1) = Some c
  /\ deliveries (trace (handedOver first c s1))
     = (if first then FirstBuildIsDone c else ScheduleApply c)
         :: deliveries (trace s1).
Proof. destruct first; repeat split. Qed.

Lemma session_safe (ctx : context) (opts : options) (l : list action) :
  forall s,
    (isFirst s = true -> address s = None) ->
    (isFirst s = false -> negotiates ctx opts = true -> addressRunning s = true) ->
    match session ctx opts l s with
    | Ok _ _ => True
    | Exited s' => isFirst s' = true
    | Threw _ => False
    end.
Proof.
  induction l as [|[e|] l IH]; intros s H1 H2.
  - exact I.
  - rewrite session_rebuild.
    destruct (built_flags e s) as [Bf [Bw _]].
    destruct (built_steady e s) as [_ [Br Ba]].
    destruct (isFirst s) eqn:Hf.
    + destruct (onEnd_step e ctx opts (built e s) (or_introl Bf))
        as [[s' [E [St [Hr Hx]]]] | [[s' [E [St Hx]]] | [c [s1 [E [St [Hr Hn]]]]]]];
        rewrite E.
      * congruence.
      * destruct St as [_ [_ [St _]]]. congruence.
      * rewrite Bf. destruct (handedOver_fields true c s1) as [Gf [_ [Gr _]]].
        apply IH.
        -- intro H. rewrite Gf in H. discriminate.
        -- intros _ N. rewrite Gr. apply (Hn N). rewrite Ba. now apply H1.
    + destruct (isWatching s) eqn:Hw.
      * destruct (onEnd_step e ctx opts (built e s) (or_intror Bw))
          as [[s' [E [St [Hr Hx]]]] | [[s' [E [St Hx]]] | [c [s1 [E [St [Hr Hn]]]]]]];
          rewrite E.
        -- destruct St as [_ [_ [St _]]]. apply IH.
           ++ intro H. congruence.
           ++ intros _ N. apply Hr. rewrite Br. now apply H2.
        -- destruct Hx as [Hx|[N Hx]]; [congruence|].
           rewrite Br in Hx. rewrite (H2 eq_refl N) in Hx. discriminate.
        -- rewrite Bf. destruct (handedOver_fields false c s1) as [Gf [_ [Gr _]]].
           destruct St as [_ [_ [St _]]]. rewrite Bf in St.
           apply IH.
           ++ intro H. rewrite Gf, St in H. discriminate.
           ++ intros _ N. rewrite Gr. apply Hr. rewrite Br. now apply H2.
      * rewrite (onEnd_skipped e ctx opts (built e s) Bf Bw). apply IH.
        -- intro H. congruence.
        -- intros _ N. rewrite Br. now apply H2.
  - rewrite session_watch. apply IH; [exact H1 | exact H2].
Qed.

(** X14. Once the first build of a watch session has gone through, no
    rebuild ends the process. Start a session with no negotiation cached
    before the first build (as a fresh instance has it) and, after the first
    build, with the negotiator's flag up whenever the session negotiates;
    then, whatever the rebuilds find and whenever [watch()] is issued, if
    the process exits it does so during the first build. (Exits are those
    of the model: [fatal] and the negotiator's [process.exit].) *)
Theorem session_exits_only_in_first_build :
  forall ctx opts l s,
    (isFirst s = true -> address s = None) ->
    (isFirst s = false -> negotiates ctx opts = true -> addressRunning s = true) ->
    match session ctx opts l s with
    | Exited s' => isFirst s' = true
    | _ => True
    end.
Proof.
  intros ctx opts l s H1 H2. pose proof (session_safe ctx opts l s H1 H2) as H.
  destruct (session ctx opts l s); [exact I | exact H | exact I].
Qed.

Lemma session_exits_only_in_first_build_witness :
  match session pwaDev (noCli true) sessionActions initial with
  | Exited s' => isFirst s' = true
  | _ => True
  end.
Proof.
  apply (session_exits_only_in_first_build pwaDev (noCli true) sessionActions initial).
  - reflexivity.
  - simpl. discriminate.
Defined.

Lemma deliveries_app (a b : list event) :
  deliveries (a ++ b) = (deliveries a ++ deliveries b)%list.
Proof. apply filter_app. Qed.

Lemma deliveries_none (l : list event) :
  forallb notDelivery l = true -> deliveries l = [].
Proof.
  induction l as [|x r IH]; simpl; [reflexivity|]. intro H.
  apply andb_true_iff in H. destruct H as [Hx Hr]. rewrite Hx. simpl. now apply IH.
Qed.

Lemma deliveries_steady (s s' : state) :
  steady notDelivery s s' -> deliveries (trace s') = deliveries (trace s).
Proof.
  intros [[new [E F]] _]. rewrite E, deliveries_app, (deliveries_none _ F). reflexivity.
Qed.

Lemma delivered_nonempty (d : list event) (o : option conf) :
  delivered d o -> d <> [] -> exists c, o = Some c.
Proof. intros H N. destruct H; [contradiction | eauto | eauto]. Qed.

Lemma session_protocol (ctx : context) (opts : options) (l : list action) :
  forall s,
    delivered (deliveries (trace s)) (inForce s) ->
    (isFirst s = true <-> deliveries (trace s) = []) ->
    (isWatching s = false -> (List.length (deliveries (trace s)) <= 1)%nat) ->
    let s' := final (session ctx opts l s) in
    delivered (deliveries (trace s')) (inForce s')
    /\ (isFirst s' = true <-> deliveries (trace s') = [])
    /\ (isWatching s' = false -> (List.length (deliveries (trace s')) <= 1)%nat).
Proof.
  assert (Hkeep : forall s s1 : state,
             steady notDelivery s s1 ->
             delivered (deliveries (trace s)) (inForce s) ->
             (isFirst s = true <-> deliveries (trace s) = []) ->
             (isWatching s = false -> (List.length (deliveries (trace s)) <= 1)%nat) ->
             delivered (deliveries (trace s1)) (inForce s1)
             /\ (isFirst s1 = true <-> deliveries (trace s1) = [])
             /\ (isWatching s1 = false
                 -> (List.length (deliveries (trace s1)) <= 1)%nat)).
  { intros s s1 St H1 H2 H3. rewrite (deliveries_steady _ _ St).
    destruct St as [_ [Si [Sf Sw]]]. rewrite Si, Sf, Sw. auto. }
  induction l as [|[e|] l IH]; intros s H1 H2 H3; cbv zeta.
  - simpl. auto.
  - rewrite session_rebuild.
    destruct (built_flags e s) as [Bf [Bw _]].
    destruct (built_steady e s) as [Bs _].
    destruct (Hkeep _ _ Bs H1 H2 H3) as [K1 [K2 K3]].
    assert (Hgo : forall s', steady notDelivery (built e s) s' ->
                    delivered (deliveries (trace (final (session ctx opts l s'))))
                      (inForce (final (session ctx opts l s')))
                    /\ (isFirst (final (session ctx opts l s')) = true
                        <-> deliveries (trace (final (session ctx opts l s'))) = [])
                    /\ (isWatching (final (session ctx opts l s')) = false
                        -> (List.length
                              (deliveries (trace (final (session ctx opts l s'))))
                            <= 1)%nat)).
    { intros s' St. destruct (Hkeep _ _ St K1 K2 K3) as [L1 [L2 L3]].
      exact (IH s' L1 L2 L3). }
    assert (Hover : forall c s1,
               steady notDelivery (built e s) s1 ->
               isFirst (built e s) = true \/ isWatching (built e s) = true ->
               let s2 := handedOver (isFirst (built e s)) c s1 in
               delivered (deliveries (trace s2)) (inForce s2)
               /\ (isFirst s2 = true <-> deliveries (trace s2) = [])
               /\ (isWatching s2 = false
                   -> (List.length (deliveries (trace s2)) <= 1)%nat)).
    { intros c s1 St Hp. cbv zeta.
      destruct (Hkeep _ _ St K1 K2 K3) as [L1 [L2 L3]].
      destruct St as [_ [_ [Sf Sw]]]. rewrite <- Sf. rewrite <- Sf, <- Sw in Hp.
      destruct (handedOver_fields (isFirst s1) c s1) as [Gf [Gw [_ [_ [Gi Gd]]]]].
      rewrite Gf, Gw, Gi, Gd.
      destruct (isFirst s1) eqn:F1.
      - rewrite (proj1 L2 eq_refl). split; [constructor|].
        split; [split; discriminate|]. intros _. simpl. auto.
      - assert (Hne : deliveries (trace s1) <> []).
        { intro H. apply L2 in H. discriminate. }
        destruct (delivered_nonempty _ _ L1 Hne) as [c0 Hc0]. rewrite Hc0 in L1.
        split; [econstructor; exact L1|].
        split; [split; discriminate|].
        destruct Hp as [Hp|Hp]; [discriminate|]. congruence. }
    pose proof (fun s' St => Hkeep (built e s) s' St K1 K2 K3) as Hstay.
    assert (Hp : (isFirst (built e s) = true \/ isWatching (built e s) = true)
                 \/ (isFirst (built e s) = false /\ isWatching (built e s) = false)).
    { destruct (isFirst (built e s)); [now left; left|].
      destruct (isWatching (built e s)); [now left; right | now right]. }
    destruct Hp as [Hp|[Hf Hw]].
    + destruct (onEnd_step e ctx opts (built e s) Hp)
        as [[s' [E [St _]]] | [[s' [E [St _]]] | [c [s1 [E [St _]]]]]];
        rewrite E.
      * apply Hgo, St.
      * simpl. exact (Hstay _ St).
      * destruct (Hover c s1 St Hp) as [L1 [L2 L3]]. exact (IH _ L1 L2 L3).
    + rewrite (onEnd_skipped e ctx opts (built e s) Hf Hw).
      apply Hgo, steady_refl.
  - rewrite session_watch. apply IH.
    + exact H1.
    + exact H2.
    + simpl. discriminate.
Qed.



(** ** The router base *)

Lemma repeat_oneChar (P : ascii -> bool) (k : continuation) :
  forall s n pos c,
    (String.length s < n)%nat ->
    repeatMatcher (oneChar P) k n pos s c = greedy P k pos s c.
Proof.
  induction s as [|x r IH]; intros n pos c Hn.
  - destruct n as [|n]; reflexivity.
  - destruct n as [|n]; [simpl in Hn; lia|].
    cbn [repeatMatcher oneChar greedy]. destruct (P x); [|reflexivity].
    rewrite (proj2 (Nat.eqb_neq (S pos) pos)) by lia.
    rewrite IH by (simpl in Hn; lia). reflexivity.
Qed.

Lemma star_class (P : ascii -> bool) (k : continuation) (pos : nat) (s : string)
    (c : captures) :
  repeatMatcher (oneChar P) k (S (String.length s)) pos s c = greedy P k pos s c.
Proof. apply repeat_oneChar. lia. Qed.

Lemma greedy_Some (P : ascii -> bool) (k : continuation) :
  forall s pos c m,
    k (pos + String.length (takeWhile P s))%nat (skipWhile P s) c = Some m ->
    greedy P k pos s c = Some m.
Proof.
  induction s as [|x r IH]; intros pos c m H.
  - simpl in *. now rewrite Nat.add_0_r in H.
  - simpl in *. destruct (P x).
    + simpl in H. rewrite (IH (S pos) c m); [reflexivity|].
      now replace (S pos + String.length (takeWhile P r))%nat
        with (pos + S (String.length (takeWhile P r)))%nat by lia.
    + simpl in H. now rewrite Nat.add_0_r in H.
Qed.

Lemma greedy_None (P : ascii -> bool) (k : continuation) (Q : string -> Prop) :
  (forall x s, P x = true -> Q (String x s) -> Q s) ->
  (forall pos s c, Q s -> k pos s c = None) ->
  forall s pos c, Q s -> greedy P k pos s c = None.
Proof.
  intros Hc Hk. induction s as [|x r IH]; intros pos c Hq.
  - simpl. now apply Hk.
  - simpl. destruct (P x) eqn:Px; [|now apply Hk].
    rewrite (IH (S pos) c (Hc x r Px Hq)). now apply Hk.
Qed.

Lemma star_notIn (l : string) (k : continuation) (pos : nat) (s : string) (c : captures) :
  matcher (Star (NoneOf l)) k pos s c = greedy (notIn l) k pos s c.
Proof. exact (star_class (notIn l) k pos s c). Qed.

Lemma star_Dot (k : continuation) (pos : nat) (s : string) (c : captures) :
  matcher (Star Dot) k pos s c = greedy notLineTerminator k pos s c.
Proof. exact (star_class notLineTerminator k pos s c). Qed.

Lemma star_Digit (k : continuation) (pos : nat) (s : string) (c : captures) :
  matcher (Star Digit) k pos s c = greedy isDigit k pos s c.
Proof. exact (star_class isDigit k pos s c). Qed.

Lemma matcher_Seq (a b : re) (k : continuation) :
  matcher (Seq a b) k = matcher a (matcher b k).
Proof. reflexivity. Qed.

Lemma matcher_Alt (a b : re) (k : continuation) (pos : nat) (s : string) (c : captures) :
  matcher (Alt a b) k pos s c
  = match matcher a k pos s c with
    | Some r => Some r
    | None => matcher b k pos s c
    end.
Proof. reflexivity. Qed.

Lemma matcher_Group (i : nat) (a : re) (k : continuation) (pos : nat) (s : string)
    (c : captures) :
  matcher (Group i a) k pos s c
  = matcher a (fun pos' s' c' => k pos' s' ((i, take (pos' - pos)%nat s) :: c')) pos s c.
Proof. reflexivity. Qed.

Lemma matcher_Chr (a : ascii) (k : continuation) (pos : nat) (s : string) (c : captures) :
  matcher (Chr a) k pos s c
  = match s with
    | String x s' => if (a =? x)%char then k (S pos) s' c else None
    | EmptyString => None
    end.
Proof. reflexivity. Qed.

Lemma matcher_Eps (k : continuation) (pos : nat) (s : string) (c : captures) :
  matcher Eps k pos s c = k pos s c.
Proof. reflexivity. Qed.

Lemma matcher_Eol (k : continuation) (pos : nat) (s : string) (c : captures) :
  matcher Eol k pos s c = match s with EmptyString => k pos s c | _ => None end.
Proof. reflexivity. Qed.

Lemma allChars_skipWhile (P : ascii -> bool) (s : string) :
  allChars P s = true -> skipWhile P s = "".
Proof.
  induction s as [|x r IH]; simpl; [reflexivity|].
  destruct (P x); [exact IH | discriminate].
Qed.

Lemma take_takeWhile (P : ascii -> bool) (s : string) :
  take (String.length (takeWhile P s)) s = takeWhile P s.
Proof.
  induction s as [|x r IH]; simpl; [reflexivity|].
  destruct (P x); simpl; [now rewrite IH | reflexivity].
Qed.

Lemma fragmentOk_skip (s : string) :
  fragmentOk (skipWhile (notIn "#") s) = false -> fragmentOk s = false.
Proof.
  destruct s as [|x t]; [intro H; exact H|]. simpl.
  destruct (notIn "#" x) eqn:Px; [|intro H; exact H].
  intros _. unfold notIn in Px. simpl in Px. rewrite orb_false_r in Px.
  apply negb_true_iff in Px. now rewrite Px.
Qed.

Lemma notIn_QH (x : ascii) :
  notIn "?#" x = true -> (x =? "?")%char = false /\ (x =? "#")%char = false.
Proof.
  unfold notIn. simpl. rewrite orb_false_r. intro H. apply negb_true_iff in H.
  now apply orb_false_iff in H.
Qed.

Lemma tailOk_cons (x : ascii) (s : string) :
  notIn "?#" x = true -> tailOk (String x s) = tailOk s.
Proof. intro H. unfold tailOk. simpl. now rewrite H. Qed.

Lemma tailOk_query (s : string) : tailOk s = false -> queryOk s = false.
Proof.
  destruct s as [|x t]; [intro H; exact H|]. unfold tailOk. simpl.
  destruct (notIn "?#" x) eqn:Px; [|intro H; exact H].
  intros _. destruct (notIn_QH x Px) as [H1 H2]. now rewrite H1, H2.
Qed.

Lemma tailOk_skip (P : ascii -> bool) (s : string) :
  (forall x, P x = true -> notIn "?#" x = true) ->
  tailOk (skipWhile P s) = tailOk s.
Proof.
  intro HP. induction s as [|x r IH]; [reflexivity|]. simpl.
  destruct (P x) eqn:Px; [|reflexivity].
  rewrite IH. symmetry. apply tailOk_cons. now apply HP.
Qed.

Lemma takeWhile_skip_length (P : ascii -> bool) (s : string) :
  (String.length (takeWhile P s) + String.length (skipWhile P s))%nat = String.length s.
Proof.
  induction s as [|x r IH]; simpl; [reflexivity|].
  destruct (P x); simpl; [now rewrite IH | reflexivity].
Qed.

Section Fragment.

Variable kf : continuation.
Hypothesis kf_total :
  forall pos s c, exists m, kf pos s c = Some m /\ capture m 5 = capture c 5.

Lemma fragment_fails (pos : nat) (s : string) (c : captures) :
  fragmentOk s = false -> matcher (Seq reFragment Eol) kf pos s c = None.
Proof.
  intro H. rewrite matcher_Seq. unfold reFragment.
  rewrite matcher_Group, matcher_Alt, matcher_Seq, matcher_Chr.
  destruct s as [|x t]; [discriminate|].
  assert (Heps : matcher Eps
                   (fun pos' s' c' =>
                      matcher Eol kf pos' s' ((7%nat, take (pos' - pos)%nat (String x t)) :: c'))
                   pos (String x t) c = None) by reflexivity.
  rewrite Heps. destruct ("#" =? x)%char eqn:Ex; [|reflexivity].
  apply Ascii.eqb_eq in Ex. subst x. simpl in H.
  rewrite star_Dot.
  rewrite (greedy_None notLineTerminator _ (fun s => allChars notLineTerminator s = false));
    [reflexivity | | | exact H].
  - intros x s Px Hq. simpl in Hq. now rewrite Px in Hq.
  - intros pos' s' c' Hq. rewrite matcher_Eol. destruct s'; [discriminate | reflexivity].
Qed.

Lemma fragment_matches (pos : nat) (s : string) (c : captures) :
  fragmentOk s = true ->
  exists m, matcher (Seq reFragment Eol) kf pos s c = Some m
            /\ capture m 5 = capture c 5.
Proof.
  intro H. rewrite matcher_Seq. unfold reFragment.
  rewrite matcher_Group, matcher_Alt, matcher_Seq, matcher_Chr.
  destruct s as [|x t].
  - cbn [matcher].
    destruct (kf_total pos "" ((7%nat, take (pos - pos)%nat "") :: c)) as [m [Em Hm]].
    exists m. split; [exact Em | exact Hm].
  - simpl in H. apply andb_true_iff in H. destruct H as [Hx H].
    apply Ascii.eqb_eq in Hx. subst x.
    change ("#" =? "#")%char with true. cbv iota. rewrite star_Dot.
    match goal with
    | |- context [greedy ?P ?k ?p ?t ?c] =>
        destruct (kf_total (p + String.length (takeWhile P t))%nat ""
                    ((7%nat, take (p + String.length (takeWhile P t) - pos)%nat
                               (String "#" t)) :: c)) as [m [Em Hm]];
        rewrite (greedy_Some P k t p c m)
    end.
    + exists m. split; [reflexivity | exact Hm].
    + rewrite (allChars_skipWhile _ _ H). rewrite matcher_Eol. exact Em.
Qed.

End Fragment.

Section Query.

Variable k : continuation.
Hypothesis k_fails : forall pos s c, fragmentOk s = false -> k pos s c = None.
Hypothesis k_matches :
  forall pos s c, fragmentOk s = true ->
    exists m, k pos s c = Some m /\ capture m 5 = capture c 5.

Lemma query_fails (pos : nat) (s : string) (c : captures) :
  queryOk s = false -> matcher reQuery k pos s c = None.
Proof.
  intro H. unfold reQuery.
  rewrite matcher_Group, matcher_Alt, matcher_Seq, matcher_Chr.
  destruct s as [|x t]; [discriminate|].
  rewrite matcher_Eps. simpl in H. rewrite Ascii.eqb_sym in H.
  destruct ("?" =? x)%char eqn:Ex.
  - apply Ascii.eqb_eq in Ex. subst x.
    rewrite (star_notIn "#").
    rewrite (greedy_None (notIn "#") _
               (fun s => fragmentOk (skipWhile (notIn "#") s) = false));
      [now apply k_fails | | | exact H].
    + intros x s Px Hq. simpl in Hq. now rewrite Px in Hq.
    + intros pos' s' c' Hq. apply k_fails. now apply fragmentOk_skip.
  - now apply k_fails.
Qed.

Lemma query_matches (pos : nat) (s : string) (c : captures) :
  queryOk s = true ->
  exists m, matcher reQuery k pos s c = Some m /\ capture m 5 = capture c 5.
Proof.
  intro H. unfold reQuery.
  rewrite matcher_Group, matcher_Alt, matcher_Seq, matcher_Chr.
  destruct s as [|x t].
  - rewrite matcher_Eps.
    destruct (k_matches pos "" ((6%nat, take (pos - pos)%nat "") :: c) eq_refl)
      as [m [Em Hm]].
    exists m. split; [exact Em | exact Hm].
  - rewrite matcher_Eps. simpl in H. rewrite Ascii.eqb_sym in H.
    destruct ("?" =? x)%char eqn:Ex.
    + rewrite (star_notIn "#").
      match goal with
      | |- context [greedy ?P ?k0 ?p ?t ?c] =>
          destruct (k_matches (p + String.length (takeWhile P t))%nat (skipWhile P t)
                      ((6%nat, take (p + String.length (takeWhile P t) - pos)%nat
                                 (String x t)) :: c) H) as [m [Em Hm]];
          rewrite (greedy_Some P k0 t p c m Em)
      end.
      exists m. split; [reflexivity | exact Hm].
    + destruct (k_matches pos (String x t)
                  ((6%nat, take (pos - pos)%nat (String x t)) :: c) H) as [m [Em Hm]].
      exists m. split; [exact Em | exact Hm].
Qed.

End Query.

Section Path.

Variable k : continuation.
Hypothesis k_fails : forall pos s c, queryOk s = false -> k pos s c = None.
Hypothesis k_matches :
  forall pos s c, queryOk s = true ->
    exists m, k pos s c = Some m /\ capture m 5 = capture c 5.

Lemma path_star_fails (pos0 pos : nat) (s0 s : string) (c : captures) :
  tailOk s = false ->
  greedy (notIn "?#")
    (fun pos' s' c' => k pos' s' ((5%nat, take (pos' - pos0)%nat s0) :: c')) pos s c
  = None.
Proof.
  intro H.
  apply (greedy_None (notIn "?#") _ (fun s => tailOk s = false)); [| | exact H].
  - intros x r Px Hq. now rewrite (tailOk_cons x r Px) in Hq.
  - intros pos' s' c' Hq. apply k_fails. now apply tailOk_query.
Qed.

Lemma path_fails (pos : nat) (s : string) (c : captures) :
  tailOk s = false -> matcher rePath k pos s c = None.
Proof.
  intro H. unfold rePath, Opt.
  rewrite matcher_Group, matcher_Seq, matcher_Alt, matcher_Eps, star_notIn.
  rewrite (path_star_fails pos pos s s c H).
  destruct s as [|x t]; [reflexivity|].
  change (matcher (OneOf "/")) with (oneChar (fun y => charIn y "/")).
  cbn [oneChar]. destruct (charIn x "/") eqn:Ex; [|reflexivity].
  rewrite star_notIn. rewrite path_star_fails; [reflexivity|].
  rewrite <- H. symmetry. apply tailOk_cons.
  simpl in Ex. rewrite orb_false_r in Ex. apply Ascii.eqb_eq in Ex. now subst x.
Qed.

Lemma path_matches (pos : nat) (s : string) (c : captures) :
  tailOk s = true ->
  exists m, matcher rePath k pos s c = Some m
            /\ capture m 5 = Some (takeWhile (notIn "?#") s).
Proof.
  intro H. unfold rePath, Opt.
  rewrite matcher_Group, matcher_Seq, matcher_Alt, matcher_Eps, star_notIn.
  assert (Hsecond :
            exists m,
              greedy (notIn "?#")
                (fun pos' s' c' => k pos' s' ((5%nat, take (pos' - pos)%nat s) :: c'))
                pos s c = Some m
              /\ capture m 5 = Some (takeWhile (notIn "?#") s)).
  { destruct (k_matches (pos + String.length (takeWhile (notIn "?#") s))%nat
                (skipWhile (notIn "?#") s)
                ((5%nat, take (pos + String.length (takeWhile (notIn "?#") s) - pos)%nat s)
                   :: c) H) as [m [Em Hm]].
    exists m. split.
    - apply greedy_Some. exact Em.
    - rewrite Hm. cbn [capture Nat.eqb].
      replace (pos + String.length (takeWhile (notIn "?#") s) - pos)%nat
        with (String.length (takeWhile (notIn "?#") s)) by lia.
      now rewrite take_takeWhile. }
  destruct s as [|x t]; [exact Hsecond|].
  change (matcher (OneOf "/")) with (oneChar (fun y => charIn y "/")).
  cbn [oneChar]. destruct (charIn x "/") eqn:Ex; [|exact Hsecond].
  simpl in Ex. rewrite orb_false_r in Ex. apply Ascii.eqb_eq in Ex. subst x.
  rewrite star_notIn.
  assert (Ht : tailOk t = true) by (rewrite <- H; symmetry; now apply tailOk_cons).
  destruct (k_matches (S pos + String.length (takeWhile (notIn "?#") t))%nat
              (skipWhile (notIn "?#") t)
              ((5%nat, take (S pos + String.length (takeWhile (notIn "?#") t) - pos)%nat
                         (String "/" t)) :: c) Ht) as [m [Em Hm]].
  rewrite (greedy_Some (notIn "?#")
             (fun pos' s' c' =>
                k pos' s' ((5%nat, take (pos' - pos)%nat (String "/" t)) :: c'))
             t (S pos) c m Em).
  exists m. split; [reflexivity|]. rewrite Hm. cbn [capture Nat.eqb].
  replace (S pos + String.length (takeWhile (notIn "?#") t) - pos)%nat
    with (S (String.length (takeWhile (notIn "?#") t))) by lia.
  change (takeWhile (notIn "?#") (String "/" t))
    with (String "/" (takeWhile (notIn "?#") t)).
  cbn [take]. now rewrite take_takeWhile.
Qed.

End Path.

Lemma isDigit_notIn (x : ascii) : isDigit x = true -> notIn "?#" x = true.
Proof.
  destruct x as [[] [] [] [] [] [] [] []]; vm_compute; intro H;
    first [reflexivity | discriminate].
Qed.

Lemma notIn_host_path (x : ascii) : notIn ":/?#" x = true -> notIn "?#" x = true.
Proof.
  unfold notIn. simpl. rewrite !orb_false_r. intro H.
  apply negb_true_iff in H. apply orb_false_iff in H. destruct H as [_ H].
  apply orb_false_iff in H. destruct H as [_ H]. now rewrite H.
Qed.

Lemma notIn_colon : notIn "?#" ":" = true.
Proof. reflexivity. Qed.

Section Port.

Variable k : continuation.
Hypothesis k_fails : forall pos s c, tailOk s = false -> k pos s c = None.
Hypothesis k_matches :
  forall pos s c, tailOk s = true ->
    exists m, k pos s c = Some m
              /\ capture m 5 = Some (takeWhile (notIn "?#") s).

Lemma port_unfold (pos : nat) (s : string) (c : captures) :
  matcher rePort k pos s c
  = match s with
    | String x (String d t) =>
        if (":" =? x)%char && isDigit d
        then match greedy isDigit
                     (fun pos' s' c' =>
                        k pos' s' ((4%nat, take (pos' - S pos)%nat (String d t)) :: c'))
                     (S (S pos)) t c with
             | Some r => Some r
             | None => k pos s c
             end
        else k pos s c
    | _ => k pos s c
    end.
Proof.
  unfold rePort, Opt, Plus.
  rewrite matcher_Alt, matcher_Eps, matcher_Seq, matcher_Chr.
  destruct s as [|x t]; [reflexivity|].
  destruct (":" =? x)%char; [|destruct t; reflexivity].
  rewrite matcher_Group, matcher_Seq.
  change (matcher Digit) with (oneChar isDigit).
  destruct t as [|d t]; [reflexivity|].
  cbn [oneChar andb]. destruct (isDigit d); [|reflexivity].
  rewrite star_Digit. reflexivity.
Qed.

Lemma port_fails (pos : nat) (s : string) (c : captures) :
  tailOk s = false -> matcher rePort k pos s c = None.
Proof.
  intro H. rewrite port_unfold. rewrite (k_fails pos s c H).
  destruct s as [|x [|d t]]; try reflexivity.
  destruct ((":" =? x)%char && isDigit d) eqn:E; [|reflexivity].
  apply andb_true_iff in E. destruct E as [Ex Ed]. apply Ascii.eqb_eq in Ex. subst x.
  rewrite (greedy_None isDigit _ (fun s => tailOk s = false)); [reflexivity | | | ].
  - intros x r Px Hq. now rewrite (tailOk_cons x r (isDigit_notIn x Px)) in Hq.
  - intros pos' s' c' Hq. now apply k_fails.
  - rewrite <- H. symmetry.
    rewrite (tailOk_cons ":" _ notIn_colon). apply tailOk_cons. now apply isDigit_notIn.
Qed.

Lemma port_matches (pos : nat) (s : string) (c : captures) :
  tailOk s = true ->
  exists m, matcher rePort k pos s c = Some m
            /\ capture m 5 = Some (takeWhile (notIn "?#") (afterPort s)).
Proof.
  intro H. rewrite port_unfold. unfold afterPort.
  destruct s as [|x [|d t]]; try (now apply k_matches).
  rewrite (Ascii.eqb_sym x ":").
  destruct ((":" =? x)%char && isDigit d) eqn:E; [|now apply k_matches].
  apply andb_true_iff in E. destruct E as [Ex Ed]. apply Ascii.eqb_eq in Ex. subst x.
  assert (Ht : tailOk (skipWhile isDigit t) = true).
  { rewrite (tailOk_skip isDigit t isDigit_notIn). rewrite <- H. symmetry.
    rewrite (tailOk_cons ":" _ notIn_colon). apply tailOk_cons. now apply isDigit_notIn. }
  destruct (k_matches (S (S pos) + String.length (takeWhile isDigit t))%nat
              (skipWhile isDigit t)
              ((4%nat, take (S (S pos) + String.length (takeWhile isDigit t) - S pos)%nat
                         (String d t)) :: c) Ht) as [m [Em Hm]].
  rewrite (greedy_Some isDigit
             (fun pos' s' c' =>
                k pos' s' ((4%nat, take (pos' - S pos)%nat (String d t)) :: c'))
             t (S (S pos)) c m Em).
  exists m. split; [reflexivity | exact Hm].
Qed.

End Port.

Section Authority.

Variable k : continuation.
Hypothesis k_fails : forall pos s c, tailOk s = false -> k pos s c = None.
Hypothesis k_matches :
  forall pos s c, tailOk s = true ->
    exists m, k pos s c = Some m
              /\ capture m 5 = Some (takeWhile (notIn "?#") s).

Lemma authority_unfold (pos : nat) (s : string) (c : captures) :
  matcher reAuthority k pos s c
  = greedy (notIn ":/?#")
      (fun pos3 s3 c3 =>
         matcher rePort
           (fun pos' s' c' => k pos' s' ((2%nat, take (pos' - pos)%nat s) :: c'))
           pos3 s3 ((3%nat, take (pos3 - pos)%nat s) :: c3))
      pos s c.
Proof.
  unfold reAuthority. rewrite matcher_Group, matcher_Seq, matcher_Group.
  rewrite star_notIn. reflexivity.
Qed.

Lemma authority_fails (pos : nat) (s : string) (c : captures) :
  tailOk s = false -> matcher reAuthority k pos s c = None.
Proof.
  intro H. rewrite authority_unfold.
  apply (greedy_None (notIn ":/?#") _ (fun s => tailOk s = false)); [| | exact H].
  - intros x r Px Hq. now rewrite (tailOk_cons x r (notIn_host_path x Px)) in Hq.
  - intros pos' s' c' Hq. apply port_fails; [|exact Hq].
    intros p r c0 Hr. now apply k_fails.
Qed.

Lemma authority_matches (pos : nat) (s : string) (c : captures) :
  tailOk s = true ->
  exists m, matcher reAuthority k pos s c = Some m
            /\ capture m 5 = Some (routePath s).
Proof.
  intro H. rewrite authority_unfold.
  assert (Ht : tailOk (skipWhile (notIn ":/?#") s) = true)
    by (now rewrite (tailOk_skip (notIn ":/?#") s notIn_host_path)).
  destruct (port_matches
              (fun pos' s' c' => k pos' s' ((2%nat, take (pos' - pos)%nat s) :: c'))
              (fun p r c0 Hr => k_matches p r _ Hr)
              (pos + String.length (takeWhile (notIn ":/?#") s))%nat
              (skipWhile (notIn ":/?#") s)
              ((3%nat, take (pos + String.length (takeWhile (notIn ":/?#") s) - pos)%nat s)
                 :: c) Ht) as [m [Em Hm]].
  exists m. split; [|exact Hm].
  apply greedy_Some. exact Em.
Qed.

End Authority.

Lemma scheme_spec (K : continuation) (s : string) (c : captures) :
  match schemeRest s with
  | Some rest =>
      exists pos' c',
        matcher Bol (matcher reScheme (matcher (Chr "/") (matcher (Chr "/") K))) 0%nat s c
        = K pos' rest c'
  | None =>
      matcher Bol (matcher reScheme (matcher (Chr "/") (matcher (Chr "/") K))) 0%nat s c
      = None
  end.
Proof.
  unfold reScheme, Opt, schemeRest.
  cbn [matcher Lit oneChar stripPrefix Nat.eqb].
  repeat (first
            [ match goal with
              | |- context [match ?s0 with EmptyString => _ | String _ _ => _ end] =>
                  is_var s0; destruct s0 as [|? ?]
              end
            | match goal with
              | |- context [(?a =? ?x)%char] =>
                  is_var x; let E := fresh "E" in
                  destruct (a =? x)%char eqn:E;
                  [apply Ascii.eqb_eq in E; subst x|]
              end
            | match goal with
              | |- context [(?a =? ?b)%char] =>
                  tryif is_var b then fail else
                    (let v := eval vm_compute in (a =? b)%char in
                     change (a =? b)%char with v)
              end ];
          cbn [oneChar]; try reflexivity);
    try (eexists _, _; reflexivity).
  match goal with
  | |- exists _ _, match K ?p ?r ?cc with _ => _ end = _ =>
      exists p, cc; destruct (K p r cc); reflexivity
  end.
Qed.

Lemma matcher_Bol (k : continuation) (pos : nat) (s : string) (c : captures) :
  matcher Bol k pos s c = if (pos =? 0)%nat then k pos s c else None.
Proof. reflexivity. Qed.

Lemma exec_from_eq (r : re) (pos : nat) (s : string) :
  exec_from r pos s
  = match matcher r (fun pos' _ c => Some ((0%nat, take (pos' - pos)%nat s) :: c))
            pos s [] with
    | Some c => Some c
    | None =>
        match s with
        | EmptyString => None
        | String _ s' => exec_from r (S pos) s'
        end
    end.
Proof. destruct s; reflexivity. Qed.

Lemma exec_from_later (s : string) :
  forall pos, pos <> 0%nat -> exec_from routerBaseRE pos s = None.
Proof.
  induction s as [|x r IH]; intros pos Hp; rewrite exec_from_eq;
    unfold routerBaseRE at 1; rewrite (matcher_Seq Bol), matcher_Bol;
    rewrite (proj2 (Nat.eqb_neq pos 0) Hp); [reflexivity|].
  apply IH. lia.
Qed.

Lemma rest_fails (kf : continuation) (pos : nat) (s : string) (c : captures) :
  tailOk s = false ->
  matcher (Seq reAuthority (Seq rePath (Seq reQuery (Seq reFragment Eol)))) kf pos s c
  = None.
Proof.
  intro H. rewrite (matcher_Seq reAuthority), (matcher_Seq rePath), (matcher_Seq reQuery).
  apply authority_fails; [|exact H].
  intros p1 s1 c1 H1. apply path_fails; [|exact H1].
  intros p2 s2 c2 H2. apply query_fails; [|exact H2].
  intros p3 s3 c3 H3. now apply fragment_fails.
Qed.

Lemma rest_matches (kf : continuation) (pos : nat) (s : string) (c : captures) :
  (forall p r c0, exists m, kf p r c0 = Some m /\ capture m 5 = capture c0 5) ->
  tailOk s = true ->
  exists m,
    matcher (Seq reAuthority (Seq rePath (Seq reQuery (Seq reFragment Eol)))) kf pos s c
    = Some m
    /\ capture m 5 = Some (routePath s).
Proof.
  intros Hk H.
  rewrite (matcher_Seq reAuthority), (matcher_Seq rePath), (matcher_Seq reQuery).
  apply authority_matches; [|exact H].
  intros p1 s1 c1 H1. apply path_matches; [|exact H1].
  intros p2 s2 c2 H2. apply query_matches; [|exact H2].
  intros p3 s3 c3 H3. now apply fragment_matches.
Qed.

Lemma routerBaseRE_match (p : string) :
  match schemeRest p with
  | Some rest =>
      if tailOk rest
      then exists m, String_match p routerBaseRE = Some m
                     /\ capture m 5 = Some (routePath rest)
      else String_match p routerBaseRE = None
  | None => String_match p routerBaseRE = None
  end.
Proof.
  unfold String_match. rewrite exec_from_eq.
  assert (Hlater : match p with
                   | EmptyString => None
                   | String _ s' => exec_from routerBaseRE 1 s'
                   end = None).
  { destruct p; [reflexivity|]. apply exec_from_later. lia. }
  rewrite Hlater. unfold routerBaseRE.
  rewrite (matcher_Seq Bol), (matcher_Seq reScheme), (matcher_Seq (Chr "/")),
    (matcher_Seq (Chr "/")).
  match goal with
  | |- context [matcher (Chr "/") (matcher (Chr "/") ?K)] =>
      pose proof (scheme_spec K p []) as Hs
  end.
  destruct (schemeRest p) as [rest|].
  - destruct Hs as [pos' [c' Hs]]. rewrite Hs.
    destruct (tailOk rest) eqn:Ht.
    + destruct (rest_matches
                  (fun pos' _ c => Some ((0%nat, take (pos' - 0)%nat p) :: c))
                  pos' rest c') as [m [Em Hm]]; [|exact Ht|].
      * intros p0 r c0. eexists. split; reflexivity.
      * exists m. rewrite Em. split; [reflexivity | exact Hm].
    + now rewrite rest_fails.
  - now rewrite Hs.
Qed.

Lemma formatRouterBase_direct (p : string) :
  formatRouterBase p
  = if negb (str_truthy p) || negb (startsWith p "http") then Some p
    else match schemeRest p with
         | Some rest =>
             if tailOk rest then Some (formatPublicPath (Some (routePath rest)))
             else None
         | None => None
         end.
Proof.
  unfold formatRouterBase.
  destruct (negb (str_truthy p) || negb (startsWith p "http")); [reflexivity|].
  pose proof (routerBaseRE_match p) as H.
  destruct (schemeRest p) as [rest|]; [|now rewrite H].
  destruct (tailOk rest); [|now rewrite H].
  destruct H as [m [Em Hm]]. rewrite Em, Hm.
  unfold str_truthy. destruct (routePath rest =? "")%string eqn:E; simpl; [|reflexivity].
  apply String.eqb_eq in E. now rewrite E.
Qed.

Lemma stripPrefix_Some (l s r : string) : stripPrefix l s = Some r -> s = l ++ r.
Proof.
  revert s. induction l as [|a l IH]; intros s H; simpl in H.
  - now inversion H.
  - destruct s as [|x s]; [discriminate|].
    destruct (a =? x)%char eqn:E; [|discriminate].
    apply Ascii.eqb_eq in E. subst x. simpl. f_equal. now apply IH.
Qed.

Lemma schemeRest_Some (p rest : string) :
  schemeRest p = Some rest -> p = "http://" ++ rest \/ p = "https://" ++ rest.
Proof.
  unfold schemeRest. destruct (stripPrefix "http://" p) as [r|] eqn:E.
  - intro H. inversion H; subst r. left. now apply stripPrefix_Some.
  - intro H. right. now apply stripPrefix_Some.
Qed.

Lemma schemeRest_http (rest : string) : schemeRest ("http://" ++ rest) = Some rest.
Proof. reflexivity. Qed.

Lemma schemeRest_https (rest : string) : schemeRest ("https://" ++ rest) = Some rest.
Proof. reflexivity. Qed.

Lemma startsWith_http_truthy (p : string) :
  startsWith p "http" = true ->
  negb (str_truthy p) || negb (startsWith p "http") = false.
Proof.
  intro H. rewrite H. destruct p; [discriminate | reflexivity].
Qed.

Lemma startsWith_slash_not_http (s : string) :
  startsWith s "/" = true -> startsWith s "http" = false.
Proof.
  destruct s as [|c r]; [reflexivity|]. unfold startsWith. cbn [prefix].
  destruct (ascii_dec "/"%char c) as [<-|]; [|intro; discriminate].
  reflexivity.
Qed.

Lemma formatPublicPath_shape (p : option string) :
  urlRegex_test (formatPublicPath p) = true
  \/ startsWith (formatPublicPath p) "/" = true.
Proof.
  destruct p as [p|]; [|now right].
  destruct (string_dec p "") as [->|Hp]; [now right|].
  rewrite (formatPublicPath_set p Hp).
  destruct (urlRegex_test (closed p)) eqn:U; [now left|]. right.
  destruct (startsWith (closed p) "/") eqn:S; [exact S | apply startsWith_slash].
Qed.

Lemma build_publicPath_of_cases (m : modeName) (u : option string) :
  build_publicPath_of m u = ""
  \/ urlRegex_test (build_publicPath_of m u) = true
  \/ startsWith (build_publicPath_of m u) "/" = true.
Proof.
  unfold build_publicPath_of. destruct (_ && _).
  - right. apply formatPublicPath_shape.
  - destruct (includes_mode _ m); [now left | now right; right].
Qed.


Lemma closed_app (a b : string) : exists b', closed (a ++ b) = a ++ b'.
Proof.
  unfold closed. destruct (endsWith (a ++ b) "/").
  - now exists b.
  - exists (b ++ "/"). now rewrite str_app_assoc.
Qed.

